(** * TSM Wowhead scraper: the front end and the file engine it drives

    A shallow embedding of [gui_modern.py] (class [TSMScraperApp]) together
    with a model of the two collaborators it imports, [TSMLuaParser] and
    [TSMLuaWriter].

    Conventions.
    - A Python [str] is a Rocq [string]; characters are code points below
      256, and [lower], the white space class and the digits are those of
      Python restricted to that range.
    - A Python [int] is a [Z]; a [dict] with string keys is a [gmap string];
      a [set] of ids is a [gset Z]; a Python [list] is a [list].
    - [try: ... except: ...] blocks are written out: a step that can raise
      takes an oracle bit, and the handler's branch is the result.
    - Tk widgets are not modelled; what a method shows or logs is recorded
      as a list of events. *)

From Stdlib Require Import ZArith String Ascii List Lia Bool.
From Stdlib Require Import Sorting.Sorted Permutation.
From stdpp Require Import gmap strings list fin_maps.

Local Open Scope Z_scope.

(** [simpl] may unfold the concatenation of strings. *)
#[local] Arguments String.append !_ _ : simpl nomatch.

(* ===================================================================== *)
(** * Part I: definitions                                                 *)
(* ===================================================================== *)

(** ** Python string primitives used by the front end *)

Module PyStr.

(** The reserved delimiter between the segments of a group path. *)
Definition delim : ascii := "`"%char.
Definition delim_s : string := String delim EmptyString.

(** [s.split(d)] for a one-character separator: one more piece than
    there are separators, never the empty list. *)
Fixpoint split (d : ascii) (s : string) : list string :=
  match s with
  | EmptyString => [EmptyString]
  | String c s' =>
      if Ascii.eqb c d then EmptyString :: split d s'
      else match split d s' with
           | [] => [String c EmptyString]
           | w :: ws => String c w :: ws
           end
  end.

(** [d.join(l)]. *)
Fixpoint join (d : string) (l : list string) : string :=
  match l with
  | [] => EmptyString
  | [x] => x
  | x :: l' => x +:+ d +:+ join d l'
  end.

(** [parts[-1]] when [parts] is not empty. *)
Definition last_part (parts : list string) (dflt : string) : string :=
  List.last parts dflt.

(** [parts[:-1]]. *)
Definition but_last (parts : list string) : list string :=
  List.removelast parts.

Definition code (c : ascii) : Z := Z.of_N (N_of_ascii c).

(** [c.lower()] for a code point below 256: the letters A-Z and the
    capital letters of the upper half (192-222 without the multiplication
    sign 215) move up by 32. *)
Definition is_upper (c : ascii) : bool :=
  let n := code c in
  ((65 <=? n) && (n <=? 90))
  || ((192 <=? n) && (n <=? 222) && negb (n =? 215)).

Definition lower_char (c : ascii) : ascii :=
  if is_upper c then ascii_of_N (N_of_ascii c + 32) else c.

Fixpoint lower (s : string) : string :=
  match s with
  | EmptyString => EmptyString
  | String c s' => String (lower_char c) (lower s')
  end.

(** [str.isspace] below code point 256. *)
Definition is_space (c : ascii) : bool :=
  let n := code c in
  ((9 <=? n) && (n <=? 13)) || ((28 <=? n) && (n <=? 32))
  || (n =? 133) || (n =? 160).

Fixpoint lstrip (s : string) : string :=
  match s with
  | EmptyString => EmptyString
  | String c s' => if is_space c then lstrip s' else s
  end.

Fixpoint rstrip (s : string) : string :=
  match s with
  | EmptyString => EmptyString
  | String c s' =>
      let r := rstrip s' in
      if is_space c && String.eqb r EmptyString then EmptyString
      else String c r
  end.

(** [s.strip()]. *)
Definition strip (s : string) : string := rstrip (lstrip s).

Definition digit_of (c : ascii) : option Z :=
  let n := code c in
  if (48 <=? n) && (n <=? 57) then Some (n - 48) else None.

(** The digit part of a decimal literal accepted by [int(str)]: at least
    one digit, single underscores allowed between digits only. *)
Fixpoint digits (s : string) (acc : Z) (after_digit : bool) : option Z :=
  match s with
  | EmptyString => if after_digit then Some acc else None
  | String c s' =>
      match digit_of c with
      | Some d => digits s' (10 * acc + d) true
      | None =>
          if Ascii.eqb c "_"%char && after_digit
          then digits s' acc false
          else None
      end
  end.

(** [int(s)]: [None] stands for [ValueError]. *)
Definition py_int (s : string) : option Z :=
  match strip s with
  | String "+"%char r => digits r 0 false
  | String "-"%char r => Z.opp <$> digits r 0 false
  | t => digits t 0 false
  end.

(** The character class [[,\s\n]] of [paste_id_list]. *)
Definition is_id_sep (c : ascii) : bool :=
  Ascii.eqb c ","%char || is_space c.

(** [re.split(r'[,\s\n]+', s)]: [in_run] tells that the previous
    character belonged to a separator run; the head of the result is
    the piece under construction. *)
Fixpoint re_split_from (in_run : bool) (s : string) : list string :=
  match s with
  | EmptyString => [EmptyString]
  | String c s' =>
      if is_id_sep c then
        if in_run then re_split_from true s'
        else EmptyString :: re_split_from true s'
      else match re_split_from false s' with
           | [] => [String c EmptyString]
           | w :: ws => String c w :: ws
           end
  end.

Definition re_split_ids (s : string) : list string := re_split_from false s.

(** [sorted(l, key=key)]: Python's sort is stable and compares keys
    with [<] only; a stable insertion sort returns the same list. *)
Section Sorted.
Context {A : Type} (key : A → string).

Fixpoint insert_sorted (x : A) (l : list A) : list A :=
  match l with
  | [] => [x]
  | y :: l' =>
      if String.ltb (key y) (key x) then y :: insert_sorted x l'
      else x :: y :: l'
  end.

Definition sorted (l : list A) : list A := foldr insert_sorted [] l.
End Sorted.

End PyStr.

(** ** Configuration: [load_config] / [save_config] *)

Module Config.

(** The JSON configuration as the program uses it: the key ["profiles"]
    holds a list of paths when present, ["tsm_path"] a string; the
    remaining keys (window geometry, sash positions) are integers or
    lists of integers. *)
Inductive jvalue :=
| JInt (z : Z)
| JInts (l : list Z)
| JStr (s : string).

Record config := {
  profiles : option (list string);
  cfg_tsm_path : option string;
  others : gmap string jvalue
}.

Record app := {
  app_config : config;
  tsm_path : string
}.

(** [self.config.get("profiles", [])]. *)
Definition get_profiles (c : config) : list string :=
  default [] (profiles c).

(** The list bound to [profiles] when [json.dump] is reached. *)
Definition saved_profiles (a : app) : list string :=
  let ps := get_profiles (app_config a) in
  let ps' :=
    if negb (String.eqb (tsm_path a) "") && negb (bool_decide (tsm_path a ∈ ps))
    then tsm_path a :: ps            (* profiles.insert(0, self.tsm_path) *)
    else ps in
  take 5 ps'.                         (* profiles[:5] *)

(** [save_config]. [mkdir_ok] and [write_ok] tell whether creating the
    folder and writing the file raise; the bare [except: pass] swallows
    either failure. The result is the program state afterwards and the
    configuration written to disk, if any. An [insert] done before a
    later failure stays in the in-memory list, which is shared with
    [self.config]. *)
Definition save_config (mkdir_ok write_ok : bool) (a : app)
  : app * option config :=
  if negb mkdir_ok then (a, None)
  else
    let c := app_config a in
    let c' := {| profiles := Some (saved_profiles a);
                 cfg_tsm_path := Some (tsm_path a);
                 others := others c |} in
    let a' := {| app_config := c'; tsm_path := tsm_path a |} in
    if write_ok then (a', Some c') else (a', None).

End Config.

(** ** Manual id lists: [add_manual_id], [paste_id_list], [run_import] *)

Module ManualIds.

(** What the methods show, in order. *)
Inductive event :=
| LogInvalidId (text : string)          (* "Invalid item ID: ..." *)
| LogAddedToRemove (id : Z)
| LogAddedToImport (id : Z)
| LogPasted (count : nat) (remove_mode : bool)
| CallRemoveSelectedItems
| EntryCleared
| StatusUpdated.

Record state := {
  manual_add_ids : list Z;
  manual_remove_ids : list Z;
  remove_mode : bool;                   (* remove_mode_var *)
  events : list event
}.

Definition emit (e : list event) (st : state) : state :=
  {| manual_add_ids := manual_add_ids st;
     manual_remove_ids := manual_remove_ids st;
     remove_mode := remove_mode st;
     events := events st ++ e |}.

(** [if x not in l: l.append(x)]; the flag tells whether it appended. *)
Definition append_if_absent (x : Z) (l : list Z) : list Z * bool :=
  if bool_decide (x ∈ l) then (l, false) else (l ++ [x], true).

(** The guarded append on the list selected by the mode. *)
Definition note_id (x : Z) (st : state) : state * bool :=
  if remove_mode st then
    let '(l, b) := append_if_absent x (manual_remove_ids st) in
    ({| manual_add_ids := manual_add_ids st;
        manual_remove_ids := l;
        remove_mode := remove_mode st;
        events := events st |}, b)
  else
    let '(l, b) := append_if_absent x (manual_add_ids st) in
    ({| manual_add_ids := l;
        manual_remove_ids := manual_remove_ids st;
        remove_mode := remove_mode st;
        events := events st |}, b).

(** [add_manual_id], given the text of the entry widget. *)
Definition add_manual_id (entry : string) (st : state) : state :=
  let id_text := PyStr.strip entry in
  if remove_mode st && String.eqb id_text "" then
    emit [CallRemoveSelectedItems] st
  else if String.eqb id_text "" then st
  else
    match PyStr.py_int id_text with
    | None => emit [LogInvalidId id_text] st
    | Some item_id =>
        let '(st', appended) := note_id item_id st in
        let logged :=
          if appended then
            [if remove_mode st then LogAddedToRemove item_id
             else LogAddedToImport item_id]
          else [] in
        emit (logged ++ [EntryCleared; StatusUpdated]) st'
    end.

(** The loop body of [paste_id_list] over the pieces. *)
Fixpoint paste_loop (pieces : list string) (st : state) (added : nat)
  : state * nat :=
  match pieces with
  | [] => (st, added)
  | id_str :: rest =>
      let id_str := PyStr.strip id_str in
      if String.eqb id_str "" then paste_loop rest st added
      else
        match PyStr.py_int id_str with
        | None => paste_loop rest st added          (* except ValueError *)
        | Some item_id =>
            let '(st', appended) := note_id item_id st in
            paste_loop rest st' (if appended then S added else added)
        end
  end.

(** [paste_id_list], given what the dialog returned ([None]: cancelled). *)
Definition paste_id_list (input : option string) (st : state) : state :=
  match input with
  | None => st
  | Some input_text =>
      if String.eqb input_text "" then st
      else
        let pieces := PyStr.re_split_ids (PyStr.strip input_text) in
        let '(st', n) := paste_loop pieces st 0 in
        emit [LogPasted n (remove_mode st); StatusUpdated] st'
  end.

(** What [run_import] does to the two lists. The remove list is emptied
    after [writer.remove_items] returned; the add list is emptied after
    [writer.add_items] returned, which is reached only when a target group
    is selected. [remove_ok] and [add_ok] tell whether the writer calls
    return; when one raises, the handler logs and the rest is skipped. *)
Definition run_import_lists (group_selected remove_ok add_ok : bool)
  (st : state) : state :=
  let after_remove :=
    match manual_remove_ids st with
    | [] => Some st
    | _ :: _ =>
        if remove_ok then
          Some {| manual_add_ids := manual_add_ids st;
                  manual_remove_ids := [];
                  remove_mode := remove_mode st;
                  events := events st |}
        else None
    end in
  match after_remove with
  | None => st
  | Some st1 =>
      match manual_add_ids st1 with
      | [] => st1
      | _ :: _ =>
          if negb group_selected then st1
          else if add_ok then
            {| manual_add_ids := [];
               manual_remove_ids := manual_remove_ids st1;
               remove_mode := remove_mode st1;
               events := events st1 |}
          else st1
      end
  end.

Definition set_remove_mode (b : bool) (st : state) : state :=
  {| manual_add_ids := manual_add_ids st;
     manual_remove_ids := manual_remove_ids st;
     remove_mode := b;
     events := events st |}.

(** The state after [__init__]. *)
Definition init : state :=
  {| manual_add_ids := []; manual_remove_ids := [];
     remove_mode := false; events := [] |}.

(** The user actions that reach the two lists. *)
Inductive action :=
| AddManualId (entry : string)
| PasteIdList (input : option string)
| ToggleRemoveMode (b : bool)
| RunImport (group_selected remove_ok add_ok : bool).

Definition step (a : action) (st : state) : state :=
  match a with
  | AddManualId entry => add_manual_id entry st
  | PasteIdList input => paste_id_list input st
  | ToggleRemoveMode b => set_remove_mode b st
  | RunImport g r a => run_import_lists g r a st
  end.

Definition run (acts : list action) (st : state) : state :=
  foldl (fun s a => step a s) st acts.

(** The two lists of a state. *)
Definition lists (st : state) : list Z * list Z :=
  (manual_add_ids st, manual_remove_ids st).

(** Neither list holds an id twice. *)
Definition no_dups (st : state) : Prop :=
  NoDup (manual_add_ids st) ∧ NoDup (manual_remove_ids st).

(** A piece of pasted text that [int] accepts. *)
Definition is_id (piece : string) : Prop :=
  is_Some (PyStr.py_int (PyStr.strip piece)).

(** The list the mode selects, and the other one. *)
Definition target_list (st : state) : list Z :=
  if remove_mode st then manual_remove_ids st else manual_add_ids st.

Definition other_list (st : state) : list Z :=
  if remove_mode st then manual_add_ids st else manual_remove_ids st.

(** Two states with the same lists and the same mode. *)
Definition same_lists (st1 st2 : state) : Prop :=
  lists st1 = lists st2 ∧ remove_mode st1 = remove_mode st2.

(** The pieces [paste_id_list] walks through. *)
Definition pieces_of (input : option string) : list string :=
  match input with
  | None => []
  | Some input_text => PyStr.re_split_ids (PyStr.strip input_text)
  end.

End ManualIds.

(** ** Group paths and the groups panel ([_do_refresh_groups_panel]) *)

Module Groups.

(** [f"{parent}`{name}"]. *)
Definition child_path (parent name : string) : string :=
  parent +:+ PyStr.delim_s +:+ name.

(** [parts[-1] if parts else group_path] with
    [parts = group_path.split('`')]. *)
Definition display_name (group_path : string) : string :=
  PyStr.last_part (PyStr.split PyStr.delim group_path) group_path.

(** The sort key written in the source: [lambda x: x.lower()]. *)
Definition full_key (group_path : string) : string := PyStr.lower group_path.


(** [hierarchy.get(group_path, [])]. *)
Definition children_of (hierarchy : gmap string (list string))
  (group_path : string) : list string :=
  default [] (hierarchy !! group_path).


(** [root_groups = sorted(hierarchy.get('', []), key=lambda x: x.lower())]. *)
Definition root_groups (hierarchy : gmap string (list string)) : list string :=
  PyStr.sorted full_key (children_of hierarchy "").




(** A name that is one segment: it does not contain the delimiter. *)
Fixpoint one_segment (name : string) : bool :=
  match name with
  | EmptyString => true
  | String c s => negb (Ascii.eqb c PyStr.delim) && one_segment s
  end.


(** The new path built by [rename_group_dialog]. *)
Definition renamed_path (group_path new_name : string) : string :=
  let parts := PyStr.split PyStr.delim group_path in
  if (1 <? length parts)%nat
  then PyStr.join PyStr.delim_s (PyStr.but_last parts)
         +:+ PyStr.delim_s +:+ new_name
  else new_name.

(** [rename_group_dialog] up to the call of the writer: the arguments of
    [writer.rename_group], or [None] when the dialog returns early.
    [input] is what [get_input] gave ([None]: cancelled). *)
Definition rename_group_dialog (group_path : string) (input : option string)
  : option (string * string) :=
  match input with
  | None => None
  | Some new_name =>
      if String.eqb new_name "" || String.eqb new_name (display_name group_path)
      then None
      else Some (group_path, renamed_path group_path new_name)
  end.

(** [add_subgroup_dialog] up to the call of the writer: the path handed
    to [writer.add_groups]. *)
Definition add_subgroup_dialog (parent_path : string) (input : option string)
  : option string :=
  match input with
  | None => None
  | Some new_name =>
      if String.eqb new_name "" then None
      else Some (child_path parent_path new_name)
  end.

End Groups.

(** ** The saved-variables file, its reader and its writer

    [tsm_scraper/lua_parser.py] and [tsm_scraper/lua_writer.py] are not
    part of the sources at hand; this module follows the written design of
    the two classes. *)

Module Lua.

(** Modelled from the spec: the two item-key variants of the item-key
    codec (the codec itself is in the missing [lua_parser.py]); a text in
    the place of a key that matches neither pattern is kept as it is. *)
Inductive variant := Classic | Retail.

(** Modelled from the spec: an item key of the file, of the missing
    codec: a numeric id in one of the two variants, or a text that is no
    item key. *)
Inductive item_key :=
| Key (v : variant) (id : Z)
| NotAKey (raw : string).

#[global] Instance variant_eq_dec : EqDecision variant.
Proof. solve_decision. Defined.

#[global] Instance item_key_eq_dec : EqDecision item_key.
Proof. solve_decision. Defined.

(** Modelled from the spec: [encode(id, variant)] of the missing codec. *)
Definition encode (id : Z) (v : variant) : item_key := Key v id.

(** Modelled from the spec: [decode(key text)] of the missing codec; no
    match is [None]. *)
Definition decode (k : item_key) : option (Z * variant) :=
  match k with
  | Key v id => Some (id, v)
  | NotAKey _ => None
  end.

(** Modelled from the spec: [get_item_id] of the missing parser, which
    delegates to the codec. *)
Definition get_item_id (k : item_key) : option Z := fst <$> decode k.

(** Modelled from the spec: one entry of the groups section of the file
    (the file format is read by the missing [lua_parser.py]): the group
    path that is its key and its member listing, in file order. *)
Record group_entry := {
  g_path : string;
  g_members : list item_key
}.

#[global] Instance group_entry_eq_dec : EqDecision group_entry.
Proof. solve_decision. Defined.

(** Modelled from the spec: the file as the reader sees it (the reader is
    the missing [lua_parser.py]): the groups section in file order, the
    item records that belong to no group, and the unrelated content,
    which is passed through unmodified. Two files are byte-identical when
    these are equal. *)
Record document := {
  doc_groups : list group_entry;
  doc_ungrouped : list item_key;
  doc_other : string
}.

#[global] Instance document_eq_dec : EqDecision document.
Proof. solve_decision. Defined.

(** Modelled from the spec: what a path of the file system holds (the file
    access is in the missing [lua_parser.py]): a file with the items and
    groups structure, or a file in which none is recognizable. A path
    that is not in the map is a missing or unreadable file. *)
Inductive content :=
| Recognized (d : document)
| Unrecognized (raw : string).

#[global] Instance content_eq_dec : EqDecision content.
Proof. solve_decision. Defined.

Abbreviation files := (gmap string content).

(** How a call ends for its caller. *)
Inductive outcome (A : Type) :=
| Returns (a : A)
| Raises (msg : string).
Arguments Returns {A} a.
Arguments Raises {A} msg.

(** Modelled from the spec: [load(path)] of the missing [TSMLuaParser]:
    reads the file, and returns failure, not an exception, when the file
    is unreadable or no items/groups structure is recognizable. The
    document read is kept in the parser object. *)
Definition load (fs : files) (path : string)
  : outcome (bool * option document) :=
  match fs !! path with
  | Some (Recognized d) => Returns (true, Some d)
  | Some (Unrecognized _) => Returns (false, None)
  | None => Returns (false, None)
  end.

(** Modelled from the spec: the document the missing parser holds after
    a [load] that returned success. *)
Definition loaded (fs : files) (path : string) : option document :=
  match load fs path with
  | Returns (true, Some d) => Some d
  | _ => None
  end.

(** Modelled from the spec: [parse_groups()] of the missing parser: every
    distinct group path that is a key of the groups section. *)
Definition parse_groups (d : document) : list string :=
  remove_dups (g_path <$> doc_groups d).

(** Modelled from the spec: all member entries of the file read by the
    missing parser, with the group that lists them, in file order. *)
Definition memberships (d : document) : list (item_key * string) :=
  flat_map (λ g, (λ k, (k, g_path g)) <$> g_members g) (doc_groups d).

(** Modelled from the spec: [parse_items()] of the missing parser: the
    owner of each item key, found by inverting the member listings; the
    first discovered occurrence wins. *)
Definition owner_of (d : document) (k : item_key) : option string :=
  (λ r, r.2.2) <$> list_find (λ m, m.1 = k) (memberships d).

(** Modelled from the spec: the numeric ids of a list of keys, by the
    missing codec; keys that do not decode are skipped. *)
Definition ids_of (ks : list item_key) : list Z :=
  omap get_item_id ks.

(** Modelled from the spec: [get_existing_item_ids()] of the missing
    parser: the set of all numeric ids of the file, each counted once. *)
Definition get_existing_item_ids (d : document) : gset Z :=
  list_to_set (ids_of (flat_map g_members (doc_groups d)
                       ++ doc_ungrouped d)).

(** Modelled from the spec: [get_items_by_group(path)] of the missing
    parser: the direct members only. *)
Definition get_items_by_group (d : document) (path : string)
  : list item_key :=
  flat_map g_members (filter (λ g, g_path g = path) (doc_groups d)).

End Lua.

Module Writer.
Import Lua.

(** Modelled from the spec: the disk writes of a call of the missing
    [TSMLuaWriter], in order. *)
Inductive disk_op :=
| BackupWritten (path : string)
| Replaced (path : string).

(** Modelled from the spec: whether the two disk writes of a commit of
    the missing [TSMLuaWriter] succeed. *)
Record io := {
  backup_ok : bool;
  replace_ok : bool
}.

(** Modelled from the spec: what a call of the missing [TSMLuaWriter]
    leaves behind: the files, the disk writes it made and what the caller
    gets, the counters with the error list or an exception. *)
Record call (C : Type) := {
  files_after : files;
  disk : list disk_op;
  answer : outcome (C * list string)
}.
Arguments files_after {C} _.
Arguments disk {C} _.
Arguments answer {C} _.

(** Modelled from the spec: the name of the backup file written by the
    missing [TSMLuaWriter]: the original name plus a timestamp suffix, in
    the same directory. *)
Definition backup_name (path stamp : string) : string := path +:+ stamp.

(** Modelled from the spec: the COMMITTED step of the missing
    [TSMLuaWriter]: the backup copy of the pre-edit file is written
    first; when that fails the commit aborts before touching the
    original; then the original is replaced atomically, so a failing
    replacement leaves it as it was and propagates as an exception. *)
Definition commit {C} (w : io) (stamp path : string) (fs : files)
  (edited : document) (c zero : C) : call C :=
  match fs !! path with
  | None =>
      {| files_after := fs; disk := [];
         answer := Returns (zero, ["source file is gone"]) |}
  | Some original =>
      if backup_ok w then
        let fs1 := <[backup_name path stamp := original]> fs in
        if replace_ok w then
          {| files_after := <[path := Recognized edited]> fs1;
             disk := [BackupWritten (backup_name path stamp); Replaced path];
             answer := Returns (c, []) |}
        else
          {| files_after := fs1;
             disk := [BackupWritten (backup_name path stamp)];
             answer := Raises "could not write the file" |}
      else
        {| files_after := fs; disk := [];
           answer := Returns (zero, ["could not write the backup"]) |}
  end.

Section Engine.

(** Modelled from the spec: the check of the VALIDATED step of the
    missing [TSMLuaWriter] (balanced structural delimiters around the
    edited spans), given the text before and after the edit. *)
Variable validate : document → document → bool.

(** Modelled from the spec: the state sequence every mutating call of the
    missing [TSMLuaWriter] follows: a fresh load, the edit computed in
    memory by [plan], nothing written on a dry run, validation, commit. *)
Definition transact {C} (zero : C) (plan : document → document * C)
  (dry_run : bool) (w : io) (stamp path : string) (fs : files) : call C :=
  match loaded fs path with
  | None =>
      {| files_after := fs; disk := [];
         answer := Returns (zero, ["could not load the file"]) |}
  | Some d =>
      let '(edited, c) := plan d in
      if dry_run then
        {| files_after := fs; disk := []; answer := Returns (c, []) |}
      else if validate d edited then commit w stamp path fs edited c zero
      else
        {| files_after := fs; disk := [];
           answer := Returns (zero, ["edit failed validation"]) |}
  end.

End Engine.

(** Modelled from the spec: a splice of the missing [TSMLuaWriter] that
    touches the groups section only. *)
Definition with_groups (d : document) (gs : list group_entry) : document :=
  {| doc_groups := gs;
     doc_ungrouped := doc_ungrouped d;
     doc_other := doc_other d |}.

(** *** add_items *)

(** Modelled from the spec: the counters of [add_items] and [add_groups]
    of the missing [TSMLuaWriter]. *)
Record add_counts := { added : nat; skipped : nat }.

(** Modelled from the spec: the format variant the missing
    [TSMLuaWriter] detects in the file: that of the first key that
    decodes; retail when there is none. *)
Definition detect_variant (d : document) : variant :=
  default Retail
    (head (omap (λ k, snd <$> decode k)
                (flat_map g_members (doc_groups d) ++ doc_ungrouped d))).

(** Modelled from the spec: the insertion of [add_items] of the missing
    [TSMLuaWriter]: [k] goes to the end of the member listing of
    [target]; a missing group is created at the end of the groups
    section. *)
Fixpoint add_to_group (k : item_key) (target : string)
  (gs : list group_entry) : list group_entry :=
  match gs with
  | [] => [{| g_path := target; g_members := [k] |}]
  | g :: gs' =>
      if String.eqb (g_path g) target
      then {| g_path := g_path g; g_members := g_members g ++ [k] |} :: gs'
      else g :: add_to_group k target gs'
  end.

(** Modelled from the spec: [add_items] of the missing [TSMLuaWriter] for
    one id: an id already present is skipped and counted. *)
Definition add_item_step (v : variant) (acc : document * add_counts)
  (it : Z * string) : document * add_counts :=
  let '(d, c) := acc in
  if bool_decide (it.1 ∈ get_existing_item_ids d)
  then (d, {| added := added c; skipped := S (skipped c) |})
  else (with_groups d (add_to_group (encode it.1 v) it.2 (doc_groups d)),
        {| added := S (added c); skipped := skipped c |}).

(** Modelled from the spec: the edit of [add_items] of the missing
    [TSMLuaWriter]. *)
Definition plan_add_items (items : list (Z * string)) (d : document)
  : document * add_counts :=
  foldl (add_item_step (detect_variant d))
        (d, {| added := 0; skipped := 0 |}) items.

(** *** remove_items *)

(** Modelled from the spec: the counters of [remove_items] of the missing
    [TSMLuaWriter]. *)
Record remove_counts := { removed : nat; not_found : nat }.

(** Modelled from the spec: the search of [remove_items] of the missing
    [TSMLuaWriter]: the key is one of the two keys of [id]. *)
Definition is_key_of (id : Z) (k : item_key) : bool :=
  bool_decide (get_item_id k = Some id).

(** Modelled from the spec: the id is found in some member listing (the
    search of the missing [TSMLuaWriter]). *)
Definition listed (id : Z) (d : document) : bool :=
  existsb (is_key_of id) (flat_map g_members (doc_groups d)).

(** Modelled from the spec: every entry of [id] deleted from one member
    listing (the deletion of the missing [TSMLuaWriter]). *)
Definition drop_id (id : Z) (g : group_entry) : group_entry :=
  {| g_path := g_path g;
     g_members := List.filter (λ k, negb (is_key_of id k)) (g_members g) |}.

(** Modelled from the spec: [remove_items] of the missing [TSMLuaWriter]
    for one id. *)
Definition remove_item_step (acc : document * remove_counts) (id : Z)
  : document * remove_counts :=
  let '(d, c) := acc in
  if listed id d
  then (with_groups d (drop_id id <$> doc_groups d),
        {| removed := S (removed c); not_found := not_found c |})
  else (d, {| removed := removed c; not_found := S (not_found c) |}).

(** Modelled from the spec: the edit of [remove_items] of the missing
    [TSMLuaWriter]: both key variants of an id are searched in all member
    listings, every occurrence is deleted and counted once per id; an id
    that matches no entry increments [not_found]. *)
Definition plan_remove_items (ids : list Z) (d : document)
  : document * remove_counts :=
  foldl remove_item_step (d, {| removed := 0; not_found := 0 |}) ids.

(** *** add_groups *)

(** Modelled from the spec: the path is present in the file (the test of
    [add_groups] of the missing [TSMLuaWriter]). *)
Definition has_group (p : string) (d : document) : bool :=
  bool_decide (p ∈ parse_groups d).

(** Modelled from the spec: [add_groups] of the missing [TSMLuaWriter]
    for one path. *)
Definition add_group_step (acc : document * add_counts) (p : string)
  : document * add_counts :=
  let '(d, c) := acc in
  if has_group p d
  then (d, {| added := added c; skipped := S (skipped c) |})
  else (with_groups d (doc_groups d ++ [{| g_path := p; g_members := [] |}]),
        {| added := S (added c); skipped := skipped c |}).

(** Modelled from the spec: the edit of [add_groups] of the missing
    [TSMLuaWriter]: exactly the given paths are created, at the end of
    the groups section; a path already present is skipped. *)
Definition plan_add_groups (paths : list string) (d : document)
  : document * add_counts :=
  foldl add_group_step (d, {| added := 0; skipped := 0 |}) paths.

(** *** rename_group and delete_group *)

(** Modelled from the spec: the counters of [rename_group] of the missing
    [TSMLuaWriter]. *)
Record rename_counts := { groups_updated : nat; items_updated : nat }.

(** Modelled from the spec: the counters of [delete_group] of the missing
    [TSMLuaWriter]. *)
Record delete_counts := { subgroups_removed : nat; items_removed : nat }.

(** [s[n:]]. *)
Fixpoint string_drop (n : nat) (s : string) : string :=
  match n, s with
  | O, _ => s
  | S n', String _ s' => string_drop n' s'
  | S _, EmptyString => EmptyString
  end.

(** Modelled from the spec: the descendant test of the missing
    [TSMLuaWriter]: [p] lies strictly below [old], it starts with [old]
    followed by the delimiter. *)
Definition below (old p : string) : bool :=
  String.prefix (old +:+ PyStr.delim_s) p.

(** Modelled from the spec: the entries [rename_group] and
    [delete_group] of the missing [TSMLuaWriter] collect: [p] is [old] or
    lies below it. *)
Definition within (old p : string) : bool :=
  String.eqb p old || below old p.

(** Modelled from the spec: the rewrite of the missing [TSMLuaWriter]:
    the prefix [old] of [p] replaced by [new]. *)
Definition moved (old new p : string) : string :=
  new +:+ string_drop (String.length old) p.

(** Modelled from the spec: [rename_group] of the missing
    [TSMLuaWriter] on one group entry. *)
Definition rename_entry (old new : string) (g : group_entry) : group_entry :=
  if within old (g_path g)
  then {| g_path := moved old new (g_path g); g_members := g_members g |}
  else g.

(** Modelled from the spec: the edit of [rename_group] of the missing
    [TSMLuaWriter]: the group's own entry and every entry below it get
    the prefix replaced; everything else stays. *)
Definition plan_rename_group (old new : string) (d : document)
  : document * rename_counts :=
  let hit := List.filter (λ g, within old (g_path g)) (doc_groups d) in
  (with_groups d (rename_entry old new <$> doc_groups d),
   {| groups_updated := length hit;
      items_updated := length (flat_map g_members hit) |}).

(** Modelled from the spec: the edit of [delete_group] of the missing
    [TSMLuaWriter]: the entries of the group and of everything below it
    are removed; their items are removed with them, or kept as item
    records that belong to no group. *)
Definition plan_delete_group (path : string) (delete_items : bool)
  (d : document) : document * delete_counts :=
  let hit := List.filter (λ g, within path (g_path g)) (doc_groups d) in
  let kept := List.filter (λ g, negb (within path (g_path g))) (doc_groups d) in
  let items := flat_map g_members hit in
  ({| doc_groups := kept;
      doc_ungrouped :=
        if delete_items then doc_ungrouped d else doc_ungrouped d ++ items;
      doc_other := doc_other d |},
   {| subgroups_removed :=
        length (List.filter (λ g, below path (g_path g)) hit);
      items_removed := if delete_items then length items else 0%nat |}).

Section Operations.
Variable validate : document → document → bool.

Definition no_adds : add_counts := {| added := 0; skipped := 0 |}.

(** Modelled from the spec: the five mutating operations of the missing
    [TSMLuaWriter], each a transaction around its edit. *)
Definition add_items (items : list (Z * string)) (dry_run : bool) :=
  transact validate no_adds (plan_add_items items) dry_run.

Definition remove_items (ids : list Z) (dry_run : bool) :=
  transact validate {| removed := 0; not_found := 0 |}
           (plan_remove_items ids) dry_run.

Definition add_groups (paths : list string) (dry_run : bool) :=
  transact validate no_adds (plan_add_groups paths) dry_run.

Definition rename_group (old_path new_path : string) :=
  transact validate {| groups_updated := 0; items_updated := 0 |}
           (plan_rename_group old_path new_path) false.

Definition delete_group (path : string) (delete_items : bool) :=
  transact validate {| subgroups_removed := 0; items_removed := 0 |}
           (plan_delete_group path delete_items) false.

(** The five mutating operations as one request type. *)
Inductive request :=
| AddItems (items : list (Z * string)) (dry_run : bool)
| RemoveItems (ids : list Z) (dry_run : bool)
| AddGroups (paths : list string) (dry_run : bool)
| RenameGroup (old_path new_path : string)
| DeleteGroup (path : string) (delete_items : bool).

Definition is_dry (r : request) : bool :=
  match r with
  | AddItems _ b | RemoveItems _ b | AddGroups _ b => b
  | RenameGroup _ _ | DeleteGroup _ _ => false
  end.

(** The text a request computes from the loaded document. *)
Definition edited_text (r : request) (d : document) : document :=
  match r with
  | AddItems items _ => (plan_add_items items d).1
  | RemoveItems ids _ => (plan_remove_items ids d).1
  | AddGroups paths _ => (plan_add_groups paths d).1
  | RenameGroup o n => (plan_rename_group o n d).1
  | DeleteGroup p b => (plan_delete_group p b d).1
  end.

(** The files and the disk writes a request leaves, and whether the call
    raised. *)
Definition perform (r : request) (w : io) (stamp path : string) (fs : files)
  : files * list disk_op * bool :=
  let pack {C} (c : call C) :=
    (files_after c, disk c,
     match answer c with Raises _ => true | Returns _ => false end) in
  match r with
  | AddItems items b => pack (add_items items b w stamp path fs)
  | RemoveItems ids b => pack (remove_items ids b w stamp path fs)
  | AddGroups paths b => pack (add_groups paths b w stamp path fs)
  | RenameGroup o n => pack (rename_group o n w stamp path fs)
  | DeleteGroup p b => pack (delete_group p b w stamp path fs)
  end.

(** The call is a dry run, or its edit passes validation and both disk
    writes succeed. *)
Definition goes_through (w : io) (dry_run : bool) (before after : document)
  : Prop :=
  dry_run = false →
  validate before after = true ∧ backup_ok w = true ∧ replace_ok w = true.

(** The error list of a call, empty when it raised. *)
Definition errors_of {C} (c : call C) : list string :=
  match answer c with
  | Returns (_, errs) => errs
  | Raises _ => []
  end.

(** The counters of a call that returned. *)
Definition counts_of {C} (c : call C) : option C :=
  match answer c with
  | Returns (n, _) => Some n
  | Raises _ => None
  end.

End Operations.

End Writer.

(** ** The read paths of the front end *)

Module App.
Import Lua.

Inductive level := Info | Success | Warning | Error | Cyan.

(** What a method does that can be observed: the calls on the parser
    object and what is shown to the user. Texts that are formatted with
    counts or names are shortened to their fixed part. *)
Inductive event :=
| NewParser                              (* TSMLuaParser(self.tsm_path) *)
| LoadCalled (ok : bool)                 (* parser.load() and its result *)
| ParseItemsCalled                       (* parser.parse_items() *)
| ParseGroupsCalled                      (* parser.parse_groups() *)
| InfoLabel (text : string) (lv : level) (* self.tsm_info.configure(...) *)
| Logged (text : string) (lv : level)    (* self.log(...) *)
| PanelCleared                           (* widgets of the panel destroyed *)
| PanelLabel (text : string) (lv : level)(* a label packed into the panel *)
| PanelRows (roots : list string)        (* the group buttons, from the roots *)
| GroupsCount (n : nat)                  (* groups_count_label *)
| RefreshScheduled                       (* self.refresh_groups_panel() *)
| ResultsShown                           (* update_results_with_checkboxes *)
| Summary (found new : nat)              (* results_summary *)
| ImportEnabled
| AutoSelectScheduled
| ScrapeEnabled.                         (* the finally clause *)

(** One entry of [self.scrape_results]. *)
Record scrape_record := {
  tsm_group : string;
  found : nat;
  new_ids : list Z
}.

(** The part of [self] the read paths use, and the disk. *)
Record world := {
  fs : files;
  tsm_path : string;
  existing_ids : gset Z;
  existing_groups : gset string;
  current_parser : option document;
  scrape_results : gmap string scrape_record
}.

(** A method: it returns a value, leaves a world and emits events. *)
Definition M (A : Type) : Type := world → A * world * list event.

#[global] Instance M_ret : MRet M := λ A a w, (a, w, []).
#[global] Instance M_bind : MBind M := λ A B f m w,
  let '(a, w1, t1) := m w in
  let '(b, w2, t2) := f a w1 in
  (b, w2, t1 ++ t2).

Definition emit (e : event) : M unit := λ w, (tt, w, [e]).

Definition set_existing_ids (ids : gset Z) : M unit := λ w,
  (tt, {| fs := fs w; tsm_path := tsm_path w; existing_ids := ids;
          existing_groups := existing_groups w;
          current_parser := current_parser w;
          scrape_results := scrape_results w |}, []).

Definition set_existing_groups (gs : gset string) : M unit := λ w,
  (tt, {| fs := fs w; tsm_path := tsm_path w; existing_ids := existing_ids w;
          existing_groups := gs;
          current_parser := current_parser w;
          scrape_results := scrape_results w |}, []).

Definition set_current_parser (d : document) : M unit := λ w,
  (tt, {| fs := fs w; tsm_path := tsm_path w; existing_ids := existing_ids w;
          existing_groups := existing_groups w;
          current_parser := Some d;
          scrape_results := scrape_results w |}, []).

Definition record_scrape (cat : string) (r : scrape_record) : M unit := λ w,
  (tt, {| fs := fs w; tsm_path := tsm_path w; existing_ids := existing_ids w;
          existing_groups := existing_groups w;
          current_parser := current_parser w;
          scrape_results := <[cat := r]> (scrape_results w) |}, []).

Definition get_existing_ids : M (gset Z) := λ w, (existing_ids w, w, []).

(** [parser = TSMLuaParser(self.tsm_path); parser.load()]: the document
    held by the parser when [load] returned success, [None] when it
    returned failure. *)
Definition parser_load : M (outcome (option document)) := λ w,
  match Lua.load (fs w) (tsm_path w) with
  | Returns (ok, d) =>
      (Returns (if ok then d else None), w, [NewParser; LoadCalled ok])
  | Raises msg => (Raises msg, w, [NewParser])
  end.

Definition parse_items_call : M unit := emit ParseItemsCalled.
Definition parse_groups_call : M unit := emit ParseGroupsCalled.

(** [load_tsm_info]. *)
Definition load_tsm_info : M unit :=
  r ← parser_load;
  match r with
  | Returns (Some d) =>
      parse_items_call;;
      parse_groups_call;;
      set_existing_ids (get_existing_item_ids d);;
      set_existing_groups (list_to_set (parse_groups d));;
      emit (InfoLabel "items and groups" Success);;
      emit (Logged "Loaded" Success);;
      emit RefreshScheduled
  | Returns None =>
      emit (InfoLabel "Could not load file" Error);;
      emit (Logged "Failed to load TSM file" Error)
  | Raises msg =>
      emit (InfoLabel "Error" Error);;
      emit (Logged msg Error)
  end.

(** [get_user_groups_list]; the plain [sorted] orders by the paths
    themselves. *)
Definition get_user_groups_list : M (list string) :=
  r ← parser_load;
  match r with
  | Returns (Some d) =>
      parse_groups_call;;
      mret (PyStr.sorted id (parse_groups d))
  | Returns None => mret []
  | Raises _ => mret []
  end.

Section WithCollaborators.

(** [parser.get_group_hierarchy()], of the missing parser: the children
    of every parent path. *)
Variable get_group_hierarchy : document → gmap string (list string).

(** [_do_refresh_groups_panel]; of what it draws, the roots it starts
    from and the group count are recorded. *)
Definition _do_refresh_groups_panel : M unit :=
  emit PanelCleared;;
  r ← parser_load;
  match r with
  | Returns None => emit (PanelLabel "Load TSM file first" Info)
  | Returns (Some d) =>
      parse_items_call;;
      parse_groups_call;;
      set_current_parser d;;
      emit (PanelRows (Groups.root_groups (get_group_hierarchy d)));;
      emit (GroupsCount (length (parse_groups d)))
  | Raises msg => emit (PanelLabel msg Error)
  end.

(** The table [self.scraper.ALL_CATEGORIES] of the scraper: category
    type, subclass and default group of a category name. *)
Variable ALL_CATEGORIES : gmap string (string * option Z * string).

(** What scraping one category gives: the item ids found, no class for
    the category type (the loop continues), or an exception. *)
Inductive scrape_answer :=
| Ids (item_ids : list Z)
| NoClass
| ScrapeRaised (msg : string).

(** The scraper: [scrape_by_name] or [scrape_item_ids_from_page]. *)
Variable scrape : string → string * option Z * string → scrape_answer.

(** [[i for i in item_ids if i not in self.existing_ids]]. *)
Definition not_existing (existing : gset Z) (item_ids : list Z) : list Z :=
  filter (λ i, i ∉ existing) item_ids.

(** The loop of [run_scrape] over the categories; the result is the
    totals, or the message of the exception that ended it. *)
Fixpoint scrape_loop (categories : list string) (total_found total_new : nat)
  : M (outcome (nat * nat)) :=
  match categories with
  | [] => mret (Returns (total_found, total_new))
  | cat_name :: rest =>
      match ALL_CATEGORIES !! cat_name with
      | None => scrape_loop rest total_found total_new
      | Some cat_info =>
          emit (Logged cat_name Cyan);;
          match scrape cat_name cat_info with
          | ScrapeRaised msg => mret (Raises msg)
          | NoClass => scrape_loop rest total_found total_new
          | Ids item_ids =>
              existing ← get_existing_ids;
              let fresh := not_existing existing item_ids in
              record_scrape cat_name
                {| tsm_group := cat_info.2;
                   found := length item_ids;
                   new_ids := fresh |};;
              scrape_loop rest (total_found + length item_ids)%nat
                          (total_new + length fresh)%nat
          end
      end
  end.

(** The entry [run_scrape] records for a category whose scrape gave
    [item_ids], given the set of existing ids. *)
Definition recorded (existing : gset Z) (cat_info : string * option Z * string)
  (item_ids : list Z) : scrape_record :=
  {| tsm_group := cat_info.2;
     found := length item_ids;
     new_ids := not_existing existing item_ids |}.

(** The entry of [cat] was written for a scrape of [cat] against
    [existing]. *)
Definition written_for (existing : gset Z) (categories : list string)
  (cat : string) (r : scrape_record) : Prop :=
  ∃ info ids, cat ∈ categories ∧ ALL_CATEGORIES !! cat = Some info ∧
              scrape cat info = Ids ids ∧ r = recorded existing info ids.

(** The first lines of [run_scrape]: "Refresh existing IDs". *)
Definition refresh_existing_ids : M (outcome unit) :=
  r ← parser_load;
  match r with
  | Returns (Some d) =>
      parse_items_call;;
      set_existing_ids (get_existing_item_ids d);;
      mret (Returns tt)
  | Returns None => mret (Returns tt)
  | Raises msg => mret (Raises msg)
  end.

(** [run_scrape] after its first lines: the loop and the report. *)
Definition scrape_and_report (categories : list string) : M unit :=
  t ← scrape_loop categories 0 0;
  match t with
  | Raises msg => emit (Logged msg Error)
  | Returns (total_found, total_new) =>
      emit ResultsShown;;
      emit (Logged "Complete" Success);;
      emit (Summary total_found total_new);;
      (if (0 <? total_new)%nat then emit ImportEnabled else mret tt);;
      emit AutoSelectScheduled
  end.

(** [run_scrape]. *)
Definition run_scrape (categories : list string) : M unit :=
  r ← refresh_existing_ids;
  match r with
  | Raises msg => emit (Logged msg Error)
  | Returns _ => scrape_and_report categories
  end;;
  emit ScrapeEnabled.

(** The read paths as calls. *)
Inductive read_call :=
| LoadTsmInfo
| DoRefreshGroupsPanel
| GetUserGroupsList
| RefreshExistingIds
| RunScrape (categories : list string).

Definition read (c : read_call) : M unit :=
  match c with
  | LoadTsmInfo => load_tsm_info
  | DoRefreshGroupsPanel => _do_refresh_groups_panel
  | GetUserGroupsList => get_user_groups_list;; mret tt
  | RefreshExistingIds => refresh_existing_ids;; mret tt
  | RunScrape categories => run_scrape categories
  end.


End WithCollaborators.

(** The world and the events after a method. *)
Definition world_after {A} (m : M A) (w : world) : world := (m w).1.2.
Definition events_of {A} (m : M A) (w : world) : list event := (m w).2.
Definition value_of {A} (m : M A) (w : world) : A := (m w).1.1.

(** The method leaves the disk and the path of the target file alone. *)
Definition keeps_files {A} (m : M A) : Prop :=
  ∀ w, fs (world_after m w) = fs w ∧ tsm_path (world_after m w) = tsm_path w.

(** The method writes neither the disk nor [self.existing_ids]. *)
Definition keeps_ids {A} (m : M A) : Prop :=
  ∀ w, existing_ids (world_after m w) = existing_ids w.

(** The parse calls of a trace follow a [load] of the same parser object
    that returned success: [ok] tells whether the current parser object
    is loaded. *)
Fixpoint guarded (ok : bool) (t : list event) : bool :=
  match t with
  | [] => true
  | NewParser :: t' => guarded false t'
  | LoadCalled b :: t' => guarded b t'
  | ParseItemsCalled :: t' => ok && guarded ok t'
  | ParseGroupsCalled :: t' => ok && guarded ok t'
  | _ :: t' => guarded ok t'
  end.

(** An event that is no call on the parser. *)
Definition quiet (e : event) : bool :=
  match e with
  | NewParser | LoadCalled _ | ParseItemsCalled | ParseGroupsCalled => false
  | _ => true
  end.

Definition is_parse (e : event) : bool :=
  match e with
  | ParseItemsCalled | ParseGroupsCalled => true
  | _ => false
  end.

(** The event tells the user that something went wrong: an error in the
    log or in the info label, or a label in the panel. *)
Definition is_notice (e : event) : bool :=
  match e with
  | Logged _ Error | InfoLabel _ Error | PanelLabel _ _ => true
  | _ => false
  end.

End App.


(** ** Profiles: [load_config], [get_profile_names],
    [get_profile_path_by_name], [remove_current_profile] *)

Module Profiles.
Import Config.

Definition DEFAULT_TSM_PATH : string :=
  "C:\Ascension Launcher\resources\client\WTF\Account\ACCOUNTNAME\SavedVariables\TradeSkillMaster.lua".

(** [{}]. *)
Definition empty_config : config :=
  {| profiles := None; cfg_tsm_path := None; others := ∅ |}.

(** [load_config], given what the configuration file holds ([None]: the
    file is missing or reading it raises, which the bare [except] turns
    into the empty configuration). An old configuration without
    ["profiles"] gets the list that holds its ["tsm_path"]. *)
Definition load_config (file : option config) : config :=
  match file with
  | None => empty_config
  | Some c =>
      match profiles c, cfg_tsm_path c with
      | None, Some p =>
          {| profiles := Some [p];
             cfg_tsm_path := cfg_tsm_path c;
             others := others c |}
      | _, _ => c
      end
  end.

(** The first lines of [__init__]:
    [self.config = self.load_config();
     self.tsm_path = self.config.get("tsm_path", DEFAULT_TSM_PATH)]. *)
Definition init_app (file : option config) : app :=
  {| app_config := load_config file;
     tsm_path := default DEFAULT_TSM_PATH (cfg_tsm_path (load_config file)) |}.

(** The list both profile look-ups walk:
    [profiles = self.config.get("profiles", []);
     if self.tsm_path and self.tsm_path not in profiles:
         profiles = [self.tsm_path] + profiles]. *)
Definition candidates (a : app) : list string :=
  let ps := get_profiles (app_config a) in
  if negb (String.eqb (tsm_path a) "") && negb (bool_decide (tsm_path a ∈ ps))
  then tsm_path a :: ps
  else ps.

Section WithNames.

(** [Path(p).name]: the last component of a path, by the rules of the
    platform. *)
Variable name_of : string → string.

(** [get_profile_names]. *)
Definition get_profile_names (a : app) : list string :=
  let names := name_of <$> take 5 (candidates a) in
  match names with
  | [] => ["Select profile..."]
  | _ :: _ => names
  end.



(** [list.remove(x)] for an [x] that is in the list: the first
    occurrence goes. *)
Fixpoint remove_first (x : string) (l : list string) : list string :=
  match l with
  | [] => []
  | y :: l' => if String.eqb y x then l' else y :: remove_first x l'
  end.


(** What [remove_current_profile] did. *)
Inductive removal :=
| OnlyProfile                     (* "Cannot remove the only profile" *)
| NotListed                       (* the current path is not in the list *)
| Removed (path : string) (written : option config).


End WithNames.

End Profiles.

(** ** The theme editor: [is_valid_hex] *)

Module Hex.

Definition hex_digit_of (c : ascii) : option Z :=
  let n := PyStr.code c in
  if (48 <=? n) && (n <=? 57) then Some (n - 48)
  else if (97 <=? n) && (n <=? 102) then Some (n - 87)
  else if (65 <=? n) && (n <=? 70) then Some (n - 55)
  else None.

(** The digit part of [int(s, 16)]: at least one digit, single
    underscores between digits only. *)
Fixpoint hex_digits (s : string) (acc : Z) (after_digit : bool) : option Z :=
  match s with
  | EmptyString => if after_digit then Some acc else None
  | String c s' =>
      match hex_digit_of c with
      | Some d => hex_digits s' (16 * acc + d) true
      | None =>
          if Ascii.eqb c "_"%char && after_digit
          then hex_digits s' acc false
          else None
      end
  end.

(** After the sign: the prefix [0x] or [0X] is skipped, and one
    underscore after it. *)
Definition skip_prefix (s : string) : string :=
  match s with
  | String "0"%char (String x r) =>
      if Ascii.eqb x "x"%char || Ascii.eqb x "X"%char then
        match r with
        | String "_"%char r' => r'
        | _ => r
        end
      else s
  | _ => s
  end.

(** [int(s, 16)]: [None] stands for [ValueError]. *)
Definition py_int16 (s : string) : option Z :=
  match PyStr.strip s with
  | String "+"%char r => hex_digits (skip_prefix r) 0 false
  | String "-"%char r => Z.opp <$> hex_digits (skip_prefix r) 0 false
  | t => hex_digits (skip_prefix t) 0 false
  end.

(** [value[1:]]. *)
Definition tail (value : string) : string :=
  match value with
  | EmptyString => EmptyString
  | String _ r => r
  end.

(** [value.startswith('#')]. *)
Definition starts_with_hash (value : string) : bool :=
  match value with
  | String "#"%char _ => true
  | _ => false
  end.

(** [is_valid_hex]. *)
Definition is_valid_hex (value : string) : bool :=
  if negb (starts_with_hash value) then false
  else if negb ((String.length value =? 4)%nat || (String.length value =? 7)%nat)
  then false
  else match py_int16 (tail value) with
       | Some _ => true
       | None => false
       end.

(** A text made of hexadecimal digits only. *)
Fixpoint all_hex (s : string) : bool :=
  match s with
  | EmptyString => true
  | String c s' =>
      match hex_digit_of c with
      | Some _ => all_hex s'
      | None => false
      end
  end.

End Hex.

(** ** The window: [restore_window_position] *)

Module Window.

(** The argument of [self.geometry]: the size alone, or the size and
    the position. *)
Inductive geometry :=
| Size (width height : Z)
| SizeAt (width height x y : Z).

(** [restore_window_position], for a configuration whose window values
    are integers as [save_window_position] writes them; [x] and [y] are
    [None] when the key is missing. *)
Definition restore_window_position (x y : option Z)
  (width height screen_width screen_height : Z) : geometry :=
  match x, y with
  | Some x, Some y =>
      if (x <? screen_width - 100) && (y <? screen_height - 100)
         && (- width + 100 <? x) && (- height + 100 <? y)
      then SizeAt width height x y
      else Size width height
  | _, _ => Size width height
  end.

(** The part of [[lo, lo + len)] that lies in [[0, screen)]. *)
Definition visible (lo len screen : Z) : Z :=
  Z.min screen (lo + len) - Z.max 0 lo.

End Window.

(** ** The groups panel: expanding, selecting, moving, removing items *)

Module Panel.

(** [toggle_group_expand], on [self.group_expand_state]. *)
Definition toggle_group_expand (group_path : string) (st : gmap string bool)
  : gmap string bool :=
  <[group_path := negb (default false (st !! group_path))]> st.

(** What the panel reads: [self.group_expand_state.get(group_path, False)]. *)
Definition is_expanded (st : gmap string bool) (group_path : string) : bool :=
  default false (st !! group_path).

(** [toggle_group_selection_multi], on [self.selected_groups]; the
    number is the one it logs. *)
Definition toggle_group_selection_multi (group_path : string)
  (selected : gset string) : gset string * nat :=
  let selected' :=
    if bool_decide (group_path ∈ selected)
    then selected ∖ {[group_path]}
    else selected ∪ {[group_path]} in
  (selected', size selected').

(** What [move_group_dialog] does after the dialog. *)
Inductive move :=
| MoveCancelled
| AlreadyThere                       (* "Group is already in that location" *)
| MoveTo (old_path new_path : string).  (* writer.rename_group(old, new) *)

(** [move_group_dialog] up to the call of the writer; [input] is what
    [get_input] gave ([None]: cancelled). *)
Definition move_group_dialog (group_path : string) (input : option string)
  : move :=
  match input with
  | None => MoveCancelled
  | Some new_parent =>
      let new_parent := PyStr.strip new_parent in
      let group_name := Groups.display_name group_path in
      let new_path :=
        if String.eqb new_parent "" then group_name
        else Groups.child_path new_parent group_name in
      if String.eqb new_path group_path then AlreadyThere
      else MoveTo group_path new_path
  end.

(** [g.rsplit('`', 1)[0]] when the delimiter is in [g]: the text before
    its last occurrence; [None] when it is not. *)
Fixpoint rsplit_head (g : string) : option string :=
  match g with
  | EmptyString => None
  | String c g' =>
      match rsplit_head g' with
      | Some h => Some (String c h)
      | None => if Ascii.eqb c PyStr.delim then Some EmptyString else None
      end
  end.

(** [g.rsplit('`', 1)[0] if '`' in g else '']. *)
Definition parent_of (g : string) : string := default "" (rsplit_head g).

(** The key of an item check box: [f"{group_path}|{item_key}"]. *)
Definition checkbox_key (group_path item_key : string) : string :=
  group_path +:+ String "|"%char item_key.

(** [key.split('|', 1)] when it gives two parts; [None] when there is no
    bar, where the unpacking raises. *)
Fixpoint split_once (key : string) : option (string * string) :=
  match key with
  | EmptyString => None
  | String c key' =>
      if Ascii.eqb c "|"%char then Some (EmptyString, key')
      else match split_once key' with
           | Some (a, b) => Some (String c a, b)
           | None => None
           end
  end.

(** The text holds no bar. *)
Fixpoint no_bar (s : string) : bool :=
  match s with
  | EmptyString => true
  | String c s' => negb (Ascii.eqb c "|"%char) && no_bar s'
  end.

(** The check boxes [_do_refresh_groups_panel] creates for the shown
    items, given group, item key and whether the box is checked. *)
Definition boxes_of (shown : list (string * string * bool))
  : list (string * bool) :=
  (λ t : string * string * bool, (checkbox_key t.1.1 t.1.2, t.2)) <$> shown.

(** Group and item key of the checked boxes, in the order of the boxes. *)
Definition checked_items (shown : list (string * string * bool))
  : list (string * string) :=
  omap (λ t : string * string * bool, if t.2 then Some t.1 else None) shown.

(** The entries of [items_to_remove] as pairs of group and item key. *)
Definition pairs_of (acc : list (string * list string))
  : list (string * string) :=
  flat_map (λ gk : string * list string, (λ k, (gk.1, k)) <$> gk.2) acc.

(** [items_to_remove[group_path].append(item_key)], a new group going
    to the end of the dict. *)
Fixpoint group_append (group_path item_key : string)
  (acc : list (string * list string)) : list (string * list string) :=
  match acc with
  | [] => [(group_path, [item_key])]
  | (g, ks) :: acc' =>
      if String.eqb g group_path then (g, ks ++ [item_key]) :: acc'
      else (g, ks) :: group_append group_path item_key acc'
  end.

(** The first loop of [remove_selected_items] over the check boxes, in
    the order of the dict; [None]: a key without a bar. *)
Fixpoint collect (boxes : list (string * bool))
  (acc : list (string * list string)) : option (list (string * list string)) :=
  match boxes with
  | [] => Some acc
  | (key, checked) :: rest =>
      if checked then
        match split_once key with
        | Some (g, k) => collect rest (group_append g k acc)
        | None => None
        end
      else collect rest acc
  end.

(** [item_id = self.current_parser.get_item_id(item_key)] followed by
    [if item_id:]; without a current parser nothing is taken. *)
Definition usable_id (parser : option (string → option Z)) (item_key : string)
  : option Z :=
  match parser with
  | None => None
  | Some get_item_id =>
      match get_item_id item_key with
      | Some z => if z =? 0 then None else Some z
      | None => None
      end
  end.

(** The second loop: [all_item_ids]. *)
Definition all_item_ids (parser : option (string → option Z))
  (items_to_remove : list (string * list string)) : list Z :=
  flat_map (λ gk, omap (usable_id parser) gk.2) items_to_remove.

(** What [remove_selected_items] does. *)
Inductive removal :=
| NothingChecked                 (* one of the two warnings *)
| KeyWithoutBar                  (* the unpacking raised *)
| RemovalDeclined
| NoIdsExtracted                 (* "Could not extract item IDs" *)
| RemoveItems (ids : list Z).    (* writer.remove_items(all_item_ids) *)

(** [remove_selected_items] up to the call of the writer; [confirm] is
    the answer to the question. *)
Definition remove_selected_items (parser : option (string → option Z))
  (confirm : bool) (boxes : list (string * bool)) : removal :=
  match boxes with
  | [] => NothingChecked
  | _ :: _ =>
      match collect boxes [] with
      | None => KeyWithoutBar
      | Some [] => NothingChecked
      | Some items_to_remove =>
          if negb confirm then RemovalDeclined
          else match all_item_ids parser items_to_remove with
               | [] => NoIdsExtracted
               | ids => RemoveItems ids
               end
      end
  end.

End Panel.

(** ** Importing: [update_results_with_checkboxes],
    [get_selected_import_categories], [start_import], [run_import],
    [auto_select_scrape_group] *)

Module Importing.

Definition DEFAULT_LABEL : string := "(Use default from scraper)".

(** [self.scrape_results.items()]: the entries in the order of the
    dict. *)
Abbreviation results := (list (string * App.scrape_record)).

(** [cat_name in self.scrape_results] and [self.scrape_results[cat_name]]. *)
Fixpoint lookup_result (cat : string) (res : results)
  : option App.scrape_record :=
  match res with
  | [] => None
  | (c, d) :: res' => if String.eqb c cat then Some d else lookup_result cat res'
  end.

(** [update_results_with_checkboxes]: the check boxes it creates, each
    checked when its category has new ids. *)
Definition update_results_with_checkboxes (res : results)
  : list (string * bool) :=
  (λ cd, (cd.1, (0 <? length (App.new_ids cd.2))%nat)) <$> res.

(** [get_selected_import_categories]. *)
Fixpoint get_selected_import_categories (boxes : list (string * bool))
  (res : results) : results :=
  match boxes with
  | [] => []
  | (cat, checked) :: rest =>
      match (if checked then lookup_result cat res else None) with
      | Some d => (cat, d) :: get_selected_import_categories rest res
      | None => get_selected_import_categories rest res
      end
  end.

(** [sum(len(d['new_ids']) for d in selected_results.values())]. *)
Definition total_new (sel : results) : nat :=
  foldr (λ cd n, (length (App.new_ids cd.2) + n)%nat) 0%nat sel.

(** What [start_import] does. *)
Inductive start :=
| NoScrapeResults
| NoCategoriesSelected
| NothingToImport
| ImportDeclined
| Started (selected_group_var : string).  (* the thread runs [run_import] *)

(** [start_import]; [confirm] is the answer to the question it asks. *)
Definition start_import (confirm : bool) (res : results)
  (boxes : list (string * bool)) (selected_group : string) : start :=
  match res with
  | [] => NoScrapeResults
  | _ :: _ =>
      let sel := get_selected_import_categories boxes res in
      match sel with
      | [] => NoCategoriesSelected
      | _ :: _ =>
          if (total_new sel =? 0)%nat then NothingToImport
          else
            let unique_groups := remove_dups ((λ cd, App.tsm_group cd.2) <$> sel) in
            let has_multiple_groups := (1 <? length unique_groups)%nat in
            if String.eqb selected_group DEFAULT_LABEL || has_multiple_groups
            then (if confirm then Started DEFAULT_LABEL else ImportDeclined)
            else (if confirm then Started selected_group else ImportDeclined)
      end
  end.

(** The keys of [{i: ... for i in ids}]: each id once, at the place of
    its first occurrence. *)
Fixpoint dict_keys (ids : list Z) : list Z :=
  match ids with
  | [] => []
  | i :: ids' => i :: List.filter (λ j, negb (j =? i)) (dict_keys ids')
  end.

(** [{i: target_group for i in ids}]. *)
Definition dict_to (target_group : string) (ids : list Z) : list (Z * string) :=
  (λ i, (i, target_group)) <$> dict_keys ids.

(** A call on the writer; both are made with [dry_run=False]. *)
Inductive wcall :=
| CallRemove (ids : list Z)
| CallAdd (items : list (Z * string)).

(** What [run_import] leaves. *)
Record imported := {
  calls : list wcall;
  add_ids_left : list Z;
  remove_ids_left : list Z;
  total_added : nat;
  total_removed : nat;
  raised : option string
}.

Section WithWriter.

(** The writer: what the call with the given number returns, its
    [removed] or [added] count, or an exception. *)
Variable respond : nat → wcall → Lua.outcome nat.

(** The loop of [run_import] over the checked categories. *)
Fixpoint import_categories (use_custom_group : bool) (selected_group : string)
  (sel : results) (r : imported) : imported :=
  match sel with
  | [] => r
  | (cat_name, data) :: rest =>
      match App.new_ids data with
      | [] => import_categories use_custom_group selected_group rest r
      | new_ids =>
          let target_group :=
            if use_custom_group then selected_group else App.tsm_group data in
          let c := CallAdd (dict_to target_group new_ids) in
          match respond (length (calls r)) c with
          | Lua.Raises msg =>
              {| calls := calls r ++ [c];
                 add_ids_left := add_ids_left r;
                 remove_ids_left := remove_ids_left r;
                 total_added := total_added r;
                 total_removed := total_removed r;
                 raised := Some msg |}
          | Lua.Returns n =>
              import_categories use_custom_group selected_group rest
                {| calls := calls r ++ [c];
                   add_ids_left := add_ids_left r;
                   remove_ids_left := remove_ids_left r;
                   total_added := (total_added r + n)%nat;
                   total_removed := total_removed r;
                   raised := None |}
          end
      end
  end.

(** [run_import], up to the summary it logs. *)
Definition run_import (selected_group : string)
  (manual_add_ids manual_remove_ids : list Z)
  (boxes : list (string * bool)) (res : results) : imported :=
  let use_custom_group := negb (String.eqb selected_group DEFAULT_LABEL) in
  let start := {| calls := []; add_ids_left := manual_add_ids;
                  remove_ids_left := manual_remove_ids;
                  total_added := 0; total_removed := 0; raised := None |} in
  let after_remove :=
    match manual_remove_ids with
    | [] => start
    | _ :: _ =>
        let c := CallRemove manual_remove_ids in
        match respond 0 c with
        | Lua.Raises msg =>
            {| calls := [c]; add_ids_left := manual_add_ids;
               remove_ids_left := manual_remove_ids;
               total_added := 0; total_removed := 0; raised := Some msg |}
        | Lua.Returns n =>
            {| calls := [c]; add_ids_left := manual_add_ids;
               remove_ids_left := [];
               total_added := 0; total_removed := n; raised := None |}
        end
    end in
  match raised after_remove with
  | Some _ => after_remove
  | None =>
      let after_manual :=
        match manual_add_ids with
        | [] => after_remove
        | _ :: _ =>
            if String.eqb selected_group DEFAULT_LABEL then after_remove
            else
              let c := CallAdd (dict_to selected_group manual_add_ids) in
              match respond (length (calls after_remove)) c with
              | Lua.Raises msg =>
                  {| calls := calls after_remove ++ [c];
                     add_ids_left := manual_add_ids;
                     remove_ids_left := remove_ids_left after_remove;
                     total_added := 0;
                     total_removed := total_removed after_remove;
                     raised := Some msg |}
              | Lua.Returns n =>
                  {| calls := calls after_remove ++ [c];
                     add_ids_left := [];
                     remove_ids_left := remove_ids_left after_remove;
                     total_added := n;
                     total_removed := total_removed after_remove;
                     raised := None |}
              end
        end in
      match raised after_manual with
      | Some _ => after_manual
      | None =>
          import_categories use_custom_group selected_group
            (get_selected_import_categories boxes res) after_manual
      end
  end.

(** Every call of [cs], numbered from 0, returned. *)
Definition all_returned (cs : list wcall) : Prop :=
  ∀ k c, cs !! k = Some c → ∃ n, respond k c = Lua.Returns n.

(** The calls of [r] returned, but for a last one that raised what [r]
    records. *)
Definition stopped_at_raise (r : imported) : Prop :=
  match raised r with
  | Some msg =>
      ∃ cs c, calls r = cs ++ [c] ∧ all_returned cs ∧
              respond (length cs) c = Lua.Raises msg
  | None => all_returned (calls r)
  end.

End WithWriter.

(** [group_counts[g] = group_counts.get(g, 0) + n], a new group going
    to the end of the dict. *)
Fixpoint count_add (g : string) (n : nat) (acc : list (string * nat))
  : list (string * nat) :=
  match acc with
  | [] => [(g, n)]
  | (g', m) :: acc' =>
      if String.eqb g' g then (g', (m + n)%nat) :: acc'
      else (g', m) :: count_add g n acc'
  end.

(** One round of the first loop of [auto_select_scrape_group]. *)
Definition count_step (acc : list (string * nat))
  (cd : string * App.scrape_record) : list (string * nat) :=
  if (0 <? App.found cd.2)%nat && negb (String.eqb (App.tsm_group cd.2) "")
  then count_add (App.tsm_group cd.2) (App.found cd.2) acc
  else acc.

(** The first loop of [auto_select_scrape_group]. *)
Definition group_counts (res : results) : list (string * nat) :=
  foldl count_step [] res.

(** [max(group_counts, key=group_counts.get)] from a first entry on:
    the first key with the largest count. *)
Fixpoint best_from (cur : string * nat) (rest : list (string * nat)) : string :=
  match rest with
  | [] => cur.1
  | gn :: rest' =>
      if (cur.2 <? gn.2)%nat then best_from gn rest' else best_from cur rest'
  end.

(** [parents[0] if len(set(parents)) == 1 and parents[0] else None],
    for the parents of more than one group. *)
Definition common_parent (groups : list string) : option string :=
  let parents := Panel.parent_of <$> groups in
  match parents with
  | [] => None
  | p0 :: _ =>
      if (length (remove_dups parents) =? 1)%nat && negb (String.eqb p0 "")
      then Some p0 else None
  end.

(** [auto_select_scrape_group]: the group it puts into
    [selected_group_var] and whether that group is in the file, or
    [None] when it returns early. [registry] are the keys of
    [group_buttons_registry], [parser_groups] the groups of the file as
    the program knows them. *)
Definition auto_select_scrape_group (registry parser_groups : gset string)
  (res : results) : option (string * bool) :=
  match group_counts res with
  | [] => None
  | first :: rest =>
      let best_group := best_from first rest in
      let unique_groups := (first :: rest).*1 in
      let best_group :=
        if (1 <? length unique_groups)%nat then
          match common_parent unique_groups with
          | Some p => if bool_decide (p ∈ registry) then p else best_group
          | None => best_group
          end
        else best_group in
      Some (best_group, bool_decide (best_group ∈ parser_groups))
  end.

(** *** Notions the statements about importing use *)

(** The pair [(i, t)] is a new id of a category of [sel] with the group
    [run_import] files that category under. *)
Definition from_category (selected_group : string) (sel : results)
  (i : Z) (t : string) : Prop :=
  ∃ cat d, (cat, d) ∈ sel ∧ i ∈ App.new_ids d ∧
           t = if String.eqb selected_group DEFAULT_LABEL
               then App.tsm_group d else selected_group.

(** [acc.get(g, 0)]. *)
Fixpoint count_of (g : string) (acc : list (string * nat)) : nat :=
  match acc with
  | [] => 0
  | (g', m) :: acc' => if String.eqb g' g then m else count_of g acc'
  end.

(** The found counts of the categories of [res] filed under [g],
    summed. *)
Fixpoint total_found (g : string) (res : results) : nat :=
  match res with
  | [] => 0
  | cd :: rest =>
      ((if String.eqb (App.tsm_group cd.2) g then App.found cd.2 else 0)
       + total_found g rest)%nat
  end.

(** Some category of [res] found items and is filed under the group
    [g], which is not the empty string. *)
Definition counted (g : string) (res : results) : Prop :=
  ∃ c d, (c, d) ∈ res ∧ App.tsm_group d = g ∧ (0 < App.found d)%nat ∧ g ≠ "".

(** All counted groups of [res] lie directly under the group [p], and
    there are at least two of them. *)
Definition shared_parent (p : string) (res : results) : Prop :=
  (∃ h1 h2, h1 ≠ h2 ∧ counted h1 res ∧ counted h2 res) ∧
  ∀ h, counted h res → Panel.parent_of h = p.

End Importing.

(** ** Sample inputs *)

Module Samples.

(** A configuration with five stored profiles and a new current path. *)
Definition five_profiles : Config.app :=
  {| Config.app_config := {| Config.profiles := Some ["a"; "b"; "c"; "d"; "e"];
                      Config.cfg_tsm_path := Some "a";
                      Config.others := ∅ |};
     Config.tsm_path := "f" |}.


(** A file with a group, a group below it that holds item 100, and a
    group whose name merely starts with the same letters. *)
Definition armor_doc : Lua.document :=
  {| Lua.doc_groups :=
       [ {| Lua.g_path := "Armor"; Lua.g_members := [] |};
         {| Lua.g_path := "Armor`Cloth";
            Lua.g_members := [Lua.Key Lua.Retail 100] |};
         {| Lua.g_path := "Armory"; Lua.g_members := [Lua.Key Lua.Retail 7] |} ];
     Lua.doc_ungrouped := [];
     Lua.doc_other := "version = 1" |}.

Definition armor_files : gmap string Lua.content :=
  {[ "TradeSkillMaster.lua" := Lua.Recognized armor_doc ]}.

(** A validator: the edit is accepted when no group path of the edited
    text holds a double quote or a bracket. *)
Definition plain_char (c : ascii) : bool :=
  negb (Ascii.eqb c "034" || Ascii.eqb c "[" || Ascii.eqb c "]"
        || Ascii.eqb c "{" || Ascii.eqb c "}")%char.

Fixpoint plain (s : string) : bool :=
  match s with
  | EmptyString => true
  | String c s' => plain_char c && plain s'
  end.

Definition plain_paths (before after : Lua.document) : bool :=
  forallb (λ g, plain (Lua.g_path g)) (Lua.doc_groups after).

Definition all_ok : Writer.io :=
  {| Writer.backup_ok := true; Writer.replace_ok := true |}.

Definition no_backup : Writer.io :=
  {| Writer.backup_ok := false; Writer.replace_ok := true |}.

(** The program right after start, with no file at the configured path. *)
Definition no_file_world : App.world :=
  {| App.fs := ∅;
     App.tsm_path := "TradeSkillMaster.lua";
     App.existing_ids := {[ 100 ]};
     App.existing_groups := ∅;
     App.current_parser := None;
     App.scrape_results := ∅ |}.

(** The program with the sample file on disk. *)
Definition armor_world : App.world :=
  {| App.fs := armor_files;
     App.tsm_path := "TradeSkillMaster.lua";
     App.existing_ids := ∅;
     App.existing_groups := ∅;
     App.current_parser := None;
     App.scrape_results := ∅ |}.

(** One category and a scraper that finds three items for it. *)
Definition one_category : gmap string (string * option Z * string) :=
  {[ "cloth" := ("armor", Some 1, "Armor`Cloth") ]}.

Definition three_items (cat_name : string)
  (cat_info : string * option Z * string) : App.scrape_answer :=
  App.Ids [100; 200; 7].

Definition flat_hierarchy (d : Lua.document) : gmap string (list string) :=
  {[ "" := Lua.parse_groups d ]}.




(** The results of a scrape of two categories with different default
    groups, one of them with nothing new. *)
Definition two_results : list (string * App.scrape_record) :=
  [ ("cloth", {| App.tsm_group := "Armor`Cloth"; App.found := 3;
                 App.new_ids := [200; 7] |});
    ("swords", {| App.tsm_group := "Weapons`Swords"; App.found := 2;
                  App.new_ids := [] |});
    ("axes", {| App.tsm_group := "Weapons`Axes"; App.found := 5;
                App.new_ids := [9] |}) ].

(** A writer that adds or removes everything it is asked to. *)
Definition obliging (n : nat) (c : Importing.wcall) : Lua.outcome nat :=
  match c with
  | Importing.CallRemove ids => Lua.Returns (length ids)
  | Importing.CallAdd items => Lua.Returns (length items)
  end.

(** Scrape results of two weapon categories. *)
Definition two_weapons : list (string * App.scrape_record) :=
  [ ("swords", {| App.tsm_group := "Weapons`Swords"; App.found := 2;
                  App.new_ids := [] |});
    ("axes", {| App.tsm_group := "Weapons`Axes"; App.found := 5;
                App.new_ids := [9] |}) ].

(** A writer whose removal raises. *)
Definition refusing (n : nat) (c : Importing.wcall) : Lua.outcome nat :=
  match c with
  | Importing.CallRemove ids => Lua.Raises "locked"
  | Importing.CallAdd items => Lua.Returns (length items)
  end.

End Samples.

(* ===================================================================== *)
(** * Part II: theorems                                                   *)
(* ===================================================================== *)

Example split_two : PyStr.split PyStr.delim "Armor`Cloth" = ["Armor"; "Cloth"].
Proof. reflexivity. Qed.

Example split_empty : PyStr.split PyStr.delim "" = [""].
Proof. reflexivity. Qed.

Example py_int_examples :
  PyStr.py_int " 12345 " = Some 12345 ∧ PyStr.py_int "-7" = Some (-7) ∧
  PyStr.py_int "1_000" = Some 1000 ∧ PyStr.py_int "12a" = None ∧
  PyStr.py_int "1__0" = None ∧ PyStr.py_int "" = None ∧
  PyStr.py_int "+" = None.
Proof. repeat split; reflexivity. Qed.

Example re_split_examples :
  PyStr.re_split_ids "1, 2,,3" = ["1"; "2"; "3"] ∧
  PyStr.re_split_ids ",a" = [""; "a"] ∧
  PyStr.re_split_ids "a," = ["a"; ""].
Proof. repeat split; reflexivity. Qed.

Example sorted_example :
  PyStr.sorted PyStr.lower ["b"; "A"; "a"; "C"] = ["A"; "a"; "b"; "C"].
Proof. reflexivity. Qed.

(** ** Facts about the string primitives *)

Section StringFacts.
Import PyStr.

Lemma split_not_nil d s : split d s ≠ [].
Proof.
  destruct s as [|c s]; simpl; [done|].
  destruct (Ascii.eqb c d); [done|]. by destruct (split d s).
Qed.

Lemma split_cons_other d c s :
  Ascii.eqb c d = false →
  ∃ w ws, split d s = w :: ws ∧ split d (String c s) = String c w :: ws.
Proof.
  intros Hc. simpl. rewrite Hc.
  destruct (split d s) as [|w ws] eqn:E; [by apply split_not_nil in E|].
  eauto.
Qed.

(** Splitting a text that has the separator in the middle. *)
Lemma split_app_delim d a b :
  split d (a +:+ String d b) = split d a ++ split d b.
Proof.
  induction a as [|c a IH]; simpl.
  - by rewrite Ascii.eqb_refl.
  - destruct (Ascii.eqb c d) eqn:Hc; simpl.
    + by rewrite IH.
    + rewrite IH. destruct (split d a) as [|w ws] eqn:E; [|done].
      by apply split_not_nil in E.
Qed.

Lemma join_cons d x l :
  l ≠ [] → join d (x :: l) = x +:+ d +:+ join d l.
Proof. by destruct l. Qed.

Lemma string_app_assoc (a b c : string) : (a +:+ b) +:+ c = a +:+ (b +:+ c).
Proof. induction a; simpl; congruence. Qed.

Lemma string_app_empty_r (a : string) : a +:+ "" = a.
Proof. induction a; simpl; congruence. Qed.

Lemma join_app d l1 l2 :
  l1 ≠ [] → l2 ≠ [] →
  join d (l1 ++ l2) = join d l1 +:+ d +:+ join d l2.
Proof.
  intros H1 H2. induction l1 as [|x l1 IH]; [done|].
  destruct l1 as [|y l1].
  - simpl app. by rewrite join_cons.
  - change ((x :: y :: l1) ++ l2) with (x :: ((y :: l1) ++ l2)).
    rewrite !join_cons by done. rewrite IH by done.
    by rewrite !string_app_assoc.
Qed.

(** [join] undoes [split]. *)
Lemma join_split d s : join (String d "") (split d s) = s.
Proof.
  induction s as [|c s IH]; [done|]. simpl.
  destruct (Ascii.eqb c d) eqn:Hc.
  - apply Ascii.eqb_eq in Hc as ->.
    rewrite join_cons by apply split_not_nil. by rewrite IH.
  - destruct (split d s) as [|w ws] eqn:E; [by apply split_not_nil in E|].
    destruct ws as [|w' ws]; simpl in *; by rewrite <- IH.
Qed.

Lemma split_inj d s t : split d s = split d t → s = t.
Proof. intros H. by rewrite <- (join_split d s), H, join_split. Qed.

Lemma one_segment_split name :
  Groups.one_segment name = true → split delim name = [name].
Proof.
  induction name as [|c s IH]; [done|]. simpl.
  intros [Hc Hs]%andb_true_iff. apply negb_true_iff in Hc.
  rewrite Hc, (IH Hs). done.
Qed.

Lemma split_one_segment s :
  Forall (λ w, Groups.one_segment w = true) (split delim s).
Proof.
  induction s as [|c s IH]; simpl; [by repeat constructor|].
  destruct (Ascii.eqb c delim) eqn:Hc; [by constructor|].
  destruct (split delim s) as [|w ws]; simpl.
  - repeat constructor. simpl. by rewrite Hc.
  - inversion IH; subst. constructor; [|done]. simpl. by rewrite Hc.
Qed.

(** [split] undoes [join] on segments. *)
Lemma split_join l :
  l ≠ [] → Forall (λ w, Groups.one_segment w = true) l →
  split delim (join delim_s l) = l.
Proof.
  induction l as [|x l IH]; [done|]. intros _ Hl.
  inversion Hl as [|? ? Hx Hl']; subst.
  destruct l as [|y l].
  - simpl. by apply one_segment_split.
  - rewrite join_cons by done. unfold delim_s.
    change (x +:+ String delim "" +:+ join (String delim "") (y :: l))
      with (x +:+ String delim (join delim_s (y :: l))).
    rewrite split_app_delim, IH by done. by rewrite one_segment_split.
Qed.


Lemma lower_delim : lower_char delim = delim.
Proof. reflexivity. Qed.









End StringFacts.

(** ** Configuration *)

Section ConfigFacts.
Import Config.

Lemma saved_profiles_length a : (length (saved_profiles a) ≤ 5)%nat.
Proof. unfold saved_profiles. rewrite length_take. lia. Qed.

Lemma saved_profiles_new a :
  tsm_path a ≠ "" → tsm_path a ∉ get_profiles (app_config a) →
  saved_profiles a = take 5 (tsm_path a :: get_profiles (app_config a)).
Proof.
  intros Hne Hnin. unfold saved_profiles.
  apply String.eqb_neq in Hne. rewrite Hne.
  by rewrite bool_decide_eq_false_2.
Qed.

Lemma saved_profiles_old a :
  tsm_path a = "" ∨ tsm_path a ∈ get_profiles (app_config a) →
  saved_profiles a = take 5 (get_profiles (app_config a)).
Proof.
  intros [He|Hin]; unfold saved_profiles.
  - apply String.eqb_eq in He. by rewrite He.
  - rewrite (bool_decide_eq_true_2 _ Hin). by rewrite andb_false_r.
Qed.

(** C10. Whatever [save_config] writes to the configuration file holds a
    list of at most five profiles: the stored list, with the current
    [tsm_path] put in front when that path is not empty and not yet in
    the list, cut to its first five entries. The file is written whenever
    creating the folder and opening the file succeed. *)
Theorem save_config_profiles_at_most_five (mkdir_ok write_ok : bool) (a : app) :
  let old := get_profiles (app_config a) in
  match (save_config mkdir_ok write_ok a).2 with
  | Some written =>
      ∃ l, profiles written = Some l ∧ (length l ≤ 5)%nat ∧
           (tsm_path a ≠ "" → tsm_path a ∉ old →
            l = take 5 (tsm_path a :: old)) ∧
           (tsm_path a = "" ∨ tsm_path a ∈ old → l = take 5 old)
  | None => mkdir_ok && write_ok = false
  end.
Proof.
  intros old. unfold save_config.
  destruct mkdir_ok; simpl; [|done].
  destruct write_ok; simpl; [|done].
  exists (saved_profiles a). split; [done|].
  split; [apply saved_profiles_length|].
  split; [apply saved_profiles_new|apply saved_profiles_old].
Qed.

Lemma save_config_profiles_at_most_five_witness :
  ∃ written, (save_config true true Samples.five_profiles).2 = Some written ∧
             profiles written = Some ["f"; "a"; "b"; "c"; "d"].
Proof.
  pose proof (save_config_profiles_at_most_five true true Samples.five_profiles) as H.
  simpl in H. destruct H as (l & Hl & _ & Hnew & _).
  eexists. split; [reflexivity|]. simpl.
  rewrite Hl. f_equal. apply Hnew; [done|].
  simpl. intros Hin.
  repeat (apply elem_of_cons in Hin as [Heq|Hin]; [discriminate Heq|]).
  by apply elem_of_nil in Hin.
Defined.

End ConfigFacts.

(** ** The manual id lists *)

Section ManualIdFacts.
Import ManualIds.

Lemma append_if_absent_NoDup x l :
  NoDup l → NoDup (append_if_absent x l).1.
Proof.
  intros Hl. unfold append_if_absent. case_bool_decide; simpl; [done|].
  apply NoDup_app. split; [done|]. split; [|apply NoDup_singleton].
  intros y Hy ->%list_elem_of_singleton. done.
Qed.

Lemma note_id_no_dups x st : no_dups st → no_dups (note_id x st).1.
Proof.
  intros [Ha Hr]. unfold note_id.
  destruct (remove_mode st).
  - pose proof (append_if_absent_NoDup x _ Hr) as H.
    destruct (append_if_absent x (manual_remove_ids st)). by split.
  - pose proof (append_if_absent_NoDup x _ Ha) as H.
    destruct (append_if_absent x (manual_add_ids st)). by split.
Qed.

Lemma note_id_mode x st : remove_mode (note_id x st).1 = remove_mode st.
Proof.
  unfold note_id. destruct (remove_mode st) eqn:E.
  - by destruct (append_if_absent x (manual_remove_ids st)).
  - by destruct (append_if_absent x (manual_add_ids st)).
Qed.

Lemma add_manual_id_no_dups entry st :
  no_dups st → no_dups (add_manual_id entry st).
Proof.
  intros H. unfold add_manual_id.
  destruct (remove_mode st && String.eqb (PyStr.strip entry) ""); [done|].
  destruct (String.eqb (PyStr.strip entry) ""); [done|].
  destruct (PyStr.py_int (PyStr.strip entry)) as [x|]; [|done].
  pose proof (note_id_no_dups x st H) as H'.
  by destruct (note_id x st).
Qed.

Lemma paste_loop_no_dups pieces : ∀ st n,
  no_dups st → no_dups (paste_loop pieces st n).1.
Proof.
  induction pieces as [|p pieces IH]; intros st n H; simpl; [done|].
  destruct (String.eqb (PyStr.strip p) ""); [by apply IH|].
  destruct (PyStr.py_int (PyStr.strip p)) as [x|]; [|by apply IH].
  pose proof (note_id_no_dups x st H) as H'.
  destruct (note_id x st). by apply IH.
Qed.

Lemma paste_id_list_no_dups input st :
  no_dups st → no_dups (paste_id_list input st).
Proof.
  intros H. destruct input as [text|]; simpl; [|done].
  destruct (String.eqb text ""); [done|].
  pose proof (paste_loop_no_dups
                (PyStr.re_split_ids (PyStr.strip text)) st 0%nat H) as H'.
  by destruct (paste_loop _ st 0%nat).
Qed.

Lemma run_import_lists_no_dups g r a st :
  no_dups st → no_dups (run_import_lists g r a st).
Proof.
  destruct st as [adds rems mode evs]. intros [Ha Hr]. simpl in *.
  unfold run_import_lists, no_dups; simpl.
  destruct rems as [|x rems], adds as [|y adds], g, r, a; simpl;
    split; done || constructor.
Qed.

Lemma step_no_dups a st : no_dups st → no_dups (step a st).
Proof.
  destruct a; simpl.
  - apply add_manual_id_no_dups.
  - apply paste_id_list_no_dups.
  - done.
  - apply run_import_lists_no_dups.
Qed.

Lemma run_no_dups acts : ∀ st, no_dups st → no_dups (run acts st).
Proof.
  induction acts as [|a acts IH]; intros st H; [done|].
  apply IH. by apply step_no_dups.
Qed.

Lemma py_int_empty : PyStr.py_int "" = None.
Proof. reflexivity. Qed.

Lemma add_manual_id_rejects entry st :
  PyStr.py_int (PyStr.strip entry) = None →
  lists (add_manual_id entry st) = lists st.
Proof.
  intros Hbad. unfold add_manual_id.
  destruct (remove_mode st && String.eqb (PyStr.strip entry) ""); [done|].
  destruct (String.eqb (PyStr.strip entry) ""); [done|].
  by rewrite Hbad.
Qed.

Lemma add_manual_id_logs_rejection entry st :
  PyStr.strip entry ≠ "" → PyStr.py_int (PyStr.strip entry) = None →
  events (add_manual_id entry st)
  = events st ++ [LogInvalidId (PyStr.strip entry)].
Proof.
  intros Hne Hbad. unfold add_manual_id.
  apply String.eqb_neq in Hne. rewrite Hne, andb_false_r. by rewrite Hbad.
Qed.

Lemma paste_loop_skips_rejected pieces : ∀ st n,
  paste_loop pieces st n = paste_loop (filter is_id pieces) st n.
Proof.
  induction pieces as [|p pieces IH]; intros st n; [done|].
  unfold is_id in *. rewrite filter_cons. simpl.
  destruct (PyStr.py_int (PyStr.strip p)) as [x|] eqn:Hp.
  - rewrite decide_True by eauto. simpl. rewrite Hp.
    destruct (String.eqb (PyStr.strip p) ""); [apply IH|].
    destruct (note_id x st). apply IH.
  - rewrite decide_False by (by intros [? ?]).
    destruct (String.eqb (PyStr.strip p) ""); apply IH.
Qed.

(** C9. Starting from the empty lists of [__init__], after any sequence
    of [add_manual_id], [paste_id_list], mode changes and imports, neither
    [manual_add_ids] nor [manual_remove_ids] holds an id twice. An entry
    text that [int] rejects leaves both lists as they are and, when it is
    not blank, is logged as invalid; pasted pieces that [int] rejects are
    skipped: the paste does what it does on the accepted pieces alone. *)
Theorem manual_ids_never_duplicate :
  (∀ acts, NoDup (manual_add_ids (run acts init)) ∧
           NoDup (manual_remove_ids (run acts init))) ∧
  (∀ entry st, PyStr.py_int (PyStr.strip entry) = None →
     lists (add_manual_id entry st) = lists st) ∧
  (∀ entry st, PyStr.strip entry ≠ "" →
     PyStr.py_int (PyStr.strip entry) = None →
     events (add_manual_id entry st)
     = events st ++ [LogInvalidId (PyStr.strip entry)]) ∧
  (∀ pieces st n,
     paste_loop pieces st n = paste_loop (filter is_id pieces) st n).
Proof.
  split; [|split; [|split]].
  - intros acts. apply (run_no_dups acts init). split; constructor.
  - apply add_manual_id_rejects.
  - apply add_manual_id_logs_rejection.
  - apply paste_loop_skips_rejected.
Qed.

Lemma manual_ids_never_duplicate_witness :
  lists (add_manual_id "12a" init) = lists init ∧
  manual_add_ids
    (run [AddManualId "7"; PasteIdList (Some "7, 8,x,8"); AddManualId " 8 "]
         init) = [7; 8].
Proof.
  destruct manual_ids_never_duplicate as (_ & Hrej & _ & _).
  split; [apply Hrej; reflexivity|reflexivity].
Defined.

End ManualIdFacts.

(** ** The order of the groups panel *)

Section SortedFacts.
Import PyStr.
Context {A : Type}.








End SortedFacts.

Section PanelFacts.
Import PyStr Groups.

Lemma child_path_eq parent name :
  child_path parent name = parent +:+ String delim name.
Proof. reflexivity. Qed.

Lemma display_name_child parent name :
  one_segment name = true → display_name (child_path parent name) = name.
Proof.
  intros Hn. unfold display_name, last_part.
  rewrite child_path_eq, split_app_delim, (one_segment_split _ Hn).
  apply last_last.
Qed.

Lemma display_name_root name :
  one_segment name = true → display_name name = name.
Proof.
  intros Hn. unfold display_name, last_part.
  by rewrite (one_segment_split _ Hn).
Qed.






End PanelFacts.

(** ** The transaction of the writer *)

Section TransactFacts.
Import Lua Writer.
Variable validate : document → document → bool.

Lemma loaded_lookup fs path d :
  loaded fs path = Some d ↔ fs !! path = Some (Recognized d).
Proof.
  unfold loaded, load. destruct (fs !! path) as [[d'|raw]|]; split;
    intros H; by simplify_eq.
Qed.

Lemma loaded_insert fs path d : loaded (<[path := Recognized d]> fs) path = Some d.
Proof. apply loaded_lookup, lookup_insert_eq. Qed.

(** A call that is not a dry run, passes validation and whose two disk
    writes succeed commits the edit. *)
Lemma transact_commits {C} (zero : C) plan w stamp path fs d :
  loaded fs path = Some d →
  validate d (plan d).1 = true →
  backup_ok w = true → replace_ok w = true →
  transact validate zero plan false w stamp path fs
  = {| files_after :=
         <[path := Recognized (plan d).1]>
           (<[backup_name path stamp := Recognized d]> fs);
       disk := [BackupWritten (backup_name path stamp); Replaced path];
       answer := Returns ((plan d).2, []) |}.
Proof.
  intros Hd Hv Hb Hr. unfold transact. rewrite Hd.
  destruct (plan d) as [e c]; simpl in *. rewrite Hv.
  unfold commit. apply loaded_lookup in Hd. by rewrite Hd, Hb, Hr.
Qed.

(** A dry run reports the counters of the plan and writes nothing. *)
Lemma transact_dry_run {C} (zero : C) plan w stamp path fs d :
  loaded fs path = Some d →
  transact validate zero plan true w stamp path fs
  = {| files_after := fs; disk := [];
       answer := Returns ((plan d).2, []) |}.
Proof.
  intros Hd. unfold transact. rewrite Hd. by destruct (plan d).
Qed.

(** What any call leaves on the disk. *)
Lemma transact_cases {C} (zero : C) plan dry w stamp path fs :
  let c := transact validate zero plan dry w stamp path fs in
  (files_after c = fs ∧ disk c = []) ∨
  (∃ d, loaded fs path = Some d ∧
        files_after c = <[backup_name path stamp := Recognized d]> fs ∧
        disk c = [BackupWritten (backup_name path stamp)] ∧
        dry = false ∧ backup_ok w = true ∧ replace_ok w = false ∧
        answer c = Raises "could not write the file") ∨
  (∃ d, loaded fs path = Some d ∧
        files_after c = <[path := Recognized (plan d).1]>
                          (<[backup_name path stamp := Recognized d]> fs) ∧
        disk c = [BackupWritten (backup_name path stamp); Replaced path] ∧
        dry = false ∧ validate d (plan d).1 = true ∧
        backup_ok w = true ∧ replace_ok w = true ∧
        answer c = Returns ((plan d).2, [])).
Proof.
  simpl. unfold transact.
  destruct (loaded fs path) as [d|] eqn:Hd; [|by left].
  destruct (plan d) as [e n] eqn:Hp. destruct dry; [by left|].
  destruct (validate d e) eqn:Hv; [|by left].
  unfold commit. pose proof Hd as Hl. apply loaded_lookup in Hl. rewrite Hl.
  destruct (backup_ok w) eqn:Hb; [|by left].
  destruct (replace_ok w) eqn:Hr; right; [right|left]; exists d; simpl;
    rewrite ?Hp; simpl; by repeat split.
Qed.

End TransactFacts.

Section AtomicFacts.
Import Lua Writer.
Variable validate : document → document → bool.

(** The target file after a call, seen from the transaction. *)
Lemma transact_atomic {C} (zero : C) plan dry w stamp path fs :
  let c := transact validate zero plan dry w stamp path fs in
  ((files_after c !! path = fs !! path ∧
    (disk c = [] ∨ disk c = [BackupWritten (backup_name path stamp)]))
   ∨
   (∃ d, fs !! path = Some (Recognized d) ∧ dry = false ∧
         validate d (plan d).1 = true ∧
         backup_ok w = true ∧ replace_ok w = true ∧
         files_after c !! path = Some (Recognized (plan d).1) ∧
         disk c = [BackupWritten (backup_name path stamp); Replaced path] ∧
         (backup_name path stamp ≠ path →
          files_after c !! backup_name path stamp = Some (Recognized d)) ∧
         (∃ n, answer c = Returns (n, []))))
  ∧ (backup_ok w = false → files_after c = fs)
  ∧ ((∀ d, loaded fs path = Some d → validate d (plan d).1 = false) →
     files_after c = fs)
  ∧ (dry = true → files_after c = fs).
Proof.
  intros c.
  destruct (transact_cases validate zero plan dry w stamp path fs)
    as [[Hf Hd]|[(d & Hl & Hf & Hd & Hdry & Hb & Hr & Ha)
                |(d & Hl & Hf & Hd & Hdry & Hv & Hb & Hr & Ha)]];
    fold c in Hf, Hd; try fold c in Ha.
  - split; [left; rewrite Hf; auto|]. by repeat split.
  - pose proof Hl as Hl'. apply loaded_lookup in Hl'.
    split; [left; split; [|by right]|].
    + rewrite Hf. destruct (decide (backup_name path stamp = path)) as [->|Hne].
      * by rewrite lookup_insert_eq.
      * by rewrite lookup_insert_ne.
    + split; [congruence|]. split; [|congruence].
      intros Hbad. apply Hbad in Hl.
      unfold c, transact in Hd. rewrite (proj2 (loaded_lookup _ _ _) Hl') in Hd.
      destruct (plan d) as [e n]. simpl in Hl. rewrite Hl in Hd.
      rewrite Hdry in Hd. done.
  - pose proof Hl as Hl'. apply loaded_lookup in Hl'.
    split; [right; exists d; repeat split; try done|].
    + rewrite Hf. apply lookup_insert_eq.
    + intros Hne. rewrite Hf, lookup_insert_ne by done.
      apply lookup_insert_eq.
    + eauto.
    + split; [congruence|]. split; [|congruence].
      intros Hbad. apply Hbad in Hl. congruence.
Qed.

(** C1. A call of any of the five mutating operations either leaves the
    target file exactly as it was, having written nothing or the backup
    only, or commits: it was no dry run, the edit passed validation, the
    backup copy of the pre-edit file was written first and the original
    replaced after it, and the target then holds the edited text and the
    backup the pre-edit text. When the backup cannot be written, when
    validation fails, and on a dry run, no file changes at all. *)
Theorem writer_call_commits_or_leaves_file_untouched
  (r : request) (w : io) (stamp path : string) (fs : files) :
  let '(fs', ops, raised) := perform validate r w stamp path fs in
  ((fs' !! path = fs !! path ∧
    (ops = [] ∨ ops = [BackupWritten (backup_name path stamp)]))
   ∨
   (∃ d, fs !! path = Some (Recognized d) ∧ is_dry r = false ∧
         validate d (edited_text r d) = true ∧
         backup_ok w = true ∧ replace_ok w = true ∧
         fs' !! path = Some (Recognized (edited_text r d)) ∧
         ops = [BackupWritten (backup_name path stamp); Replaced path] ∧
         (backup_name path stamp ≠ path →
          fs' !! backup_name path stamp = Some (Recognized d)) ∧
         raised = false))
  ∧ (backup_ok w = false → fs' = fs)
  ∧ ((∀ d, loaded fs path = Some d → validate d (edited_text r d) = false) →
     fs' = fs)
  ∧ (is_dry r = true → fs' = fs).
Proof.
  destruct r as [items dry|ids dry|paths dry|o n|p del]; simpl;
    unfold add_items, remove_items, add_groups, rename_group, delete_group;
    (match goal with
     | |- context [transact validate ?z ?pl ?dr w stamp path fs] =>
         pose proof (transact_atomic z pl dr w stamp path fs) as H;
         simpl in H; destruct H as (H1 & H2 & H3 & H4)
     end);
    (split; [|by repeat split]);
    (destruct H1 as [H1|(d & Hd & Hdry & Hv & Hb & Hr & Hf & Ho & Hbk & (k & Ha))];
     [by left|right; exists d; rewrite Ha; by repeat split]).
Qed.

End AtomicFacts.

Lemma writer_call_commits_or_leaves_file_untouched_witness :
  (Writer.perform Samples.plain_paths (Writer.RenameGroup "Armor" "Gear")
     Samples.no_backup ".20240101" "TradeSkillMaster.lua"
     Samples.armor_files).1.1 = Samples.armor_files.
Proof.
  pose proof (writer_call_commits_or_leaves_file_untouched
                Samples.plain_paths (Writer.RenameGroup "Armor" "Gear")
                Samples.no_backup ".20240101" "TradeSkillMaster.lua"
                Samples.armor_files) as H.
  destruct (Writer.perform _ _ _ _ _ _) as [[fs' ops] raised].
  destruct H as (_ & H & _). apply H. reflexivity.
Defined.

(** ** Renaming a group *)

Section RenameFacts.
Import PyStr Lua Writer.

Lemma prefix_app_iff s : ∀ p,
  String.prefix s p = true ↔ ∃ t, p = s +:+ t.
Proof.
  induction s as [|a s IH]; intros p.
  - split; [intros _; by exists p|intros _; by destruct p].
  - destruct p as [|b p]; simpl.
    + split; [done|]. by intros [t Ht].
    + destruct (ascii_dec a b) as [->|Hne].
      * rewrite IH. split; intros [t Ht]; exists t; simpl in *; congruence.
      * split; [done|]. intros [t Ht]. simpl in Ht. congruence.
Qed.

Lemma string_drop_app a b : string_drop (String.length a) (a +:+ b) = b.
Proof. induction a; simpl; [by destruct b|done]. Qed.

Lemma string_drop_all a : string_drop (String.length a) a = "".
Proof. induction a; simpl; done. Qed.

(** [below] says that the path continues after the delimiter. *)
Lemma below_iff old p :
  below old p = true ↔ ∃ suffix, p = old +:+ String delim suffix.
Proof.
  unfold below. rewrite prefix_app_iff.
  split; intros [t Ht]; exists t; rewrite Ht; unfold delim_s;
    by rewrite string_app_assoc.
Qed.

Lemma join_split_delim s : join delim_s (split delim s) = s.
Proof. apply join_split. Qed.

(** A path whose segments continue those of [old] continues its text. *)
Lemma segments_continue old p r rest :
  split delim p = split delim old ++ r :: rest →
  p = old +:+ String delim (join delim_s (r :: rest)).
Proof.
  intros Hrest. rewrite <- (join_split_delim p) at 1. rewrite Hrest.
  rewrite join_app by (done || apply split_not_nil).
  by rewrite join_split_delim.
Qed.

(** The string test of the writer is the test on segments. *)
Lemma within_segments old p :
  within old p = true ↔ ∃ rest, split delim p = split delim old ++ rest.
Proof.
  unfold within. rewrite orb_true_iff, String.eqb_eq, below_iff. split.
  - intros [->|[suffix ->]].
    + exists []. by rewrite app_nil_r.
    + exists (split delim suffix). apply split_app_delim.
  - intros [rest Hrest]. destruct rest as [|r rest].
    + left. rewrite app_nil_r in Hrest. by apply (split_inj delim).
    + right. exists (join delim_s (r :: rest)). by apply segments_continue.
Qed.

Lemma moved_segments old new p rest :
  split delim p = split delim old ++ rest →
  split delim (moved old new p) = split delim new ++ rest.
Proof.
  intros Hrest. unfold moved. destruct rest as [|r rest].
  - rewrite app_nil_r in Hrest. apply (split_inj delim) in Hrest as ->.
    by rewrite string_drop_all, string_app_empty_r, app_nil_r.
  - pose proof (segments_continue _ _ _ _ Hrest) as Hp.
    rewrite Hp, string_drop_app, split_app_delim. f_equal.
    rewrite Hp, split_app_delim in Hrest. by apply app_inv_head in Hrest.
Qed.

Lemma rename_entry_members old new g :
  g_members (rename_entry old new g) = g_members g.
Proof. unfold rename_entry. by destruct (within old (g_path g)). Qed.

Lemma rename_entry_hit old new g rest :
  split delim (g_path g) = split delim old ++ rest →
  split delim (g_path (rename_entry old new g)) = split delim new ++ rest.
Proof.
  intros Hrest. unfold rename_entry.
  rewrite (proj2 (within_segments old (g_path g))) by eauto.
  by apply moved_segments.
Qed.

Lemma rename_entry_miss old new g :
  (¬ ∃ rest, split delim (g_path g) = split delim old ++ rest) →
  rename_entry old new g = g.
Proof.
  intros Hno. unfold rename_entry.
  destruct (within old (g_path g)) eqn:E; [|done].
  by apply within_segments in E.
Qed.

(** The path built by the rename dialog, as a join of segments. *)
Lemma renamed_path_join group_path new_name :
  Groups.renamed_path group_path new_name
  = join delim_s (but_last (split delim group_path) ++ [new_name]).
Proof.
  unfold Groups.renamed_path, but_last.
  destruct (split delim group_path) as [|x [|y l]] eqn:E; [done..|].
  change (1 <? length (x :: y :: l))%nat with true. cbv iota.
  by rewrite join_app.
Qed.

Lemma but_last_segments group_path :
  Forall (λ w, Groups.one_segment w = true) (but_last (split delim group_path)).
Proof.
  pose proof (split_one_segment group_path) as H. unfold but_last.
  induction H as [|x l Hx Hl IH]; simpl; [constructor|].
  destruct l; [constructor|]. by constructor.
Qed.

Lemma renamed_path_segments group_path new_name :
  Groups.one_segment new_name = true →
  split delim (Groups.renamed_path group_path new_name)
  = but_last (split delim group_path) ++ [new_name].
Proof.
  intros Hn. rewrite renamed_path_join. apply split_join.
  - by destruct (but_last (split delim group_path)).
  - apply Forall_app. split; [apply but_last_segments|by repeat constructor].
Qed.

(** C5. A committed [rename_group old new] keeps every group entry in
    its place with its members; an entry whose segments start with the
    segments of [old] (the group itself, with nothing after them, and
    the groups below it) gets those replaced by the segments of [new]
    and keeps the segments after them; every other entry, also one whose
    text merely starts with the text of [old], stays as it is; nothing
    else of the file changes. The rename dialog asks for the path made of
    the segments of the old path without the last one, followed by the
    new name. *)
Theorem rename_group_rewrites_segment_prefix
  (validate : document → document → bool) (w : io) (stamp path : string)
  (fs : files) (d : document) (old new : string) :
  loaded fs path = Some d →
  validate d (plan_rename_group old new d).1 = true →
  backup_ok w = true → replace_ok w = true →
  (∃ d', loaded (files_after (rename_group validate old new w stamp path fs))
                path = Some d' ∧
     doc_ungrouped d' = doc_ungrouped d ∧ doc_other d' = doc_other d ∧
     length (doc_groups d') = length (doc_groups d) ∧
     ∀ i g, doc_groups d !! i = Some g →
       ∃ g', doc_groups d' !! i = Some g' ∧
         g_members g' = g_members g ∧
         (∀ rest, split delim (g_path g) = split delim old ++ rest →
                  split delim (g_path g') = split delim new ++ rest) ∧
         ((¬ ∃ rest, split delim (g_path g) = split delim old ++ rest) →
          g' = g)) ∧
  (∀ group_path new_name,
     Groups.renamed_path group_path new_name
     = join delim_s (but_last (split delim group_path) ++ [new_name]) ∧
     (Groups.one_segment new_name = true →
      split delim (Groups.renamed_path group_path new_name)
      = but_last (split delim group_path) ++ [new_name]) ∧
     (new_name ≠ "" → new_name ≠ Groups.display_name group_path →
      Groups.rename_group_dialog group_path (Some new_name)
      = Some (group_path, Groups.renamed_path group_path new_name))).
Proof.
  intros Hd Hv Hb Hr. split.
  - unfold rename_group. rewrite (transact_commits validate _ _ w stamp path fs d)
      by done. simpl.
    exists (with_groups d (rename_entry old new <$> doc_groups d)).
    split; [apply loaded_insert|]. simpl.
    split; [done|]. split; [done|]. split; [by rewrite length_fmap|].
    intros i g Hg. exists (rename_entry old new g).
    split; [by rewrite list_lookup_fmap, Hg|].
    split; [apply rename_entry_members|].
    split; [intros rest; apply rename_entry_hit|apply rename_entry_miss].
  - intros group_path new_name.
    split; [apply renamed_path_join|]. split; [apply renamed_path_segments|].
    intros H1 H2. unfold Groups.rename_group_dialog.
    apply String.eqb_neq in H1, H2. by rewrite H1, H2.
Qed.

Example rename_armor_to_gear :
  (plan_rename_group "Armor" "Gear" Samples.armor_doc).2
  = {| groups_updated := 2; items_updated := 1 |} ∧
  g_path <$> doc_groups (plan_rename_group "Armor" "Gear" Samples.armor_doc).1
  = ["Gear"; "Gear`Cloth"; "Armory"].
Proof. split; reflexivity. Qed.

Lemma rename_group_rewrites_segment_prefix_witness :
  ∃ d', loaded (files_after
                  (rename_group Samples.plain_paths "Armor" "Gear"
                     Samples.all_ok ".20240101" "TradeSkillMaster.lua"
                     Samples.armor_files))
               "TradeSkillMaster.lua" = Some d' ∧
        length (doc_groups d') = 3%nat.
Proof.
  destruct (rename_group_rewrites_segment_prefix
              Samples.plain_paths Samples.all_ok ".20240101"
              "TradeSkillMaster.lua" Samples.armor_files Samples.armor_doc
              "Armor" "Gear")
    as [(d' & Hd' & _ & _ & Hlen & _) _]; try reflexivity.
  exists d'. split; [exact Hd'|exact Hlen].
Defined.

End RenameFacts.

(** ** Removing items and adding groups *)

Section CountFacts.
Import Lua Writer.
Variable validate : document → document → bool.

(** A call that goes through reports the counters of its plan. *)
Lemma transact_counts {C} (zero : C) plan dry w stamp path fs d :
  loaded fs path = Some d →
  goes_through validate w dry d (plan d).1 →
  counts_of (transact validate zero plan dry w stamp path fs)
  = Some (plan d).2 ∧
  errors_of (transact validate zero plan dry w stamp path fs) = [].
Proof.
  intros Hd Hok. destruct dry.
  - by rewrite (transact_dry_run validate zero plan w stamp path fs d Hd).
  - destruct (Hok eq_refl) as (Hv & Hb & Hr).
    by rewrite (transact_commits validate zero plan w stamp path fs d).
Qed.

(** The target file after a call that goes through. *)
Lemma transact_file {C} (zero : C) plan dry w stamp path fs d :
  loaded fs path = Some d →
  goes_through validate w dry d (plan d).1 →
  loaded (files_after (transact validate zero plan dry w stamp path fs)) path
  = Some (if dry then d else (plan d).1).
Proof.
  intros Hd Hok. destruct dry.
  - by rewrite (transact_dry_run validate zero plan w stamp path fs d Hd).
  - destruct (Hok eq_refl) as (Hv & Hb & Hr).
    rewrite (transact_commits validate zero plan w stamp path fs d) by done.
    apply loaded_insert.
Qed.

Lemma members_after_drop id gs :
  flat_map g_members (drop_id id <$> gs)
  = List.filter (λ k, negb (is_key_of id k)) (flat_map g_members gs).
Proof.
  induction gs as [|g gs IH]; [done|].
  rewrite fmap_cons. cbn [flat_map g_members drop_id].
  by rewrite List.filter_app, IH.
Qed.

Lemma existsb_filter {A} (f g : A → bool) l :
  existsb f (List.filter g l) = existsb (λ x, g x && f x) l.
Proof.
  induction l as [|x l IH]; simpl; [done|].
  destruct (g x); simpl; by rewrite IH.
Qed.

Lemma existsb_after_drop id id' l :
  existsb (λ k, negb (is_key_of id k) && is_key_of id' k) l
  = existsb (is_key_of id') l && negb (bool_decide (id' = id)).
Proof.
  induction l as [|k l IH]; simpl; [done|]. rewrite IH.
  unfold is_key_of.
  repeat case_bool_decide; simpl;
    rewrite ?andb_false_r, ?andb_true_r; congruence.
Qed.

Lemma listed_after_drop id id' d :
  listed id' (with_groups d (drop_id id <$> doc_groups d))
  = listed id' d && negb (bool_decide (id' = id)).
Proof.
  unfold listed. simpl. rewrite members_after_drop, existsb_filter.
  apply existsb_after_drop.
Qed.

Lemma remove_fold ids : ∀ d c,
  NoDup ids →
  removed (foldl remove_item_step (d, c) ids).2
  = (removed c + length (List.filter (λ id, listed id d) ids))%nat ∧
  not_found (foldl remove_item_step (d, c) ids).2
  = (not_found c + length (List.filter (λ id, negb (listed id d)) ids))%nat ∧
  ∀ id, listed id (foldl remove_item_step (d, c) ids).1
        = listed id d && negb (bool_decide (id ∈ ids)).
Proof.
  induction ids as [|x ids IH]; intros d c Hnd.
  - split; [simpl; lia|]. split; [simpl; lia|]. intros id.
    rewrite bool_decide_eq_false_2 by apply not_elem_of_nil.
    by rewrite andb_true_r.
  - apply NoDup_cons in Hnd as [Hx Hnd]. simpl foldl.
    set (d1 := with_groups d (drop_id x <$> doc_groups d)).
    assert (Hsame : ∀ id, id ∈ ids → listed id d1 = listed id d).
    { intros id Hid. unfold d1. rewrite listed_after_drop.
      rewrite bool_decide_eq_false_2; [by rewrite andb_true_r|].
      by intros ->. }
    assert (Hf1 : List.filter (λ id, listed id d1) ids
                  = List.filter (λ id, listed id d) ids).
    { apply List.filter_ext_in. intros id Hid.
      by apply Hsame, list_elem_of_In. }
    assert (Hf2 : List.filter (λ id, negb (listed id d1)) ids
                  = List.filter (λ id, negb (listed id d)) ids).
    { apply List.filter_ext_in. intros id Hid. f_equal.
      by apply Hsame, list_elem_of_In. }
    change (foldl remove_item_step (d, c) (x :: ids))
      with (foldl remove_item_step (remove_item_step (d, c) x) ids).
    simpl List.filter.
    destruct (listed x d) eqn:Hl; simpl negb; cbv iota.
    + destruct (IH d1 {| removed := S (removed c); not_found := not_found c |}
                  Hnd) as (H1 & H2 & H3).
      rewrite H1, H2, Hf1, Hf2. simpl. repeat split; try lia.
      intros id. rewrite H3. unfold d1. rewrite listed_after_drop.
      rewrite <- andb_assoc. f_equal.
      rewrite <- negb_orb. f_equal.
      destruct (decide (id = x)) as [->|Hne].
      * rewrite (bool_decide_eq_true_2 (x = x)) by done.
        by rewrite (bool_decide_eq_true_2 (x ∈ x :: ids)) by apply list_elem_of_here.
      * rewrite (bool_decide_eq_false_2 (id = x)) by done. simpl.
        apply bool_decide_ext. rewrite elem_of_cons.
        split; [by right|by intros [?|?]].
    + destruct (IH d {| removed := removed c; not_found := S (not_found c) |}
                  Hnd) as (H1 & H2 & H3).
      rewrite H1, H2. simpl. repeat split; try lia.
      intros id. rewrite H3.
      destruct (decide (id = x)) as [->|Hne].
      * rewrite Hl. done.
      * f_equal. f_equal. apply bool_decide_ext. rewrite elem_of_cons.
        split; [by right|by intros [?|?]].
Qed.

End CountFacts.

Section RemoveClaims.
Import Lua Writer.
Variable validate : document → document → bool.

Lemma filter_all {A} (f : A → bool) l :
  (∀ x, x ∈ l → f x = true) → List.filter f l = l.
Proof.
  induction l as [|x l IH]; intros H; simpl; [done|].
  rewrite (H x) by apply list_elem_of_here.
  rewrite IH; [done|]. intros y Hy. by apply H, list_elem_of_further.
Qed.

Lemma filter_none {A} (f : A → bool) l :
  (∀ x, x ∈ l → f x = false) → List.filter f l = [].
Proof.
  induction l as [|x l IH]; intros H; simpl; [done|].
  rewrite (H x) by apply list_elem_of_here.
  apply IH. intros y Hy. by apply H, list_elem_of_further.
Qed.

(** Ids that are in no member listing are all counted as not found, and
    the text stays as it is. *)
Lemma remove_fold_absent ids : ∀ d r n,
  (∀ id, id ∈ ids → listed id d = false) →
  foldl remove_item_step (d, {| removed := r; not_found := n |}) ids
  = (d, {| removed := r; not_found := (n + length ids)%nat |}).
Proof.
  induction ids as [|x ids IH]; intros d r n H; simpl.
  - by rewrite Nat.add_0_r.
  - rewrite (H x) by apply list_elem_of_here. simpl.
    rewrite IH by (intros y Hy; by apply H, list_elem_of_further).
    do 2 f_equal. lia.
Qed.

(** C3. [remove_items] on a list of distinct ids reports as [removed] the
    number of ids found in some member listing and as [not_found] the
    number of ids found in none. When the call is committed and every id
    was listed, it reports all of them removed and none not found, the
    reloaded file lists none of them, and a second call with the same
    ids reports nothing removed and all of them not found. *)
Theorem remove_items_reports_removed_and_not_found
  (w : io) (stamp path : string) (fs : files) (d : document)
  (ids : list Z) (dry : bool) :
  loaded fs path = Some d →
  NoDup ids →
  goes_through validate w dry d (plan_remove_items ids d).1 →
  counts_of (remove_items validate ids dry w stamp path fs)
  = Some {| removed := length (List.filter (λ id, listed id d) ids);
            not_found :=
              length (List.filter (λ id, negb (listed id d)) ids) |} ∧
  (dry = false → (∀ id, id ∈ ids → listed id d = true) →
   counts_of (remove_items validate ids dry w stamp path fs)
   = Some {| removed := length ids; not_found := 0 |} ∧
   ∃ d1,
     loaded (files_after (remove_items validate ids dry w stamp path fs)) path
     = Some d1 ∧
     (∀ id, id ∈ ids → listed id d1 = false) ∧
     ∀ w2 stamp2 dry2,
       goes_through validate w2 dry2 d1 d1 →
       counts_of (remove_items validate ids dry2 w2 stamp2 path
                    (files_after
                       (remove_items validate ids dry w stamp path fs)))
       = Some {| removed := 0; not_found := length ids |}).
Proof.
  intros Hd Hnd Hok.
  destruct (remove_fold ids d {| removed := 0; not_found := 0 |} Hnd)
    as (H1 & H2 & H3). fold (plan_remove_items ids d) in H1, H2, H3.
  assert (Hc : counts_of (remove_items validate ids dry w stamp path fs)
               = Some (plan_remove_items ids d).2).
  { unfold remove_items. by apply transact_counts. }
  assert (Hcounts : (plan_remove_items ids d).2
            = {| removed := length (List.filter (λ id, listed id d) ids);
                 not_found :=
                   length (List.filter (λ id, negb (listed id d)) ids) |}).
  { destruct (plan_remove_items ids d).2 as [r n]. simpl in *. by subst. }
  split; [by rewrite Hc, Hcounts|].
  intros -> Hall. split.
  - rewrite Hc, Hcounts, filter_all by done.
    rewrite filter_none; [done|]. intros id Hid. by rewrite Hall.
  - exists (plan_remove_items ids d).1.
    split; [unfold remove_items; by rewrite (transact_file validate _ _ false w stamp path fs d)|].
    assert (Hgone : ∀ id, id ∈ ids →
                     listed id (plan_remove_items ids d).1 = false).
    { intros id Hid. rewrite H3, (bool_decide_eq_true_2 _ Hid).
      apply andb_false_r. }
    split; [done|]. intros w2 stamp2 dry2 Hok2.
    assert (Hplan : plan_remove_items ids (plan_remove_items ids d).1
                    = ((plan_remove_items ids d).1,
                       {| removed := 0; not_found := length ids |})).
    { unfold plan_remove_items at 1. by rewrite remove_fold_absent. }
    assert (Hl2 : loaded (files_after
                            (remove_items validate ids false w stamp path fs))
                         path = Some (plan_remove_items ids d).1).
    { unfold remove_items.
      by rewrite (transact_file validate _ _ false w stamp path fs d). }
    assert (Hok2' : goes_through validate w2 dry2 (plan_remove_items ids d).1
                      (plan_remove_items ids (plan_remove_items ids d).1).1)
      by by rewrite Hplan.
    destruct (transact_counts validate {| removed := 0; not_found := 0 |}
                (plan_remove_items ids) dry2 w2 stamp2 path _ _ Hl2 Hok2')
      as [Hc2 _].
    unfold remove_items at 1. by rewrite Hc2, Hplan.
Qed.

End RemoveClaims.

Lemma remove_items_reports_removed_and_not_found_witness :
  Writer.counts_of
    (Writer.remove_items Samples.plain_paths [100; 55] false Samples.all_ok
       ".20240101" "TradeSkillMaster.lua" Samples.armor_files)
  = Some {| Writer.removed := 1; Writer.not_found := 1 |}.
Proof.
  destruct (remove_items_reports_removed_and_not_found
              Samples.plain_paths Samples.all_ok ".20240101"
              "TradeSkillMaster.lua" Samples.armor_files Samples.armor_doc
              [100; 55] false) as [H _].
  - reflexivity.
  - repeat constructor; intros H;
      repeat (apply elem_of_cons in H as [Heq|H]; [discriminate Heq|]);
      by apply elem_of_nil in H.
  - intros _. repeat split; reflexivity.
  - exact H.
Defined.


Section AddGroupClaims.
Import Lua Writer.
Variable validate : document → document → bool.

Lemma has_group_iff p d :
  has_group p d = true ↔ p ∈ g_path <$> doc_groups d.
Proof.
  unfold has_group, parse_groups.
  rewrite bool_decide_eq_true. apply elem_of_remove_dups.
Qed.

Lemma plan_add_new_group p d :
  has_group p d = false →
  plan_add_groups [p] d
  = (with_groups d (doc_groups d ++ [{| g_path := p; g_members := [] |}]),
     {| added := 1; skipped := 0 |}).
Proof. intros H. unfold plan_add_groups. simpl. by rewrite H. Qed.

Lemma plan_add_known_group p d :
  has_group p d = true →
  plan_add_groups [p] d = (d, {| added := 0; skipped := 1 |}).
Proof. intros H. unfold plan_add_groups. simpl. by rewrite H. Qed.

Lemma no_entry_for_missing_group p d :
  has_group p d = false →
  filter (λ g, g_path g = p) (doc_groups d) = [].
Proof.
  intros H. apply not_true_iff_false in H. rewrite has_group_iff in H.
  induction (doc_groups d) as [|g gs IH]; [done|].
  rewrite fmap_cons, not_elem_of_cons in H. destruct H as [Hg Hgs].
  rewrite filter_cons, decide_False by done. by apply IH.
Qed.

(** C4. On a file without the group [p], a committed [add_groups [p]]
    reports one group added and none skipped and appends the one entry
    for [p] at the end of the groups section; a second call with the same
    path reports none added and one skipped and leaves the file with that
    single entry for [p]. *)
Theorem add_groups_twice_adds_once
  (w : io) (stamp path : string) (fs : files) (d : document) (p : string) :
  loaded fs path = Some d →
  has_group p d = false →
  goes_through validate w false d (plan_add_groups [p] d).1 →
  counts_of (add_groups validate [p] false w stamp path fs)
  = Some {| added := 1; skipped := 0 |} ∧
  ∃ d1,
    loaded (files_after (add_groups validate [p] false w stamp path fs)) path
    = Some d1 ∧
    doc_groups d1 = doc_groups d ++ [{| g_path := p; g_members := [] |}] ∧
    length (filter (λ g, g_path g = p) (doc_groups d1)) = 1%nat ∧
    ∀ w2 stamp2 dry2,
      goes_through validate w2 dry2 d1 d1 →
      counts_of (add_groups validate [p] dry2 w2 stamp2 path
                   (files_after (add_groups validate [p] false w stamp path fs)))
      = Some {| added := 0; skipped := 1 |} ∧
      loaded (files_after
                (add_groups validate [p] dry2 w2 stamp2 path
                   (files_after
                      (add_groups validate [p] false w stamp path fs)))) path
      = Some d1.
Proof.
  intros Hd Hnew Hok. pose proof (plan_add_new_group p d Hnew) as Hplan.
  set (d1 := with_groups d (doc_groups d ++ [{| g_path := p; g_members := [] |}])).
  fold d1 in Hplan.
  destruct (transact_counts validate no_adds (plan_add_groups [p]) false
              w stamp path fs d Hd Hok) as [Hc _].
  pose proof (transact_file validate no_adds (plan_add_groups [p]) false
                w stamp path fs d Hd Hok) as Hf.
  rewrite Hplan in Hc, Hf. simpl in Hc, Hf.
  unfold add_groups. split; [done|].
  exists d1. split; [done|]. split; [done|]. split.
  - unfold d1. simpl. rewrite filter_app, (no_entry_for_missing_group p d Hnew).
    rewrite filter_cons, decide_True by done. done.
  - intros w2 stamp2 dry2 Hok2.
    assert (Hknown : has_group p d1 = true).
    { apply has_group_iff. unfold d1. simpl. rewrite fmap_app.
      apply elem_of_app. right. apply list_elem_of_here. }
    pose proof (plan_add_known_group p d1 Hknown) as Hplan2.
    assert (Hok2' : goes_through validate w2 dry2 d1 (plan_add_groups [p] d1).1)
      by by rewrite Hplan2.
    destruct (transact_counts validate no_adds (plan_add_groups [p]) dry2
                w2 stamp2 path _ d1 Hf Hok2') as [Hc2 _].
    pose proof (transact_file validate no_adds (plan_add_groups [p]) dry2
                  w2 stamp2 path _ d1 Hf Hok2') as Hf2.
    rewrite Hplan2 in Hc2, Hf2. simpl in Hc2, Hf2.
    split; [exact Hc2|]. rewrite Hf2. by destruct dry2.
Qed.

End AddGroupClaims.

Lemma add_groups_twice_adds_once_witness :
  Writer.counts_of
    (Writer.add_groups Samples.plain_paths ["Weapons"] false Samples.all_ok
       ".20240101" "TradeSkillMaster.lua" Samples.armor_files)
  = Some {| Writer.added := 1; Writer.skipped := 0 |}.
Proof.
  destruct (add_groups_twice_adds_once
              Samples.plain_paths Samples.all_ok ".20240101"
              "TradeSkillMaster.lua" Samples.armor_files Samples.armor_doc
              "Weapons") as [H _].
  - reflexivity.
  - reflexivity.
  - intros _. repeat split; reflexivity.
  - exact H.
Defined.

(** ** The read paths *)

Section ReadFacts.
Import Lua App.

Lemma bind_run {A B} (m : M A) (f : A → M B) w :
  (m ≫= f) w
  = let '(a, w1, t1) := m w in
    let '(b, w2, t2) := f a w1 in (b, w2, t1 ++ t2).
Proof. reflexivity. Qed.

Lemma events_bind {A B} (m : M A) (f : A → M B) w :
  events_of (m ≫= f) w
  = events_of m w ++ events_of (f (value_of m w)) (world_after m w).
Proof.
  unfold events_of, value_of, world_after. rewrite bind_run.
  destruct (m w) as [[a w1] t1]. simpl. by destruct (f a w1) as [[b w2] t2].
Qed.

Lemma world_bind {A B} (m : M A) (f : A → M B) w :
  world_after (m ≫= f) w = world_after (f (value_of m w)) (world_after m w).
Proof.
  unfold value_of, world_after. rewrite bind_run.
  destruct (m w) as [[a w1] t1]. simpl. by destruct (f a w1) as [[b w2] t2].
Qed.

Lemma value_bind {A B} (m : M A) (f : A → M B) w :
  value_of (m ≫= f) w = value_of (f (value_of m w)) (world_after m w).
Proof.
  unfold value_of, world_after. rewrite bind_run.
  destruct (m w) as [[a w1] t1]. simpl. by destruct (f a w1) as [[b w2] t2].
Qed.

(** [load] always returns, and says success exactly when it holds a
    document. *)
Lemma load_returns fs path :
  ∃ ok od, Lua.load fs path = Returns (ok, od) ∧ (ok = true ↔ is_Some od).
Proof.
  unfold Lua.load. destruct (fs !! path) as [[d|raw]|].
  - exists true, (Some d). split; [done|]. split; eauto.
  - exists false, None. split; [done|]. split; [done|by intros [? ?]].
  - exists false, None. split; [done|]. split; [done|by intros [? ?]].
Qed.

Lemma parser_load_ok w d :
  loaded (fs w) (tsm_path w) = Some d →
  parser_load w = (Returns (Some d), w, [NewParser; LoadCalled true]).
Proof.
  intros H. apply loaded_lookup in H. unfold parser_load, Lua.load.
  by rewrite H.
Qed.

Lemma parser_load_failed w :
  loaded (fs w) (tsm_path w) = None →
  parser_load w = (Returns None, w, [NewParser; LoadCalled false]).
Proof.
  unfold loaded, parser_load, Lua.load.
  by destruct (fs w !! tsm_path w) as [[d|raw]|].
Qed.

Lemma parser_load_cases w :
  (∃ d, loaded (fs w) (tsm_path w) = Some d ∧
        parser_load w = (Returns (Some d), w, [NewParser; LoadCalled true])) ∨
  (loaded (fs w) (tsm_path w) = None ∧
   parser_load w = (Returns None, w, [NewParser; LoadCalled false])).
Proof.
  destruct (loaded (fs w) (tsm_path w)) as [d|] eqn:E.
  - left. exists d. split; [done|]. by apply parser_load_ok.
  - right. split; [done|]. by apply parser_load_failed.
Qed.

(** *** Nothing on a read path writes a file *)

Lemma keeps_files_ret {A} (a : A) : keeps_files (mret a).
Proof. by intros w. Qed.


Lemma keeps_files_emit e : keeps_files (emit e).
Proof. by intros w. Qed.

Lemma keeps_files_set_existing_ids ids : keeps_files (set_existing_ids ids).
Proof. by intros w. Qed.

Lemma keeps_files_set_existing_groups gs : keeps_files (set_existing_groups gs).
Proof. by intros w. Qed.

Lemma keeps_files_set_current_parser d : keeps_files (set_current_parser d).
Proof. by intros w. Qed.

Lemma keeps_files_record_scrape cat r : keeps_files (record_scrape cat r).
Proof. by intros w. Qed.

Lemma keeps_files_get_existing_ids : keeps_files get_existing_ids.
Proof. by intros w. Qed.

Lemma keeps_files_parser_load : keeps_files parser_load.
Proof.
  intros w. unfold world_after.
  by destruct (parser_load_cases w) as [(d & _ & ->)|[_ ->]].
Qed.

Create HintDb frame discriminated.
#[local] Hint Resolve keeps_files_ret keeps_files_emit
  keeps_files_set_existing_ids keeps_files_set_existing_groups
  keeps_files_set_current_parser keeps_files_record_scrape
  keeps_files_get_existing_ids keeps_files_parser_load : frame.










End ReadFacts.

(** *** Parse calls come after a successful load *)

Section GuardFacts.
Import Lua App.
Variable get_group_hierarchy : document → gmap string (list string).
Variable ALL_CATEGORIES : gmap string (string * option Z * string).
Variable scrape : string → string * option Z * string → scrape_answer.

Lemma guarded_quiet ok t : forallb quiet t = true → guarded ok t = true.
Proof.
  induction t as [|e t IH]; [done|]. simpl.
  intros [He Ht]%andb_true_iff. destruct e; try done; by apply IH.
Qed.

Lemma no_parse_quiet t : forallb quiet t = true → existsb is_parse t = false.
Proof.
  induction t as [|e t IH]; [done|]. simpl.
  intros [He Ht]%andb_true_iff. rewrite (IH Ht). by destruct e.
Qed.

Lemma guarded_app_quiet ok t1 t2 :
  guarded ok t1 = true → forallb quiet t2 = true → guarded ok (t1 ++ t2) = true.
Proof.
  revert ok. induction t1 as [|e t1 IH]; intros ok H1 H2; simpl.
  - by apply guarded_quiet.
  - destruct e; simpl in *; try (by apply IH).
    + apply andb_true_iff in H1 as [-> H1]. simpl. by apply IH.
    + apply andb_true_iff in H1 as [-> H1]. simpl. by apply IH.
Qed.

Lemma no_parse_app t1 t2 :
  existsb is_parse (t1 ++ t2) = existsb is_parse t1 || existsb is_parse t2.
Proof. apply existsb_app. Qed.

Lemma scrape_loop_quiet categories : ∀ tf tn w,
  forallb quiet (events_of (scrape_loop ALL_CATEGORIES scrape categories tf tn) w)
  = true.
Proof.
  induction categories as [|c cs IH]; intros tf tn w; simpl; [done|].
  destruct (ALL_CATEGORIES !! c) as [info|]; [|apply IH].
  rewrite events_bind. simpl.
  destruct (scrape c info) as [ids| |msg]; [|apply IH|done].
  rewrite !events_bind. simpl. apply IH.
Qed.

Lemma scrape_and_report_quiet categories w :
  forallb quiet (events_of (scrape_and_report ALL_CATEGORIES scrape categories) w)
  = true.
Proof.
  unfold scrape_and_report. rewrite events_bind, forallb_app.
  rewrite scrape_loop_quiet. simpl.
  destruct (value_of _ w) as [[tf tn]|msg]; [|done].
  rewrite !events_bind. simpl. by destruct (0 <? tn)%nat.
Qed.

(** The events of [run_scrape], by the result of the load. *)
Lemma run_scrape_events categories w :
  events_of (run_scrape ALL_CATEGORIES scrape categories) w
  = events_of refresh_existing_ids w
    ++ events_of (scrape_and_report ALL_CATEGORIES scrape categories)
                 (world_after refresh_existing_ids w)
    ++ [ScrapeEnabled].
Proof.
  unfold run_scrape. rewrite events_bind. f_equal.
  rewrite events_bind. f_equal.
  unfold value_of, refresh_existing_ids. rewrite bind_run.
  destruct (parser_load_cases w) as [(d & _ & ->)|[_ ->]]; reflexivity.
Qed.

Lemma refresh_existing_ids_events w :
  events_of refresh_existing_ids w
  = match loaded (fs w) (tsm_path w) with
    | Some _ => [NewParser; LoadCalled true; ParseItemsCalled]
    | None => [NewParser; LoadCalled false]
    end.
Proof.
  unfold events_of, refresh_existing_ids. rewrite bind_run.
  destruct (parser_load_cases w) as [(d & -> & ->)|[-> ->]]; reflexivity.
Qed.

Lemma refresh_existing_ids_world w :
  world_after refresh_existing_ids w
  = match loaded (fs w) (tsm_path w) with
    | Some d =>
        {| fs := fs w; tsm_path := tsm_path w;
           existing_ids := get_existing_item_ids d;
           existing_groups := existing_groups w;
           current_parser := current_parser w;
           scrape_results := scrape_results w |}
    | None => w
    end.
Proof.
  unfold world_after, refresh_existing_ids. rewrite bind_run.
  destruct (parser_load_cases w) as [(d & -> & ->)|[-> ->]]; reflexivity.
Qed.

Lemma load_tsm_info_events w :
  events_of load_tsm_info w
  = match loaded (fs w) (tsm_path w) with
    | Some _ =>
        [NewParser; LoadCalled true; ParseItemsCalled; ParseGroupsCalled;
         InfoLabel "items and groups" Success; Logged "Loaded" Success;
         RefreshScheduled]
    | None =>
        [NewParser; LoadCalled false; InfoLabel "Could not load file" Error;
         Logged "Failed to load TSM file" Error]
    end.
Proof.
  unfold events_of, load_tsm_info. rewrite bind_run.
  destruct (parser_load_cases w) as [(d & -> & ->)|[-> ->]]; reflexivity.
Qed.

Lemma do_refresh_events w :
  events_of (_do_refresh_groups_panel get_group_hierarchy) w
  = match loaded (fs w) (tsm_path w) with
    | Some d =>
        [PanelCleared; NewParser; LoadCalled true; ParseItemsCalled;
         ParseGroupsCalled;
         PanelRows (Groups.root_groups (get_group_hierarchy d));
         GroupsCount (length (parse_groups d))]
    | None =>
        [PanelCleared; NewParser; LoadCalled false;
         PanelLabel "Load TSM file first" Info]
    end.
Proof.
  unfold _do_refresh_groups_panel. rewrite events_bind.
  change (world_after (emit PanelCleared) w) with w.
  change (events_of (emit PanelCleared) w) with [PanelCleared].
  unfold events_of. rewrite bind_run.
  destruct (parser_load_cases w) as [(d & -> & ->)|[-> ->]]; reflexivity.
Qed.

Lemma get_user_groups_list_run w :
  get_user_groups_list w
  = match loaded (fs w) (tsm_path w) with
    | Some d => (PyStr.sorted id (parse_groups d), w,
                 [NewParser; LoadCalled true; ParseGroupsCalled])
    | None => ([], w, [NewParser; LoadCalled false])
    end.
Proof.
  unfold get_user_groups_list. rewrite bind_run.
  destruct (parser_load_cases w) as [(d & -> & ->)|[-> ->]]; reflexivity.
Qed.

End GuardFacts.

Section GuardClaims.
Import Lua App.
Variable get_group_hierarchy : document → gmap string (list string).
Variable ALL_CATEGORIES : gmap string (string * option Z * string).
Variable scrape : string → string * option Z * string → scrape_answer.

Lemma read_events c w :
  events_of (read get_group_hierarchy ALL_CATEGORIES scrape c) w
  = match c with
    | LoadTsmInfo => events_of load_tsm_info w
    | DoRefreshGroupsPanel =>
        events_of (_do_refresh_groups_panel get_group_hierarchy) w
    | GetUserGroupsList => (get_user_groups_list w).2
    | RefreshExistingIds => events_of refresh_existing_ids w
    | RunScrape categories =>
        events_of (run_scrape ALL_CATEGORIES scrape categories) w
    end.
Proof.
  destruct c; simpl; try done.
  - rewrite events_bind. simpl. apply app_nil_r.
  - rewrite events_bind. simpl. apply app_nil_r.
Qed.

Lemma read_guarded c w :
  guarded false (events_of (read get_group_hierarchy ALL_CATEGORIES scrape c) w)
  = true.
Proof.
  rewrite read_events. destruct c.
  - rewrite load_tsm_info_events. by destruct (loaded _ _).
  - rewrite do_refresh_events. by destruct (loaded _ _).
  - rewrite get_user_groups_list_run. by destruct (loaded _ _).
  - rewrite refresh_existing_ids_events. by destruct (loaded _ _).
  - rewrite run_scrape_events, app_assoc. apply guarded_app_quiet; [|done].
    apply guarded_app_quiet; [|apply scrape_and_report_quiet].
    rewrite refresh_existing_ids_events. by destruct (loaded _ _).
Qed.

(** C2, as the code has it. [load] never raises: it returns success with
    a document or failure without one. On each read path the parse
    methods are called only on a parser object whose [load] returned
    success, and none is called when [load] returned failure. On failure
    [load_tsm_info] shows and logs an error and [_do_refresh_groups_panel]
    shows the label "Load TSM file first"; [get_user_groups_list] returns
    the empty list and the refresh at the start of [run_scrape] returns,
    both without any message and without changing the program state, and
    [run_scrape] goes on to scrape. *)
Theorem read_paths_parse_only_after_successful_load (c : read_call) (w : world) :
  guarded false (events_of (read get_group_hierarchy ALL_CATEGORIES scrape c) w)
  = true ∧
  (loaded (fs w) (tsm_path w) = None →
   existsb is_parse
     (events_of (read get_group_hierarchy ALL_CATEGORIES scrape c) w) = false ∧
   match c with
   | LoadTsmInfo =>
       events_of load_tsm_info w
       = [NewParser; LoadCalled false; InfoLabel "Could not load file" Error;
          Logged "Failed to load TSM file" Error]
   | DoRefreshGroupsPanel =>
       events_of (_do_refresh_groups_panel get_group_hierarchy) w
       = [PanelCleared; NewParser; LoadCalled false;
          PanelLabel "Load TSM file first" Info]
   | GetUserGroupsList =>
       get_user_groups_list w = ([], w, [NewParser; LoadCalled false])
   | RefreshExistingIds =>
       refresh_existing_ids w = (Returns tt, w, [NewParser; LoadCalled false])
   | RunScrape categories =>
       events_of (run_scrape ALL_CATEGORIES scrape categories) w
       = [NewParser; LoadCalled false]
         ++ events_of (scrape_and_report ALL_CATEGORIES scrape categories) w
         ++ [ScrapeEnabled]
   end) ∧
  (∀ fs path, ∃ ok od,
     Lua.load fs path = Returns (ok, od) ∧ (ok = true ↔ is_Some od)).
Proof.
  split; [apply read_guarded|]. split; [|apply load_returns].
  intros Hfail. rewrite read_events. destruct c.
  - rewrite load_tsm_info_events, Hfail. by split.
  - rewrite do_refresh_events, Hfail. by split.
  - rewrite get_user_groups_list_run, Hfail. by split.
  - rewrite refresh_existing_ids_events, Hfail. split; [done|].
    unfold refresh_existing_ids. rewrite bind_run.
    by rewrite (parser_load_failed w Hfail).
  - rewrite run_scrape_events, refresh_existing_ids_events.
    rewrite refresh_existing_ids_world, Hfail. split; [|done].
    rewrite !no_parse_app. simpl.
    by rewrite (no_parse_quiet _ (scrape_and_report_quiet _ _ _ _)).
Qed.

End GuardClaims.

Lemma read_paths_parse_only_after_successful_load_witness :
  App.events_of App.load_tsm_info Samples.no_file_world
  = [App.NewParser; App.LoadCalled false;
     App.InfoLabel "Could not load file" App.Error;
     App.Logged "Failed to load TSM file" App.Error].
Proof.
  destruct (read_paths_parse_only_after_successful_load
              Samples.flat_hierarchy Samples.one_category Samples.three_items
              App.LoadTsmInfo Samples.no_file_world) as (_ & H & _).
  apply H. reflexivity.
Defined.

(** C2 as stated fails: with no file at the configured path [load]
    returns failure, yet [run_scrape] and [get_user_groups_list] show no
    error, no label and no log line about it; [run_scrape] filters what
    it scraped with the ids it still holds from before. *)
Lemma load_failure_shown_by_two_read_paths_only :
  Lua.loaded (App.fs Samples.no_file_world)
             (App.tsm_path Samples.no_file_world) = None ∧
  existsb App.is_notice
    (App.events_of
       (App.run_scrape Samples.one_category Samples.three_items ["cloth"])
       Samples.no_file_world) = false ∧
  existsb App.is_notice
    (App.events_of App.get_user_groups_list Samples.no_file_world) = false ∧
  App.new_ids <$>
    (App.scrape_results
       (App.world_after
          (App.run_scrape Samples.one_category Samples.three_items ["cloth"])
          Samples.no_file_world) !! "cloth") = Some [200; 7].
Proof. repeat split; vm_compute; reflexivity. Qed.

(** *** What [run_scrape] records *)

Section ScrapeClaims.
Import Lua App.
Variable ALL_CATEGORIES : gmap string (string * option Z * string).
Variable scrape : string → string * option Z * string → scrape_answer.

Lemma scrape_loop_keeps_ids categories : ∀ tf tn w,
  existing_ids (world_after (scrape_loop ALL_CATEGORIES scrape categories tf tn) w)
  = existing_ids w.
Proof.
  induction categories as [|c cs IH]; intros tf tn w; simpl; [done|].
  destruct (ALL_CATEGORIES !! c) as [info|]; [|apply IH].
  rewrite world_bind. simpl.
  destruct (scrape c info) as [ids| |msg]; [|apply IH|done].
  rewrite !world_bind. simpl. by rewrite IH.
Qed.

(** Every entry after the loop was there before or was written by it. *)
Lemma scrape_loop_results categories : ∀ tf tn w cat r,
  scrape_results
    (world_after (scrape_loop ALL_CATEGORIES scrape categories tf tn) w) !! cat
  = Some r →
  scrape_results w !! cat = Some r ∨
  written_for ALL_CATEGORIES scrape (existing_ids w) categories cat r.
Proof.
  induction categories as [|c cs IH]; intros tf tn w cat r; simpl; [by left|].
  destruct (ALL_CATEGORIES !! c) as [info|] eqn:Hinfo.
  - rewrite world_bind. simpl.
    destruct (scrape c info) as [ids| |msg] eqn:Hs.
    + rewrite !world_bind. simpl. intros H.
      apply IH in H as [H|(i & l & Hin & Hi & Hl & ->)]; simpl in *.
      * destruct (decide (c = cat)) as [->|Hne].
        -- rewrite lookup_insert_eq in H. injection H as <-.
           right. exists info, ids. repeat split; try done.
           apply list_elem_of_here.
        -- rewrite lookup_insert_ne in H by done. by left.
      * right. exists i, l. repeat split; try done.
        by apply list_elem_of_further.
    + intros H. apply IH in H as [H|(i & l & Hin & Hi & Hl & ->)]; [by left|].
      right. exists i, l. repeat split; try done.
      by apply list_elem_of_further.
    + by left.
  - intros H. apply IH in H as [H|(i & l & Hin & Hi & Hl & ->)]; [by left|].
    right. exists i, l. repeat split; try done. by apply list_elem_of_further.
Qed.

(** When no scrape raises, the loop leaves an entry for every category
    it scraped, and an entry that was right before stays right. *)
Lemma scrape_loop_complete categories : ∀ tf tn w cat info ids,
  (∀ c i msg, c ∈ categories → scrape c i ≠ ScrapeRaised msg) →
  ALL_CATEGORIES !! cat = Some info → scrape cat info = Ids ids →
  cat ∈ categories ∨
  scrape_results w !! cat = Some (recorded (existing_ids w) info ids) →
  scrape_results
    (world_after (scrape_loop ALL_CATEGORIES scrape categories tf tn) w) !! cat
  = Some (recorded (existing_ids w) info ids).
Proof.
  induction categories as [|c cs IH]; intros tf tn w cat info ids Hok Hi Hs H.
  - destruct H as [H|H]; [by apply elem_of_nil in H|done].
  - assert (Hok' : ∀ c' i msg, c' ∈ cs → scrape c' i ≠ ScrapeRaised msg).
    { intros c' i msg Hc'. apply Hok. by apply list_elem_of_further. }
    assert (Hstay : cat ≠ c → cat ∈ cs ∨
              scrape_results w !! cat = Some (recorded (existing_ids w) info ids)).
    { intros Hne. destruct H as [H|H]; [|by right].
      apply elem_of_cons in H as [->|H]; [done|by left]. }
    simpl. destruct (ALL_CATEGORIES !! c) as [info'|] eqn:Hinfo.
    + rewrite world_bind. simpl.
      destruct (scrape c info') as [ids'| |msg] eqn:Hs'.
      * rewrite !world_bind. simpl.
        erewrite IH; [done|done|done|done|]. simpl.
        destruct (decide (cat = c)) as [->|Hne].
        -- right. rewrite lookup_insert_eq.
           rewrite Hi in Hinfo. injection Hinfo as <-.
           rewrite Hs in Hs'. by injection Hs' as <-.
        -- destruct (Hstay Hne) as [?|?]; [by left|right].
           by rewrite lookup_insert_ne.
      * destruct (decide (cat = c)) as [->|Hne]; [congruence|].
        apply IH; auto.
      * exfalso. eapply Hok; [apply list_elem_of_here|exact Hs'].
    + destruct (decide (cat = c)) as [->|Hne]; [congruence|].
      apply IH; auto.
Qed.

Lemma scrape_and_report_world categories w :
  world_after (scrape_and_report ALL_CATEGORIES scrape categories) w
  = world_after (scrape_loop ALL_CATEGORIES scrape categories 0 0) w.
Proof.
  unfold scrape_and_report. rewrite world_bind.
  destruct (value_of _ w) as [[tf tn]|msg]; [|done].
  rewrite !world_bind. simpl. by destruct (0 <? tn)%nat.
Qed.

Lemma run_scrape_world categories w :
  world_after (run_scrape ALL_CATEGORIES scrape categories) w
  = world_after (scrape_loop ALL_CATEGORIES scrape categories 0 0)
                (world_after refresh_existing_ids w).
Proof.
  unfold run_scrape. rewrite world_bind, world_bind.
  change (world_after (emit ScrapeEnabled) ?x) with x.
  assert (Hv : ∃ u, value_of refresh_existing_ids w = Returns u).
  { unfold value_of, refresh_existing_ids. rewrite bind_run.
    destruct (parser_load_cases w) as [(d & _ & ->)|[_ ->]]; by exists tt. }
  destruct Hv as [u ->]. apply scrape_and_report_world.
Qed.

(** C8. When the load at the start of [run_scrape] succeeds, the set the
    scrape filters with is the one [get_existing_item_ids] gives for the
    file just loaded; every entry of [scrape_results] that was not there
    before belongs to a category of this run and holds the default
    group, the number of ids scraped and, as [new_ids], the scraped ids
    that are not in that set, in scraped order; no id of the file is
    among them. When no scrape raises, every category of the run that is
    in the table and whose scrape gave ids has that entry. *)
Theorem run_scrape_records_ids_not_in_file
  (categories : list string) (w : world) (d : document) :
  loaded (fs w) (tsm_path w) = Some d →
  existing_ids (world_after (run_scrape ALL_CATEGORIES scrape categories) w)
  = get_existing_item_ids d ∧
  (∀ cat r,
     scrape_results
       (world_after (run_scrape ALL_CATEGORIES scrape categories) w) !! cat
     = Some r →
     scrape_results w !! cat = Some r ∨
     (∃ info ids,
        cat ∈ categories ∧ ALL_CATEGORIES !! cat = Some info ∧
        scrape cat info = Ids ids ∧
        tsm_group r = info.2 ∧ found r = length ids ∧
        new_ids r = filter (λ i, i ∉ get_existing_item_ids d) ids ∧
        Forall (λ i, i ∉ get_existing_item_ids d) (new_ids r))) ∧
  ((∀ c i msg, c ∈ categories → scrape c i ≠ ScrapeRaised msg) →
   ∀ cat info ids,
     cat ∈ categories → ALL_CATEGORIES !! cat = Some info →
     scrape cat info = Ids ids →
     scrape_results
       (world_after (run_scrape ALL_CATEGORIES scrape categories) w) !! cat
     = Some (recorded (get_existing_item_ids d) info ids)).
Proof.
  intros Hd. rewrite run_scrape_world, refresh_existing_ids_world, Hd.
  set (w1 := {| fs := fs w; tsm_path := tsm_path w;
                existing_ids := get_existing_item_ids d;
                existing_groups := existing_groups w;
                current_parser := current_parser w;
                scrape_results := scrape_results w |}).
  split; [by rewrite scrape_loop_keeps_ids|]. split.
  - intros cat r H.
    apply scrape_loop_results in H as [H|(info & ids & Hin & Hi & Hs & ->)];
      [by left|right].
    exists info, ids. simpl. repeat split; try done.
    unfold not_existing. apply Forall_forall.
    by intros i [Hi' _]%list_elem_of_filter.
  - intros Hok cat info ids Hin Hi Hs.
    apply (scrape_loop_complete categories 0%nat 0%nat w1 cat info ids);
      auto.
Qed.

End ScrapeClaims.

Lemma run_scrape_records_ids_not_in_file_witness :
  App.existing_ids
    (App.world_after
       (App.run_scrape Samples.one_category Samples.three_items ["cloth"])
       Samples.armor_world)
  = Lua.get_existing_item_ids Samples.armor_doc ∧
  App.new_ids <$>
    (App.scrape_results
       (App.world_after
          (App.run_scrape Samples.one_category Samples.three_items ["cloth"])
          Samples.armor_world) !! "cloth") = Some [200].
Proof.
  destruct (run_scrape_records_ids_not_in_file
              Samples.one_category Samples.three_items ["cloth"]
              Samples.armor_world Samples.armor_doc) as (H & _ & _).
  - reflexivity.
  - split; [exact H|]. vm_compute. reflexivity.
Defined.

(** ** Profiles *)

Section ProfileFacts.
Import Config Profiles.

Lemma saved_profiles_candidates a : saved_profiles a = take 5 (candidates a).
Proof. reflexivity. Qed.

Lemma candidates_cases a :
  (tsm_path a ≠ "" ∧ (tsm_path a ∉ get_profiles (app_config a)) ∧
   candidates a = tsm_path a :: get_profiles (app_config a)) ∨
  ((tsm_path a = "" ∨ tsm_path a ∈ get_profiles (app_config a)) ∧
   candidates a = get_profiles (app_config a)).
Proof.
  unfold candidates. destruct (String.eqb_spec (tsm_path a) "") as [He|Hne].
  - right. split; [by left|done].
  - simpl. case_bool_decide as Hin; simpl.
    + right. split; [by right|done].
    + left. done.
Qed.

(** X1. When at most five profiles are stored, as after any earlier
    save, a current path that is not empty is among the profiles
    [save_config] writes, and saving again writes the same
    configuration. *)
Theorem save_config_keeps_current_profile (a : app) :
  (length (get_profiles (app_config a)) ≤ 5)%nat →
  tsm_path a ≠ "" →
  tsm_path a ∈ saved_profiles a ∧
  (save_config true true (save_config true true a).1).2
  = (save_config true true a).2.
Proof.
  intros Hlen Hne.
  assert (Hin : tsm_path a ∈ saved_profiles a).
  { rewrite saved_profiles_candidates.
    destruct (candidates_cases a) as [(_ & _ & ->)|([He|Hin] & ->)].
    - simpl. apply list_elem_of_here.
    - done.
    - by rewrite take_ge. }
  split; [done|]. simpl. do 3 f_equal.
  unfold saved_profiles at 1. simpl.
  apply String.eqb_neq in Hne. rewrite Hne. simpl.
  rewrite (bool_decide_eq_true_2 _ Hin). simpl.
  apply take_ge, saved_profiles_length.
Qed.

Lemma save_config_keeps_current_profile_witness :
  Config.tsm_path Samples.five_profiles
  ∈ Config.saved_profiles Samples.five_profiles.
Proof.
  apply (save_config_keeps_current_profile Samples.five_profiles).
  - simpl. lia.
  - done.
Defined.



Section Names.
Variable name_of : string → string.

(** X3. The profile drop-down shows the file names of exactly the
    profiles [save_config] would write, in the same order, and the
    placeholder alone when there is none; it never has more than five
    entries and is never empty. *)
Theorem profile_names_are_those_of_saved_profiles (a : app) :
  get_profile_names name_of a
  = (if decide (saved_profiles a = []) then ["Select profile..."]
     else name_of <$> saved_profiles a) ∧
  (1 ≤ length (get_profile_names name_of a) ≤ 5)%nat.
Proof.
  unfold get_profile_names. rewrite <- saved_profiles_candidates.
  pose proof (saved_profiles_length a) as Hlen.
  destruct (saved_profiles a) as [|p ps] eqn:E; simpl.
  - split; [done|lia].
  - split; [done|]. rewrite length_fmap. simpl in Hlen. lia.
Qed.





End Names.
End ProfileFacts.


Section RemoveProfileFacts.
Import Config Profiles.
Variable name_of : string → string.


Lemma remove_first_subset x l y : y ∈ remove_first x l → y ∈ l.
Proof.
  induction l as [|z l IH]; simpl; [done|].
  destruct (String.eqb z x).
  - by apply list_elem_of_further.
  - intros [->|Hin]%elem_of_cons; [apply list_elem_of_here|].
    by apply list_elem_of_further, IH.
Qed.


End RemoveProfileFacts.


Section LoadConfigFacts.
Import Config Profiles.

(** X6. A configuration in the old format, with a path but no profile
    list, starts the program with that path as its only profile, and the
    first save writes exactly that list; a missing or unreadable
    configuration starts it with the default path, which the first save
    writes as the only profile. *)
Theorem load_config_migrates_old_format (c : config) (p : string) :
  profiles c = None → cfg_tsm_path c = Some p →
  tsm_path (init_app (Some c)) = p ∧
  get_profiles (app_config (init_app (Some c))) = [p] ∧
  saved_profiles (init_app (Some c)) = [p] ∧
  saved_profiles (init_app None) = [DEFAULT_TSM_PATH].
Proof.
  intros Hp Ht. unfold init_app, load_config. rewrite Hp, Ht. simpl.
  split; [done|]. split; [done|]. split; [|reflexivity].
  unfold saved_profiles, get_profiles. simpl.
  rewrite (bool_decide_eq_true_2 (p ∈ [p])) by apply list_elem_of_here.
  by rewrite andb_false_r.
Qed.

Lemma load_config_migrates_old_format_witness :
  saved_profiles
    (init_app (Some {| profiles := None; cfg_tsm_path := Some "old.lua";
                       others := ∅ |})) = ["old.lua"].
Proof.
  apply (load_config_migrates_old_format
           {| profiles := None; cfg_tsm_path := Some "old.lua"; others := ∅ |}
           "old.lua"); reflexivity.
Defined.

End LoadConfigFacts.

(** ** The theme editor *)

Section HexFacts.
Import PyStr Hex.

(** A hexadecimal digit is no white space, no sign, no underscore and
    not the letter of the prefix. *)
Lemma hex_digit_plain c d :
  hex_digit_of c = Some d →
  is_space c = false ∧ Ascii.eqb c "+" = false ∧ Ascii.eqb c "-" = false ∧
  Ascii.eqb c "_" = false ∧ Ascii.eqb c "x" = false ∧ Ascii.eqb c "X" = false.
Proof.
  destruct c as [[] [] [] [] [] [] [] []]; vm_compute; intros H;
    try discriminate H; repeat split.
Qed.

Lemma all_hex_lstrip s : all_hex s = true → lstrip s = s.
Proof.
  destruct s as [|c s]; [done|]. simpl.
  destruct (hex_digit_of c) as [d|] eqn:E; [|done].
  intros _. by rewrite (proj1 (hex_digit_plain c d E)).
Qed.

Lemma all_hex_rstrip s : all_hex s = true → rstrip s = s.
Proof.
  induction s as [|c s IH]; [done|]. simpl.
  destruct (hex_digit_of c) as [d|] eqn:E; [|done].
  intros Hs. by rewrite (proj1 (hex_digit_plain c d E)), (IH Hs).
Qed.

Lemma all_hex_skip_prefix s : all_hex s = true → skip_prefix s = s.
Proof.
  destruct s as [|c [|x r]]; [done| |].
  { intros _. by destruct c as [[] [] [] [] [] [] [] []]. }
  simpl all_hex.
  destruct (hex_digit_of c) as [d|] eqn:Ec; [|done].
  destruct (hex_digit_of x) as [e|] eqn:Ex; [|done]. intros _.
  destruct (hex_digit_plain x e Ex) as (_ & _ & _ & _ & Hx & HX).
  unfold skip_prefix.
  destruct c as [[] [] [] [] [] [] [] []]; try reflexivity.
  by rewrite Hx, HX.
Qed.

Lemma all_hex_digits s : ∀ acc b,
  all_hex s = true → (s ≠ "" ∨ b = true) → is_Some (hex_digits s acc b).
Proof.
  induction s as [|c s IH]; intros acc b Hs Hb; simpl.
  - destruct Hb as [? | ->]; [done|eauto].
  - simpl in Hs. destruct (hex_digit_of c) as [d|]; [|done].
    apply IH; [done|by right].
Qed.

Lemma all_hex_py_int16 s :
  all_hex s = true → s ≠ "" → is_Some (py_int16 s).
Proof.
  intros Hs Hne. unfold py_int16, strip.
  rewrite (all_hex_lstrip s Hs), (all_hex_rstrip s Hs).
  destruct s as [|c r]; [done|].
  assert (Hd : is_Some (hex_digits (skip_prefix (String c r)) 0 false)).
  { rewrite all_hex_skip_prefix by done. apply all_hex_digits; [done|by left]. }
  simpl in Hs. destruct (hex_digit_of c) as [d|] eqn:Ec; [|done].
  destruct (hex_digit_plain c d Ec) as (_ & Hp & Hm & _).
  destruct c as [[] [] [] [] [] [] [] []]; try exact Hd;
    vm_compute in Hp, Hm; discriminate.
Qed.

(** X7. [is_valid_hex] accepts every text made of the number sign and
    three or six hexadecimal digits, and whatever it accepts starts with
    the number sign and is four or seven characters long. *)
Theorem is_valid_hex_accepts_hex_colors :
  (∀ r, all_hex r = true →
        (String.length r = 3 ∨ String.length r = 6)%nat →
        is_valid_hex (String "#" r) = true) ∧
  (∀ value, is_valid_hex value = true →
            ∃ r, value = String "#" r ∧
                 (String.length r = 3 ∨ String.length r = 6)%nat).
Proof.
  split.
  - intros r Hr Hlen. unfold is_valid_hex. simpl.
    assert (Hne : r ≠ "") by (destruct r; [simpl in Hlen; lia|done]).
    destruct (all_hex_py_int16 r Hr Hne) as [z ->].
    by destruct Hlen as [-> | ->].
  - intros value. unfold is_valid_hex.
    destruct value as [|c r]; [done|].
    destruct (starts_with_hash (String c r)) eqn:Eh; [|done]. simpl negb.
    cbv iota.
    destruct ((String.length r =? 3)%nat || (String.length r =? 6)%nat)
      eqn:El; [|done].
    intros _. exists r. split.
    + destruct c as [[] [] [] [] [] [] [] []]; try discriminate Eh; reflexivity.
    + apply orb_true_iff in El as [El|El]; apply Nat.eqb_eq in El; auto.
Qed.

Lemma is_valid_hex_accepts_hex_colors_witness :
  is_valid_hex "#1aF" = true ∧ is_valid_hex "#00ff7F" = true.
Proof.
  destruct is_valid_hex_accepts_hex_colors as [H _].
  split; apply H; (reflexivity || (simpl; lia)).
Defined.

(** X8. [is_valid_hex] also accepts texts that are no colour: for every
    hexadecimal digit [h], the number sign followed by the prefix [0x]
    and [h], by a sign, a zero and [h], by a zero, an underscore and [h],
    or by two blanks and [h]. *)
Theorem is_valid_hex_accepts_more_than_colors (h : ascii) :
  hex_digit_of h ≠ None →
  is_valid_hex (String "#" (String "0" (String "x" (String h "")))) = true ∧
  is_valid_hex (String "#" (String "-" (String "0" (String h "")))) = true ∧
  is_valid_hex (String "#" (String "0" (String "_" (String h "")))) = true ∧
  is_valid_hex (String "#" (String " " (String " " (String h "")))) = true.
Proof.
  destruct h as [[] [] [] [] [] [] [] []]; vm_compute; intros H;
    try (by destruct H); repeat split.
Qed.

Lemma is_valid_hex_accepts_more_than_colors_witness :
  is_valid_hex "#0xf" = true.
Proof.
  apply (is_valid_hex_accepts_more_than_colors "f"). by vm_compute.
Defined.

End HexFacts.

(** ** The window *)

Section WindowFacts.
Import Window.

(** X9. When [restore_window_position] places the window, and the
    window and the screen are at least 100 wide and high, at least 100
    by 100 of the window lies on the screen. *)
Theorem restored_window_is_visible
  (x y width height screen_width screen_height : Z) :
  100 ≤ width → 100 ≤ height → 100 ≤ screen_width → 100 ≤ screen_height →
  restore_window_position (Some x) (Some y) width height
    screen_width screen_height = SizeAt width height x y →
  100 ≤ visible x width screen_width ∧ 100 ≤ visible y height screen_height.
Proof.
  intros Hw Hh Hsw Hsh. unfold restore_window_position, visible.
  destruct (x <? screen_width - 100) eqn:E1; [|done].
  destruct (y <? screen_height - 100) eqn:E2; [|done].
  destruct (- width + 100 <? x) eqn:E3; [|done].
  destruct (- height + 100 <? y) eqn:E4; [|done].
  intros _. lia.
Qed.

Lemma restored_window_is_visible_witness :
  100 ≤ visible (-800) 1000 1920 ∧ 100 ≤ visible 900 750 1080.
Proof.
  apply (restored_window_is_visible (-800) 900 1000 750 1920 1080);
    (lia || reflexivity).
Defined.

(** X10. A stored position that would leave less than 100 of the window
    on the screen on some side is not used: the window gets its stored
    size only; so it does when no position is stored. *)
Theorem restore_window_position_rejects_offscreen
  (x y : option Z) (width height screen_width screen_height : Z) :
  (x = None ∨ y = None ∨
   (∃ x0 y0, x = Some x0 ∧ y = Some y0 ∧
      (screen_width - 100 ≤ x0 ∨ screen_height - 100 ≤ y0 ∨
       x0 + width ≤ 100 ∨ y0 + height ≤ 100))) →
  restore_window_position x y width height screen_width screen_height
  = Size width height.
Proof.
  intros [->|[->|(x0 & y0 & -> & -> & H)]]; [done|by destruct x|].
  unfold restore_window_position.
  destruct (x0 <? screen_width - 100) eqn:E1; [|done].
  destruct (y0 <? screen_height - 100) eqn:E2; [|done].
  destruct (- width + 100 <? x0) eqn:E3; [|done].
  destruct (- height + 100 <? y0) eqn:E4; [|done]. lia.
Qed.

Lemma restore_window_position_rejects_offscreen_witness :
  restore_window_position (Some 1900) (Some 10) 1000 750 1920 1080
  = Size 1000 750.
Proof.
  apply restore_window_position_rejects_offscreen.
  right. right. exists 1900, 10. repeat split. lia.
Defined.

End WindowFacts.

(** ** The groups panel: parents, moves, selections *)

Section PanelMoveFacts.
Import PyStr Groups Panel.

Lemma rsplit_head_spec g :
  match rsplit_head g with
  | Some h => ∃ name, one_segment name = true ∧ g = h +:+ String delim name
  | None => one_segment g = true
  end.
Proof.
  induction g as [|c g IH]; simpl; [done|].
  destruct (rsplit_head g) as [h|].
  - destruct IH as (name & Hn & ->). by exists name.
  - destruct (Ascii.eqb c delim) eqn:Ec; simpl.
    + apply Ascii.eqb_eq in Ec as ->. by exists g.
    + by rewrite IH.
Qed.

Lemma display_name_one_segment g : one_segment (display_name g) = true.
Proof.
  unfold display_name, last_part.
  pose proof (split_one_segment g) as H.
  pose proof (split_not_nil delim g) as Hne.
  destruct (split delim g) as [|w ws] using rev_ind; [done|].
  rewrite last_last. apply Forall_app in H as [_ H]. by inversion H.
Qed.

Lemma parent_and_name (g : string) :
  (rsplit_head g ≠ None → child_path (parent_of g) (display_name g) = g) ∧
  (rsplit_head g = None → parent_of g = "" ∧ display_name g = g).
Proof.
  unfold parent_of. pose proof (rsplit_head_spec g) as H.
  destruct (rsplit_head g) as [h|]; simpl.
  - destruct H as (name & Hn & ->). split; [|done].
    assert (Hd : display_name (h +:+ String delim name) = name)
      by (by apply (display_name_child h name)).
    intros _. by rewrite Hd.
  - split; [done|]. intros _. split; [done|]. by apply display_name_root.
Qed.

(** X11. The parent [auto_select_scrape_group] computes with [rsplit] is
    the path made of all segments but the last, the one the rename
    dialog keeps; a path that holds the delimiter is its parent, the
    delimiter and its last segment, and a path without the delimiter is
    one segment and has the empty parent. *)
Theorem parent_of_is_path_without_last_segment (g : string) :
  parent_of g = join delim_s (but_last (split delim g)) ∧
  (rsplit_head g ≠ None → child_path (parent_of g) (display_name g) = g) ∧
  (rsplit_head g = None → parent_of g = "" ∧ display_name g = g).
Proof.
  split; [|apply parent_and_name].
  unfold parent_of. pose proof (rsplit_head_spec g) as H.
  destruct (rsplit_head g) as [h|]; simpl.
  - destruct H as (name & Hn & ->).
    unfold but_last. rewrite split_app_delim, (one_segment_split _ Hn).
    by rewrite removelast_last, join_split_delim.
  - by rewrite (one_segment_split _ H).
Qed.

Lemma parent_of_is_path_without_last_segment_witness :
  child_path (parent_of "Armor`Cloth`Robes") (display_name "Armor`Cloth`Robes")
  = "Armor`Cloth`Robes" ∧ parent_of "Armor`Cloth`Robes" = "Armor`Cloth".
Proof.
  destruct (parent_of_is_path_without_last_segment "Armor`Cloth`Robes")
    as (_ & H & _).
  split; [by apply H|reflexivity].
Defined.

(** X12. [move_group_dialog] keeps the name of the group: the path it
    asks the writer for ends in the last segment of the old path and
    differs from the old path. A move to the parent the group already
    has, and a move of a top-level group to the top level, is answered
    with "already in that location" and makes no call. *)
Theorem move_group_dialog_keeps_name (group_path : string)
  (input : option string) :
  (∀ old new, move_group_dialog group_path input = MoveTo old new →
     old = group_path ∧ new ≠ group_path ∧
     display_name new = display_name group_path) ∧
  (∀ text, input = Some text →
     (parent_of group_path ≠ "" ∧ strip text = parent_of group_path) ∨
     (rsplit_head group_path = None ∧ strip text = "") →
     move_group_dialog group_path input = AlreadyThere).
Proof.
  split.
  - intros old new. unfold move_group_dialog.
    destruct input as [text|]; [|done].
    destruct (String.eqb (strip text) "") eqn:Ep.
    + destruct (String.eqb_spec (display_name group_path) group_path)
        as [He|Hne]; [done|].
      intros [= <- <-]. repeat split; [done|].
      apply display_name_root, display_name_one_segment.
    + destruct (String.eqb_spec
                  (child_path (strip text) (display_name group_path))
                  group_path) as [He|Hne]; [done|].
      intros [= <- <-]. repeat split; [done|].
      apply display_name_child, display_name_one_segment.
  - intros text -> H. unfold move_group_dialog.
    destruct (parent_and_name group_path) as (Hchild & Hroot).
    destruct H as [[Hne Hp]|[Hnone Hp]]; rewrite Hp.
    + apply String.eqb_neq in Hne. rewrite Hne.
      rewrite Hchild, String.eqb_refl; [done|].
      intros Hnone. apply Hroot in Hnone as [Hp' _].
      apply String.eqb_neq in Hne. done.
    + simpl. destruct (Hroot Hnone) as [_ ->]. by rewrite String.eqb_refl.
Qed.

Lemma move_group_dialog_keeps_name_witness :
  move_group_dialog "Armor`Cloth" (Some " Armor ") = AlreadyThere ∧
  move_group_dialog "Armor`Cloth" (Some "Gear")
  = MoveTo "Armor`Cloth" "Gear`Cloth".
Proof.
  destruct (move_group_dialog_keeps_name "Armor`Cloth" (Some " Armor "))
    as [_ H].
  split; [|reflexivity].
  apply (H " Armor "); [reflexivity|]. left. split; [done|reflexivity].
Defined.

(** X13. Toggling the selection of a group twice gives back the
    selection, whatever was selected; one toggle changes the number of
    selected groups, which is logged, by exactly one. *)
Theorem toggle_group_selection_twice (group_path : string)
  (selected : gset string) :
  (toggle_group_selection_multi group_path
     (toggle_group_selection_multi group_path selected).1).1 = selected ∧
  (if bool_decide (group_path ∈ selected)
   then S (toggle_group_selection_multi group_path selected).2 = size selected
   else (toggle_group_selection_multi group_path selected).2
        = S (size selected)).
Proof.
  unfold toggle_group_selection_multi. cbn [fst snd].
  destruct (decide (group_path ∈ selected)) as [Hin|Hin].
  - rewrite !(bool_decide_eq_true_2 _ Hin). cbn [fst snd].
    assert (Hout : group_path ∉ selected ∖ {[group_path]}).
    { rewrite elem_of_difference, elem_of_singleton. by intros [_ ?]. }
    rewrite (bool_decide_eq_false_2 _ Hout). split.
    + apply set_eq. intros x. rewrite elem_of_union, elem_of_difference,
        elem_of_singleton. split; [by intros [[? _]| ->]|].
      intros Hx. destruct (decide (x = group_path)); [by right|by left].
    + assert (Hsub : ({[group_path]} : gset string) ⊆ selected)
        by (by apply singleton_subseteq_l).
      rewrite (size_difference _ _ Hsub), size_singleton.
      assert (size selected ≠ 0)%nat; [|lia].
      intros H0. apply size_empty_inv in H0.
      apply (not_elem_of_empty (C:=gset string) group_path).
      by rewrite <- (leibniz_equiv _ _ H0).
  - rewrite !(bool_decide_eq_false_2 _ Hin). cbn [fst snd].
    assert (Hnow : group_path ∈ selected ∪ {[group_path]}).
    { rewrite elem_of_union, elem_of_singleton. by right. }
    rewrite (bool_decide_eq_true_2 _ Hnow). split.
    + apply set_eq. intros x. rewrite elem_of_difference, elem_of_union,
        elem_of_singleton. split; [by intros [[?| ->] ?]|].
      intros Hx. split; [by left|]. by intros ->.
    + assert (Hdisj : selected ## ({[group_path]} : gset string)).
      { apply disjoint_singleton_r. done. }
      rewrite (size_union _ _ Hdisj), size_singleton. lia.
Qed.

(** X14. Toggling the expansion of a group twice leaves what the panel
    reads for every group as it was, also for a group that was never
    toggled before; one toggle flips it for that group and for no
    other. *)
Theorem toggle_group_expand_twice (group_path other : string)
  (st : gmap string bool) :
  is_expanded (toggle_group_expand group_path
                 (toggle_group_expand group_path st)) other
  = is_expanded st other ∧
  is_expanded (toggle_group_expand group_path st) group_path
  = negb (is_expanded st group_path) ∧
  (other ≠ group_path →
   is_expanded (toggle_group_expand group_path st) other
   = is_expanded st other).
Proof.
  unfold is_expanded, toggle_group_expand.
  rewrite !lookup_insert_eq. simpl. split; [|split].
  - destruct (decide (group_path = other)) as [->|Hne].
    + rewrite lookup_insert_eq. simpl. apply negb_involutive.
    + by rewrite !lookup_insert_ne.
  - done.
  - intros Hne. by rewrite lookup_insert_ne.
Qed.

Lemma toggle_group_expand_twice_witness :
  is_expanded (toggle_group_expand "Armor" ∅) "Weapons"
  = is_expanded ∅ "Weapons".
Proof.
  by apply (proj2 (proj2 (toggle_group_expand_twice "Armor" "Weapons" ∅))).
Defined.

End PanelMoveFacts.

(** ** Removing the checked items *)

Section RemoveSelectedFacts.
Import Panel.

Lemma split_once_key g k : no_bar g = true → split_once (checkbox_key g k) = Some (g, k).
Proof.
  unfold checkbox_key. induction g as [|c g IH]; simpl; [done|].
  intros [Hc Hg]%andb_true_iff. apply negb_true_iff in Hc.
  by rewrite Hc, (IH Hg).
Qed.

(** X15. The key of an item check box splits back into its group and
    its item key exactly when the group path holds no bar; with a bar in
    the group path the split gives another group. *)
Theorem checkbox_key_splits_back (g k : string) :
  split_once (checkbox_key g k) = Some (g, k) ↔ no_bar g = true.
Proof.
  split; [|apply split_once_key].
  unfold checkbox_key. induction g as [|c g IH]; simpl; [done|].
  destruct (Ascii.eqb c "|"); [done|]. simpl.
  destruct (split_once (g +:+ String "|" k)) as [[a b]|]; [|done].
  intros [= -> ->]. by apply IH.
Qed.

Lemma pairs_of_group_append g k acc :
  pairs_of (group_append g k acc) ≡ₚ pairs_of acc ++ [(g, k)].
Proof.
  induction acc as [|[g' ks] acc IH]; simpl; [done|].
  destruct (String.eqb_spec g' g) as [->|Hne]; simpl.
  - rewrite fmap_app. simpl. rewrite <- !app_assoc. f_equiv.
    apply Permutation_app_comm.
  - unfold pairs_of in IH. rewrite IH. by rewrite app_assoc.
Qed.

Lemma collect_boxes shown : ∀ acc,
  Forall (λ t, no_bar t.1.1 = true) shown →
  ∃ acc', collect (boxes_of shown) acc = Some acc' ∧
          pairs_of acc' ≡ₚ pairs_of acc ++ checked_items shown.
Proof.
  induction shown as [|[[g k] b] shown IH]; intros acc Hs.
  - exists acc. split; [done|]. by rewrite app_nil_r.
  - inversion Hs as [|? ? Hg Hs']; subst. simpl in Hg.
    unfold boxes_of. rewrite fmap_cons. fold (boxes_of shown). simpl.
    destruct b; simpl.
    + rewrite (split_once_key g k Hg).
      destruct (IH (group_append g k acc) Hs') as (acc' & -> & Hp).
      exists acc'. split; [done|].
      rewrite Hp, pairs_of_group_append. by rewrite <- app_assoc.
    + apply IH, Hs'.
Qed.

Lemma all_item_ids_pairs parser acc :
  all_item_ids parser acc = omap (λ gk, usable_id parser gk.2) (pairs_of acc).
Proof.
  unfold all_item_ids, pairs_of.
  induction acc as [|[g ks] acc IH]; simpl; [done|].
  rewrite omap_app, IH. f_equal.
  induction ks as [|k ks IHk]; simpl; [done|].
  destruct (usable_id parser k); simpl; [f_equal|]; apply IHk.
Qed.

(** X16. For check boxes whose group paths hold no bar,
    [remove_selected_items] hands the writer exactly the ids of the
    checked boxes that the current parser gives and that are not zero,
    each as often as it is checked; it calls the writer only after the
    question was confirmed, and never without a checked box. *)
Theorem remove_selected_items_sends_checked_ids
  (parser : option (string → option Z)) (confirm : bool)
  (shown : list (string * string * bool)) :
  Forall (λ t, no_bar t.1.1 = true) shown →
  (∀ ids,
     remove_selected_items parser confirm (boxes_of shown) = RemoveItems ids →
     confirm = true ∧
     ids ≡ₚ omap (λ gk, usable_id parser gk.2) (checked_items shown) ∧
     0 ∉ ids) ∧
  (checked_items shown = [] →
   remove_selected_items parser confirm (boxes_of shown) = NothingChecked) ∧
  (remove_selected_items parser confirm (boxes_of shown) ≠ KeyWithoutBar).
Proof.
  intros Hs. destruct (collect_boxes shown [] Hs) as (acc & Hc & Hp).
  simpl in Hp. unfold remove_selected_items. rewrite Hc.
  assert (Hids : all_item_ids parser acc
                 ≡ₚ omap (λ gk, usable_id parser gk.2) (checked_items shown))
    by (by rewrite all_item_ids_pairs, Hp).
  split; [|split].
  - intros ids. destruct (boxes_of shown); [done|].
    destruct acc as [|e acc]; [done|].
    destruct confirm; [|done]. cbn [negb].
    destruct (all_item_ids parser (e :: acc)) as [|i0 ids0] eqn:E; [done|].
    intros [= <-]. split; [done|]. split; [done|].
    rewrite Hids. intros (gk & _ & Hu)%list_elem_of_omap.
    unfold usable_id in Hu. destruct parser as [get|]; [|done].
    destruct (get gk.2) as [z|]; [|done].
    destruct (z =? 0) eqn:Ez; [done|]. apply Z.eqb_neq in Ez. by injection Hu.
  - intros Hnone. rewrite Hnone in Hp.
    destruct (boxes_of shown); [done|].
    destruct acc as [|[g [|k ks]] acc]; [done| |].
    + exfalso. clear -Hc Hs. revert Hc.
      assert (Hinv : ∀ sh acc0 acc1,
                Forall (λ gk : string * list string, gk.2 ≠ []) acc0 →
                collect sh acc0 = Some acc1 →
                Forall (λ gk : string * list string, gk.2 ≠ []) acc1).
      { induction sh as [|[key b] sh IH]; intros acc0 acc1 H0; simpl.
        - by intros [= <-].
        - destruct b; [|by apply IH].
          destruct (split_once key) as [[g' k']|]; [|done].
          apply IH. clear -H0.
          induction H0 as [|[g0 ks0] a0 Hx H0 IH0]; simpl.
          + by repeat constructor.
          + destruct (String.eqb g0 g'); constructor; try done.
            simpl. by destruct ks0. }
      intros Hc. apply (Hinv _ [] _ (Forall_nil_2 _)) in Hc.
      inversion Hc as [|? ? Hbad]. by apply Hbad.
    + apply Permutation_nil_r in Hp. done.
  - destruct (boxes_of shown); [done|].
    destruct acc; [done|]. destruct confirm; [|done]. cbn [negb].
    by destruct (all_item_ids parser _).
Qed.

End RemoveSelectedFacts.

Lemma remove_selected_items_sends_checked_ids_witness :
  (0 ∉ [100]) ∧
  Panel.remove_selected_items
    (Some (λ k, if String.eqb k "i:100" then Some 100 else None)) true
    (Panel.boxes_of [("Armor", "i:7", false); ("Armor`Cloth", "i:100", true)])
  = Panel.RemoveItems [100].
Proof.
  destruct (remove_selected_items_sends_checked_ids
              (Some (λ k, if String.eqb k "i:100" then Some 100 else None))
              true
              [("Armor", "i:7", false); ("Armor`Cloth", "i:100", true)])
    as (H & _ & _); [by repeat constructor|].
  destruct (H [100] eq_refl) as (_ & _ & H0).
  split; [exact H0|reflexivity].
Defined.

Lemma checkbox_key_splits_back_witness :
  Panel.split_once (Panel.checkbox_key "Armor`Cloth" "i:100")
  = Some ("Armor`Cloth", "i:100") ∧
  Panel.split_once (Panel.checkbox_key "A|B" "i:100") = Some ("A", "B|i:100").
Proof.
  split; [|reflexivity].
  by apply (checkbox_key_splits_back "Armor`Cloth" "i:100").
Defined.

(** ** Importing *)

Section ImportFacts.
Import App Importing.

Lemma lookup_result_app cat d pre rest :
  cat ∉ pre.*1 → lookup_result cat (pre ++ (cat, d) :: rest) = Some d.
Proof.
  induction pre as [|[c e] pre IH]; simpl; intros Hnin.
  - by rewrite String.eqb_refl.
  - apply not_elem_of_cons in Hnin as [Hne Hnin].
    destruct (String.eqb_spec c cat) as [->|_]; [done|]. by apply IH.
Qed.

Lemma lookup_result_Some cat d res :
  lookup_result cat res = Some d → (cat, d) ∈ res.
Proof.
  induction res as [|[c e] res IH]; simpl; [done|].
  destruct (String.eqb_spec c cat) as [->|_].
  - intros [= ->]. apply list_elem_of_here.
  - intros H. by apply list_elem_of_further, IH.
Qed.

Lemma selected_default pre suf :
  NoDup (pre ++ suf).*1 →
  get_selected_import_categories (update_results_with_checkboxes suf)
    (pre ++ suf)
  = List.filter (λ cd, (0 <? length (new_ids cd.2))%nat) suf.
Proof.
  revert pre. induction suf as [|[c d] suf IH]; intros pre Hnd; [done|].
  unfold update_results_with_checkboxes. rewrite fmap_cons.
  fold (update_results_with_checkboxes suf). simpl.
  assert (Hc : c ∉ pre.*1).
  { rewrite fmap_app in Hnd. apply NoDup_app in Hnd as (_ & Hd & _).
    intros Hin. apply (Hd c Hin). simpl. apply list_elem_of_here. }
  assert (IH' : get_selected_import_categories
                  (update_results_with_checkboxes suf) (pre ++ (c, d) :: suf)
                = List.filter (λ cd, (0 <? length (new_ids cd.2))%nat) suf).
  { rewrite (cons_middle (c, d) pre suf), app_assoc. apply IH.
    by rewrite <- app_assoc. }
  destruct (0 <? length (new_ids d))%nat.
  - by rewrite (lookup_result_app c d pre suf Hc), IH'.
  - exact IH'.
Qed.

Lemma total_new_filter res :
  total_new (List.filter (λ cd, (0 <? length (new_ids cd.2))%nat) res) = 0%nat →
  List.filter (λ cd, (0 <? length (new_ids cd.2))%nat) res = [].
Proof.
  induction res as [|[c d] res IH]; simpl; [done|].
  destruct (0 <? length (new_ids d))%nat eqn:E; [|done].
  simpl. apply Nat.ltb_lt in E. lia.
Qed.

(** X17. With the check boxes as [update_results_with_checkboxes] sets
    them, the categories [get_selected_import_categories] returns are
    the scraped categories that have new ids, in scraped order; so
    [start_import] then never answers "Nothing to Import". *)
Theorem default_check_boxes_select_categories_with_new_ids
  (res : results) (confirm : bool) (selected_group : string) :
  NoDup res.*1 →
  get_selected_import_categories (update_results_with_checkboxes res) res
  = List.filter (λ cd, (0 <? length (new_ids cd.2))%nat) res ∧
  start_import confirm res (update_results_with_checkboxes res) selected_group
  ≠ NothingToImport.
Proof.
  intros Hnd. pose proof (selected_default [] res Hnd) as Hsel.
  simpl in Hsel. split; [done|].
  unfold start_import. destruct res as [|r res]; [done|]. rewrite Hsel.
  destruct (List.filter _ (r :: res)) as [|s sel] eqn:Ef; [done|].
  destruct (total_new (s :: sel) =? 0)%nat eqn:Et.
  - apply Nat.eqb_eq in Et. rewrite <- Ef in Et.
    apply total_new_filter in Et. congruence.
  - by destruct (_ || _), confirm.
Qed.

Lemma default_check_boxes_select_categories_with_new_ids_witness :
  (get_selected_import_categories
     (update_results_with_checkboxes Samples.two_results)
     Samples.two_results).*1 = ["cloth"; "axes"].
Proof.
  destruct (default_check_boxes_select_categories_with_new_ids
              Samples.two_results true DEFAULT_LABEL) as [H _].
  - simpl. repeat constructor; intros Hin;
      repeat (apply elem_of_cons in Hin as [Heq|Hin]; [discriminate Heq|]);
      by apply elem_of_nil in Hin.
  - by rewrite H.
Defined.

Lemma selected_sound boxes res cat d :
  (cat, d) ∈ get_selected_import_categories boxes res →
  (cat, true) ∈ boxes ∧ lookup_result cat res = Some d.
Proof.
  induction boxes as [|[c b] boxes IH]; simpl; [by intros ?%elem_of_nil|].
  destruct b.
  - destruct (lookup_result c res) as [e|] eqn:El.
    + intros [[= -> ->]|Hin]%elem_of_cons.
      * split; [apply list_elem_of_here|done].
      * destruct (IH Hin). split; [by apply list_elem_of_further|done].
    + intros Hin. destruct (IH Hin).
      split; [by apply list_elem_of_further|done].
  - intros Hin. destruct (IH Hin).
    split; [by apply list_elem_of_further|done].
Qed.

Lemma total_new_positive sel :
  total_new sel ≠ 0%nat → ∃ cat d, (cat, d) ∈ sel ∧ new_ids d ≠ [].
Proof.
  induction sel as [|[c d] sel IH]; simpl; [done|]. intros H.
  destruct (new_ids d) as [|i l] eqn:E.
  - destruct IH as (cat & e & Hin & Hne); [simpl in H; lia|].
    exists cat, e. split; [by apply list_elem_of_further|done].
  - exists c, d. split; [apply list_elem_of_here|by rewrite E].
Qed.

(** X18. [start_import] starts the import only after the question was
    confirmed and only when some checked category of the scrape has new
    ids; every category it passes on is checked and has a scrape result.
    The import then runs with the selected target group, and with the
    default groups instead when none is selected or when the checked
    categories have more than one default group. *)
Theorem start_import_needs_new_ids (confirm : bool) (res : results)
  (boxes : list (string * bool)) (selected_group v : string) :
  start_import confirm res boxes selected_group = Started v →
  confirm = true ∧
  (∃ cat d, (cat, d) ∈ get_selected_import_categories boxes res ∧
            (cat, true) ∈ boxes ∧ (cat, d) ∈ res ∧ new_ids d ≠ []) ∧
  (v = if String.eqb selected_group DEFAULT_LABEL
           || (1 <? length (remove_dups
                 ((λ cd, tsm_group cd.2)
                    <$> get_selected_import_categories boxes res)))%nat
       then DEFAULT_LABEL else selected_group).
Proof.
  unfold start_import. destruct res as [|r res]; [done|].
  set (sel := get_selected_import_categories boxes (r :: res)).
  assert (Hsel : ∀ cat d, (cat, d) ∈ sel →
            (cat, true) ∈ boxes ∧ (cat, d) ∈ r :: res).
  { intros cat d Hin. apply selected_sound in Hin as [Hb Hl].
    split; [done|by apply lookup_result_Some]. }
  destruct sel as [|s sel'] eqn:Es; [done|].
  destruct (total_new (s :: sel') =? 0)%nat eqn:Et; [done|].
  apply Nat.eqb_neq in Et.
  destruct (total_new_positive _ Et) as (cat & d & Hin & Hne).
  destruct (Hsel cat d Hin) as [Hb Hr].
  destruct (String.eqb selected_group DEFAULT_LABEL || _) eqn:Em;
    destruct confirm; try done; intros [= <-];
    (split; [done|]); (split; [by exists cat, d|done]).
Qed.

Lemma start_import_needs_new_ids_witness :
  start_import true Samples.two_results
    (update_results_with_checkboxes Samples.two_results) "Armor`Cloth"
  = Started DEFAULT_LABEL.
Proof.
  assert (H : start_import true Samples.two_results
                (update_results_with_checkboxes Samples.two_results)
                "Armor`Cloth" = Started DEFAULT_LABEL) by reflexivity.
  destruct (start_import_needs_new_ids _ _ _ _ _ H) as (_ & _ & Hv).
  exact H.
Defined.

End ImportFacts.

Section RunImportFacts.
Import App Importing.
Variable respond : nat → wcall → Lua.outcome nat.

Lemma dict_keys_elem i ids : i ∈ dict_keys ids → i ∈ ids.
Proof.
  induction ids as [|j ids IH]; simpl; [done|].
  intros [->|Hin]%elem_of_cons; [apply list_elem_of_here|].
  apply list_elem_of_In, List.filter_In in Hin as [Hin _].
  by apply list_elem_of_further, IH, list_elem_of_In.
Qed.

Lemma dict_to_elem i t target ids :
  (i, t) ∈ dict_to target ids → t = target ∧ i ∈ ids.
Proof.
  unfold dict_to. intros (j & [= -> ->] & Hj)%list_elem_of_fmap.
  split; [done|by apply dict_keys_elem].
Qed.

Lemma import_categories_calls selected_group sel : ∀ r c,
  c ∈ calls (import_categories respond
               (negb (String.eqb selected_group DEFAULT_LABEL))
               selected_group sel r) →
  c ∈ calls r ∨
  ∃ items, c = CallAdd items ∧ items ≠ [] ∧
           ∀ i t, (i, t) ∈ items → from_category selected_group sel i t.
Proof.
  induction sel as [|[cat d] sel IH]; intros r c; simpl; [by left|].
  assert (Hweak : ∀ i t, from_category selected_group sel i t →
                         from_category selected_group ((cat, d) :: sel) i t).
  { intros i t (c' & d' & Hin & Hi & Ht). exists c', d'.
    split; [by apply list_elem_of_further|done]. }
  destruct (new_ids d) as [|n ns] eqn:En.
  - intros H. apply IH in H as [H|(items & -> & Hne & Hit)]; [by left|].
    right. exists items. split; [done|]. split; [done|]. auto.
  - set (target := if negb (String.eqb selected_group DEFAULT_LABEL)
                   then selected_group else tsm_group d).
    assert (Hnew : ∀ i t, (i, t) ∈ dict_to target (n :: ns) →
                          from_category selected_group ((cat, d) :: sel) i t).
    { intros i t [-> Hi]%dict_to_elem. exists cat, d.
      split; [apply list_elem_of_here|]. rewrite En. split; [done|].
      unfold target. by destruct (String.eqb selected_group DEFAULT_LABEL). }
    assert (Hsent : ∀ c0, c0 ∈ calls r ++ [CallAdd (dict_to target (n :: ns))] →
              c0 ∈ calls r ∨
              ∃ items, c0 = CallAdd items ∧ items ≠ [] ∧
                ∀ i t, (i, t) ∈ items →
                       from_category selected_group ((cat, d) :: sel) i t).
    { intros c0 [H|H%list_elem_of_singleton]%elem_of_app; [by left|].
      right. exists (dict_to target (n :: ns)). by repeat split. }
    destruct (respond (length (calls r)) _) as [k|msg]; simpl.
    + intros H. apply IH in H as [H|(items & -> & Hne & Hit)]; simpl in *.
      * by apply Hsent.
      * right. exists items. split; [done|]. split; [done|]. auto.
    + apply Hsent.
Qed.

Lemma import_categories_keeps_add_ids custom selected_group sel : ∀ r,
  add_ids_left (import_categories respond custom selected_group sel r)
  = add_ids_left r.
Proof.
  induction sel as [|[cat d] sel IH]; intros r; simpl; [done|].
  destruct (new_ids d) as [|n ns]; [apply IH|].
  destruct (respond (length (calls r)) _); simpl; [|done].
  by rewrite IH.
Qed.

(** X19. Every pair of id and group [run_import] hands to
    [writer.add_items] is a manual id with the selected target group,
    sent only when a target group is selected, or a new id of a checked
    category with the selected target group, or with the default group
    of its category when none is selected. No call is made with an empty
    mapping, the only removal call carries the manual remove list, and
    without a selected target group the manual add list stays as it
    is. *)
Theorem run_import_routes_ids (selected_group : string)
  (manual_add_ids manual_remove_ids : list Z)
  (boxes : list (string * bool)) (res : results) :
  let r := run_import respond selected_group manual_add_ids manual_remove_ids
             boxes res in
  (∀ items, CallAdd items ∈ calls r →
     items ≠ [] ∧
     ∀ i t, (i, t) ∈ items →
       (selected_group ≠ DEFAULT_LABEL ∧ t = selected_group ∧
        i ∈ manual_add_ids) ∨
       from_category selected_group
         (get_selected_import_categories boxes res) i t) ∧
  (∀ ids, CallRemove ids ∈ calls r →
     ids = manual_remove_ids ∧ manual_remove_ids ≠ []) ∧
  (selected_group = DEFAULT_LABEL → add_ids_left r = manual_add_ids).
Proof.
  intros r. subst r. unfold run_import.
  set (sel := get_selected_import_categories boxes res).
  set (start := {| calls := []; add_ids_left := manual_add_ids;
                   remove_ids_left := manual_remove_ids;
                   total_added := 0; total_removed := 0; raised := None |}).
  (* after the removal *)
  set (r1 := match manual_remove_ids with [] => start | _ :: _ => _ end).
  assert (H1 : (∀ c, c ∈ calls r1 →
                  c = CallRemove manual_remove_ids ∧ manual_remove_ids ≠ []) ∧
               add_ids_left r1 = manual_add_ids).
  { unfold r1. destruct manual_remove_ids as [|x xs]; simpl.
    - split; [by intros c ?%elem_of_nil|done].
    - destruct (respond 0%nat _); simpl;
        (split; [intros c ->%list_elem_of_singleton; by split|done]). }
  destruct H1 as [H1 H1a].
  destruct (raised r1) eqn:Er1.
  { split; [|split].
    - intros items Hin. by destruct (H1 _ Hin).
    - intros ids Hin. destruct (H1 _ Hin) as [[= ->] ?]. done.
    - done. }
  (* after the manual ids *)
  set (r2 := match manual_add_ids with [] => r1 | _ :: _ => _ end).
  assert (H2 : (∀ c, c ∈ calls r2 →
                  (c = CallRemove manual_remove_ids ∧ manual_remove_ids ≠ []) ∨
                  (c = CallAdd (dict_to selected_group manual_add_ids) ∧
                   selected_group ≠ DEFAULT_LABEL ∧ manual_add_ids ≠ [])) ∧
               (selected_group = DEFAULT_LABEL →
                add_ids_left r2 = manual_add_ids)).
  { unfold r2. destruct manual_add_ids as [|x xs] eqn:Ea.
    - split; [intros c Hc; left; by apply H1|by intros _].
    - destruct (String.eqb_spec selected_group DEFAULT_LABEL) as [He|Hne].
      + split; [intros c Hc; left; by apply H1|by intros _].
      + destruct (respond (length (calls r1)) _); simpl;
          (split; [|done]);
          intros c [Hc|Hc%list_elem_of_singleton]%elem_of_app;
          (by left; apply H1) || (right; by subst c). }
  destruct H2 as [H2 H2a].
  assert (Hmanual : ∀ items, CallAdd items ∈ calls r2 →
            items ≠ [] ∧
            ∀ i t, (i, t) ∈ items →
              selected_group ≠ DEFAULT_LABEL ∧ t = selected_group ∧
              i ∈ manual_add_ids).
  { intros items Hin. destruct (H2 _ Hin) as [[? _]|([= ->] & Hne & Hadd)];
      [done|]. split.
    - unfold dict_to. destruct manual_add_ids; [done|]. simpl. done.
    - intros i t [-> Hi]%dict_to_elem. done. }
  destruct (raised r2) eqn:Er2.
  { split; [|split].
    - intros items Hin. destruct (Hmanual _ Hin) as [Hne Hit].
      split; [done|]. intros i t Hi. left. by apply Hit.
    - intros ids Hin. by destruct (H2 _ Hin) as [[[= ->] ?]|[? _]].
    - done. }
  split; [|split].
  - intros items Hin.
    apply import_categories_calls in Hin as [Hin|(its & [= ->] & Hne & Hit)].
    + destruct (Hmanual _ Hin) as [Hne Hit].
      split; [done|]. intros i t Hi. left. by apply Hit.
    + split; [done|]. intros i t Hi. right. by apply Hit.
  - intros ids Hin.
    apply import_categories_calls in Hin as [Hin|(its & ? & _)]; [|done].
    by destruct (H2 _ Hin) as [[[= ->] ?]|[? _]].
  - intros He. rewrite <- (H2a He). apply import_categories_keeps_add_ids.
Qed.

End RunImportFacts.

Lemma run_import_routes_ids_witness :
  Importing.add_ids_left
    (Importing.run_import Samples.obliging Importing.DEFAULT_LABEL [5; 6] [9]
       (Importing.update_results_with_checkboxes Samples.two_results)
       Samples.two_results) = [5; 6].
Proof.
  destruct (run_import_routes_ids Samples.obliging Importing.DEFAULT_LABEL
              [5; 6] [9]
              (Importing.update_results_with_checkboxes Samples.two_results)
              Samples.two_results) as (_ & _ & H).
  by apply H.
Defined.

Example run_import_two_categories :
  Importing.calls
    (Importing.run_import Samples.obliging Importing.DEFAULT_LABEL [5; 6] [9]
       (Importing.update_results_with_checkboxes Samples.two_results)
       Samples.two_results)
  = [Importing.CallRemove [9];
     Importing.CallAdd [(200, "Armor`Cloth"); (7, "Armor`Cloth")];
     Importing.CallAdd [(9, "Weapons`Axes")]].
Proof. reflexivity. Qed.

(** ** The group selected after a scrape *)

Section AutoSelectFacts.
Import App Importing.

Lemma count_of_count_add h g n acc :
  count_of h (count_add g n acc)
  = (count_of h acc + if String.eqb g h then n else 0)%nat.
Proof.
  induction acc as [|[g' m] acc IH]; simpl.
  - destruct (String.eqb g h); lia.
  - destruct (String.eqb_spec g' g) as [->|Hne]; simpl.
    + destruct (String.eqb g h); lia.
    + destruct (String.eqb_spec g' h) as [->|Hne'].
      * destruct (String.eqb_spec g h); [congruence|lia].
      * apply IH.
Qed.

Lemma keys_count_add h g n acc :
  h ∈ (count_add g n acc).*1 ↔ h = g ∨ h ∈ acc.*1.
Proof.
  induction acc as [|[g' m] acc IH]; simpl.
  - rewrite list_elem_of_singleton. split; [by left|].
    by intros [?|?%elem_of_nil].
  - destruct (String.eqb_spec g' g) as [->|Hne]; simpl.
    + rewrite elem_of_cons. split; [by right|]. intros [->|?]; [by left|done].
    + rewrite !elem_of_cons, IH. tauto.
Qed.

Lemma NoDup_count_add g n acc :
  NoDup acc.*1 → NoDup (count_add g n acc).*1.
Proof.
  induction acc as [|[g' m] acc IH]; simpl; intros Hnd.
  - apply NoDup_singleton.
  - apply NoDup_cons in Hnd as [Hni Hnd].
    destruct (String.eqb_spec g' g) as [->|Hne]; simpl.
    + by apply NoDup_cons.
    + apply NoDup_cons. split; [|by apply IH].
      rewrite keys_count_add. by intros [?|?].
Qed.

Lemma count_of_entry h m acc :
  NoDup acc.*1 → (h, m) ∈ acc → count_of h acc = m.
Proof.
  induction acc as [|[g' k] acc IH]; simpl; intros Hnd Hin;
    [by apply elem_of_nil in Hin|].
  apply NoDup_cons in Hnd as [Hni Hnd].
  apply elem_of_cons in Hin as [[= -> ->]|Hin].
  - by rewrite String.eqb_refl.
  - destruct (String.eqb_spec g' h) as [->|_]; [|by apply IH].
    destruct Hni. apply list_elem_of_fmap. by exists (h, m).
Qed.

Lemma counted_cons h c d res :
  counted h ((c, d) :: res) ↔
  (tsm_group d = h ∧ (0 < found d)%nat ∧ h ≠ "") ∨ counted h res.
Proof.
  unfold counted. split.
  - intros (c' & d' & [[= -> ->]|Hin]%elem_of_cons & Hg & Hf & Hne).
    + by left.
    + right. by exists c', d'.
  - intros [(Hg & Hf & Hne)|(c' & d' & Hin & Hg & Hf & Hne)].
    + exists c, d. split; [apply list_elem_of_here|done].
    + exists c', d'. split; [by apply list_elem_of_further|done].
Qed.

Lemma count_step_spec acc c d :
  NoDup acc.*1 →
  NoDup (count_step acc (c, d)).*1 ∧
  (∀ h, h ∈ (count_step acc (c, d)).*1 ↔
        h ∈ acc.*1 ∨ (tsm_group d = h ∧ (0 < found d)%nat ∧ h ≠ "")) ∧
  (∀ h, h ≠ "" →
        count_of h (count_step acc (c, d))
        = (count_of h acc
           + if String.eqb (tsm_group d) h then found d else 0)%nat).
Proof.
  intros Hnd. unfold count_step. cbn [snd].
  destruct (Nat.ltb_spec 0 (found d)) as [Hpos|Hzero];
    destruct (String.eqb_spec (tsm_group d) "") as [Hemp|Hnemp]; cbn [andb negb].
  - split; [done|]. split.
    + intros h. split; [by left|]. intros [?|(<- & _ & ?)]; done.
    + intros h Hh. destruct (String.eqb_spec (tsm_group d) h); [congruence|lia].
  - split; [by apply NoDup_count_add|]. split.
    + intros h. rewrite keys_count_add. split.
      * intros [->|?]; [right|left]; done.
      * intros [?|(<- & _)]; [right|left]; done.
    + intros h _. apply count_of_count_add.
  - split; [done|]. split.
    + intros h. split; [by left|]. intros [?|(_ & ? & _)]; [done|lia].
    + intros h _. destruct (String.eqb (tsm_group d) h); lia.
  - split; [done|]. split.
    + intros h. split; [by left|]. intros [?|(_ & ? & _)]; [done|lia].
    + intros h _. destruct (String.eqb (tsm_group d) h); lia.
Qed.

Lemma foldl_count_step res : ∀ acc,
  NoDup acc.*1 →
  NoDup (foldl count_step acc res).*1 ∧
  (∀ h, h ∈ (foldl count_step acc res).*1 ↔ h ∈ acc.*1 ∨ counted h res) ∧
  (∀ h, h ≠ "" →
        count_of h (foldl count_step acc res)
        = (count_of h acc + total_found h res)%nat).
Proof.
  induction res as [|[c d] res IH]; intros acc Hnd; cbn [foldl total_found].
  - split; [done|]. split.
    + intros h. split; [by left|].
      by intros [?|(c & d & ?%elem_of_nil & _)].
    + intros h _. lia.
  - destruct (count_step_spec acc c d Hnd) as (Hnd' & Hkeys' & Hcount').
    destruct (IH _ Hnd') as (Hnd'' & Hkeys'' & Hcount'').
    split; [done|]. split.
    + intros h. rewrite Hkeys'', Hkeys', counted_cons. tauto.
    + intros h Hh. rewrite (Hcount'' h Hh), (Hcount' h Hh). cbn [snd]. lia.
Qed.

(** The dict [group_counts] has one key for each counted group, with
    the sum of the found counts of its categories. *)
Lemma group_counts_spec res :
  NoDup (group_counts res).*1 ∧
  (∀ h, h ∈ (group_counts res).*1 ↔ counted h res) ∧
  (∀ h m, (h, m) ∈ group_counts res → m = total_found h res).
Proof.
  destruct (foldl_count_step res [] (NoDup_nil_2 : NoDup ([] : list (string * nat)).*1))
    as (Hnd & Hkeys & Hcount).
  fold (group_counts res) in Hnd, Hkeys, Hcount.
  assert (Hk : ∀ h, h ∈ (group_counts res).*1 ↔ counted h res).
  { intros h. rewrite Hkeys. split; [|by right].
    by intros [?%elem_of_nil|?]. }
  split; [done|]. split; [done|].
  intros h m Hin.
  assert (Hh : h ≠ "").
  { assert (Hc : counted h res).
    { apply Hk, list_elem_of_fmap. by exists (h, m). }
    by destruct Hc as (_ & _ & _ & _ & _ & ?). }
  rewrite <- (count_of_entry h m _ Hnd Hin), (Hcount h Hh). simpl. lia.
Qed.

Lemma best_from_max rest : ∀ cur,
  ∃ n, (best_from cur rest, n) ∈ cur :: rest ∧
       ∀ h m, (h, m) ∈ cur :: rest → (m ≤ n)%nat.
Proof.
  induction rest as [|[g' n'] rest IH]; intros [g n]; cbn [best_from fst snd].
  - exists n. split; [apply list_elem_of_here|].
    intros h m [= _ ->]%list_elem_of_singleton. lia.
  - destruct (Nat.ltb_spec n n') as [Hlt|Hge].
    + destruct (IH (g', n')) as (k & Hin & Hmax). exists k.
      split; [by apply list_elem_of_further|].
      intros h m [[= _ ->]|Hm]%elem_of_cons; [|by apply (Hmax h)].
      specialize (Hmax g' n' (list_elem_of_here _ _)). lia.
    + destruct (IH (g, n)) as (k & Hin & Hmax). exists k. split.
      * apply elem_of_cons in Hin as [->|Hin]; [apply list_elem_of_here|].
        by do 2 apply list_elem_of_further.
      * intros h m [[= _ ->]|[[= _ ->]|Hm]%elem_of_cons]%elem_of_cons.
        -- apply (Hmax g), list_elem_of_here.
        -- specialize (Hmax g n (list_elem_of_here _ _)). lia.
        -- apply (Hmax h). by apply list_elem_of_further.
Qed.

Lemma length_append_sum (a b : string) :
  String.length (a +:+ b) = (String.length a + String.length b)%nat.
Proof. induction a as [|c a IH]; simpl; [done|]. by rewrite IH. Qed.

Lemma parent_of_differs (p : string) : p ≠ "" → Panel.parent_of p ≠ p.
Proof.
  intros Hne. unfold Panel.parent_of.
  pose proof (rsplit_head_spec p) as H.
  destruct (Panel.rsplit_head p) as [h|]; simpl; [|done].
  destruct H as (name & _ & Hp). intros ->.
  apply (f_equal String.length) in Hp.
  rewrite length_append_sum in Hp. simpl in Hp. lia.
Qed.

Lemma length_remove_dups_one (l : list string) :
  length (remove_dups l) = 1%nat ↔ ∃ p, p ∈ l ∧ ∀ x, x ∈ l → x = p.
Proof.
  split.
  - intros Hlen. destruct (remove_dups l) as [|p [|q r]] eqn:E;
      simpl in Hlen; try lia.
    assert (Hp : ∀ x, x ∈ l ↔ x ∈ [p]).
    { intros x. rewrite <- E. symmetry. apply elem_of_remove_dups. }
    exists p. split; [apply Hp, list_elem_of_here|].
    intros x Hx%Hp. by apply list_elem_of_singleton in Hx.
  - intros (p & Hin & Hall).
    pose proof (NoDup_remove_dups l) as Hnd.
    assert (Hp : ∀ x, x ∈ remove_dups l → x = p).
    { intros x Hx. by apply Hall, (proj1 (elem_of_remove_dups _ _)). }
    apply (proj2 (elem_of_remove_dups _ _)) in Hin.
    destruct (remove_dups l) as [|a [|b r]];
      [by apply elem_of_nil in Hin|done|].
    exfalso. apply NoDup_cons in Hnd as [Hni _]. apply Hni.
    rewrite (Hp a (list_elem_of_here _ _)).
    rewrite <- (Hp b (list_elem_of_further _ _ _ (list_elem_of_here _ _))).
    apply list_elem_of_here.
Qed.

Lemma common_parent_Some groups p :
  common_parent groups = Some p ↔
  groups ≠ [] ∧ p ≠ "" ∧ ∀ h, h ∈ groups → Panel.parent_of h = p.
Proof.
  unfold common_parent. destruct groups as [|g gs]; [by split; [|intros [? _]]|].
  change (Panel.parent_of <$> g :: gs)
    with (Panel.parent_of g :: (Panel.parent_of <$> gs)).
  cbv beta iota.
  change (Panel.parent_of g :: (Panel.parent_of <$> gs))
    with (Panel.parent_of <$> g :: gs).
  destruct (Nat.eqb_spec (length (remove_dups (Panel.parent_of <$> g :: gs))) 1)
    as [Hone|Hmany];
    destruct (String.eqb_spec (Panel.parent_of g) "") as [Hemp|Hnemp];
    cbn [andb negb].
  - split; [done|]. intros (_ & Hne & Hall).
    destruct Hne. rewrite <- Hemp. symmetry. apply Hall, list_elem_of_here.
  - apply length_remove_dups_one in Hone as (q & Hq & Hall).
    assert (Hg : Panel.parent_of g = q).
    { apply Hall, list_elem_of_fmap. exists g.
      split; [done|apply list_elem_of_here]. }
    split.
    + intros [= <-]. split; [done|]. split; [done|].
      intros h Hh. rewrite Hg. apply Hall, list_elem_of_fmap. by exists h.
    + intros (_ & _ & Hp). f_equal. apply Hp, list_elem_of_here.
  - split; [done|]. intros (_ & Hne & Hall).
    destruct Hne. rewrite <- Hemp. symmetry. apply Hall, list_elem_of_here.
  - split; [done|]. intros (_ & Hne & Hall). destruct Hmany.
    apply length_remove_dups_one. exists p. split.
    + apply list_elem_of_fmap. exists g.
      split; [symmetry; apply Hall|]; apply list_elem_of_here.
    + intros x (h & -> & Hh)%list_elem_of_fmap. by apply Hall.
Qed.

Lemma two_distinct (l : list string) :
  NoDup l → (1 <? length l)%nat = true ↔ ∃ a b, a ≠ b ∧ a ∈ l ∧ b ∈ l.
Proof.
  intros Hnd. rewrite Nat.ltb_lt. split.
  - destruct l as [|a [|b r]]; simpl; try lia. intros _.
    exists a, b. apply NoDup_cons in Hnd as [Hni _].
    split; [|split].
    + intros ->. apply Hni, list_elem_of_here.
    + apply list_elem_of_here.
    + apply list_elem_of_further, list_elem_of_here.
  - intros (a & b & Hne & Ha & Hb).
    destruct l as [|x [|y r]]; simpl; try lia.
    + by apply elem_of_nil in Ha.
    + apply list_elem_of_singleton in Ha, Hb. congruence.
Qed.

(** X20. [auto_select_scrape_group] selects nothing exactly when no
    category found an item under a named group. Otherwise the group it
    selects is either a group of the scrape with the largest sum of
    found counts, or the non-empty parent shared by the two or more
    groups of the scrape, which then has a button in the panel; the
    flag tells whether the selected group is one of the file's. *)
Theorem auto_select_picks_largest_or_shared_parent
  (registry parser_groups : gset string) (res : results) :
  match auto_select_scrape_group registry parser_groups res with
  | None => ∀ c d, (c, d) ∈ res → found d = 0%nat ∨ tsm_group d = ""
  | Some (g, group_exists) =>
      group_exists = bool_decide (g ∈ parser_groups) ∧
      ((counted g res ∧
        ∀ h, counted h res → (total_found h res ≤ total_found g res)%nat) ∨
       (g ≠ "" ∧ g ∈ registry ∧ shared_parent g res))
  end.
Proof.
  destruct (group_counts_spec res) as (Hnd & Hkeys & Hcount).
  unfold auto_select_scrape_group.
  destruct (group_counts res) as [|first rest] eqn:E.
  - intros c d Hin.
    destruct (found d) as [|k] eqn:Ef; [by left|].
    destruct (String.eqb_spec (tsm_group d) "") as [?|Hne]; [by right|].
    exfalso. assert (Hc : counted (tsm_group d) res).
    { exists c, d. rewrite Ef. repeat split; [done|lia|done]. }
    apply Hkeys in Hc. by apply elem_of_nil in Hc.
  - cbv zeta. split; [done|].
    assert (Hbest : counted (best_from first rest) res ∧
              ∀ h, counted h res →
                   (total_found h res ≤ total_found (best_from first rest) res)%nat).
    { destruct (best_from_max rest first) as (n & Hin & Hmax).
      split.
      - apply Hkeys, list_elem_of_fmap. by exists (best_from first rest, n).
      - intros h (hm & -> & Hh)%Hkeys%list_elem_of_fmap.
        destruct hm as [h m]. cbn [fst].
        rewrite <- (Hcount _ _ Hh), <- (Hcount _ _ Hin). by apply (Hmax h). }
    destruct (1 <? length (first :: rest).*1)%nat eqn:Elen; [|by left].
    destruct (common_parent (first :: rest).*1) as [p|] eqn:Ep; [|by left].
    case_bool_decide as Hreg; [|by left].
    right. apply common_parent_Some in Ep as (_ & Hne & Hall).
    split; [done|]. split; [done|]. split.
    + apply (two_distinct _ Hnd) in Elen as (a & b & Hab & Ha & Hb).
      exists a, b. split; [done|]. split; by apply Hkeys.
    + intros h Hh. by apply Hall, Hkeys.
Qed.

(** X21. When the scrape found items under two or more groups that all
    lie directly under one group with a button in the panel,
    [auto_select_scrape_group] selects that parent and none of the
    scraped groups, whatever their counts. *)
Theorem auto_select_prefers_shared_parent
  (registry parser_groups : gset string) (res : results) (p : string) :
  p ≠ "" → p ∈ registry → shared_parent p res →
  auto_select_scrape_group registry parser_groups res
  = Some (p, bool_decide (p ∈ parser_groups)) ∧ ¬ counted p res.
Proof.
  intros Hne Hreg [Htwo Hall].
  destruct (group_counts_spec res) as (Hnd & Hkeys & _).
  split.
  - unfold auto_select_scrape_group.
    destruct (group_counts res) as [|first rest] eqn:E.
    { destruct Htwo as (h1 & _ & _ & ?%Hkeys%elem_of_nil & _). done. }
    cbv zeta.
    assert (Elen : (1 <? length (first :: rest).*1)%nat = true).
    { apply (two_distinct _ Hnd). destruct Htwo as (a & b & Hab & Ha & Hb).
      exists a, b. split; [done|]. split; by apply Hkeys. }
    assert (Ep : common_parent (first :: rest).*1 = Some p).
    { apply common_parent_Some. split; [done|]. split; [done|].
      intros h Hh. by apply Hall, Hkeys. }
    rewrite Elen, Ep. by rewrite bool_decide_eq_true_2.
  - intros Hp. apply Hall in Hp. by apply (parent_of_differs p).
Qed.

End AutoSelectFacts.

Lemma auto_select_prefers_shared_parent_witness :
  Importing.auto_select_scrape_group ({["Weapons"]} : gset string)
    (∅ : gset string) Samples.two_weapons
  = Some ("Weapons", bool_decide ("Weapons" ∈ (∅ : gset string))) ∧
  ¬ Importing.counted "Weapons" Samples.two_weapons.
Proof.
  apply auto_select_prefers_shared_parent.
  - done.
  - by apply elem_of_singleton.
  - split.
    + exists "Weapons`Swords", "Weapons`Axes". split; [done|]. split.
      * exists "swords", {| App.tsm_group := "Weapons`Swords"; App.found := 2;
                            App.new_ids := [] |}.
        split; [apply list_elem_of_here|]. simpl. repeat split; [lia|done].
      * exists "axes", {| App.tsm_group := "Weapons`Axes"; App.found := 5;
                          App.new_ids := [9] |}.
        split; [apply list_elem_of_further, list_elem_of_here|].
        simpl. repeat split; [lia|done].
    + intros h (c & d & Hin & <- & _).
      repeat (apply elem_of_cons in Hin as [[= -> ->]|Hin]; [reflexivity|]).
      by apply elem_of_nil in Hin.
Defined.

(** ** Errors during an import *)

Section RunImportRaise.
Import App Importing.
Variable respond : nat → wcall → Lua.outcome nat.

Lemma all_returned_nil : all_returned respond [].
Proof. intros k c Hk. by rewrite lookup_nil in Hk. Qed.

Lemma all_returned_snoc cs c n :
  all_returned respond cs → respond (length cs) c = Lua.Returns n →
  all_returned respond (cs ++ [c]).
Proof.
  intros H Hc k c' Hk. destruct (decide (k < length cs)%nat) as [Hlt|Hge].
  - rewrite lookup_app_l in Hk by done. by apply (H k).
  - rewrite lookup_app_r in Hk by lia.
    destruct (k - length cs)%nat eqn:Ek; simpl in Hk; [|done].
    injection Hk as <-. replace k with (length cs) by lia. by exists n.
Qed.

Lemma import_categories_stopped custom selected_group sel : ∀ r,
  raised r = None → all_returned respond (calls r) →
  stopped_at_raise respond
    (import_categories respond custom selected_group sel r).
Proof.
  induction sel as [|[cat d] sel IH]; intros r Hr Hall; simpl.
  - unfold stopped_at_raise. by rewrite Hr.
  - destruct (new_ids d) as [|i ids]; [by apply IH|].
    destruct (respond (length (calls r)) _) as [n|msg] eqn:E.
    + apply IH; simpl; [done|]. by eapply all_returned_snoc.
    + unfold stopped_at_raise; simpl. eexists _, _. by repeat split.
Qed.

Lemma import_categories_keeps_remove_ids custom selected_group sel : ∀ r,
  remove_ids_left (import_categories respond custom selected_group sel r)
  = remove_ids_left r.
Proof.
  induction sel as [|[cat d] sel IH]; intros r; simpl; [done|].
  destruct (new_ids d) as [|n ns]; [apply IH|].
  destruct (respond (length (calls r)) _); simpl; [|done].
  by rewrite IH.
Qed.

(** X22. [run_import] stops at the first writer call that raises: every
    call before it returned and none follows it. The manual remove list
    is kept only when the removal itself raised, and then nothing else
    was called; the manual add list is kept only when no target group is
    selected or a call raised. *)
Theorem run_import_stops_at_first_raise (selected_group : string)
  (manual_add_ids manual_remove_ids : list Z)
  (boxes : list (string * bool)) (res : results) :
  let r := run_import respond selected_group manual_add_ids manual_remove_ids
             boxes res in
  stopped_at_raise respond r ∧
  (remove_ids_left r ≠ [] →
   remove_ids_left r = manual_remove_ids ∧
   calls r = [CallRemove manual_remove_ids] ∧ is_Some (raised r)) ∧
  (add_ids_left r ≠ [] →
   add_ids_left r = manual_add_ids ∧
   (selected_group = DEFAULT_LABEL ∨ is_Some (raised r))).
Proof.
  intros r. subst r. unfold run_import.
  destruct manual_remove_ids as [|x xs];
    [|destruct (respond 0%nat (CallRemove (x :: xs))) as [n|msg] eqn:E0];
    cbn [raised];
    try (destruct manual_add_ids as [|y ys];
         [|destruct (String.eqb_spec selected_group DEFAULT_LABEL) as [Hd|Hd];
           [|cbn [calls length];
             match goal with
             | |- context [respond ?k (CallAdd ?c)] =>
                 destruct (respond k (CallAdd c)) as [n'|msg'] eqn:E1
             end]];
         cbn [raised]).
  all: rewrite ?import_categories_keeps_add_ids,
         ?import_categories_keeps_remove_ids; cbn [add_ids_left remove_ids_left].
  all: cbn [calls total_removed].
  all: split;
    [first
       [ apply import_categories_stopped; cbn [raised calls]; [done|];
         repeat first [ apply all_returned_nil
                      | eapply (all_returned_snoc [] _); [|eassumption]
                      | eapply all_returned_snoc; [|eassumption] ]
       | unfold stopped_at_raise; cbn [raised calls];
         first [ exists [], (CallRemove (x :: xs));
                 split; [reflexivity|split; [apply all_returned_nil|eassumption]]
               | eexists _, _; split; [reflexivity|];
                 split; [|eassumption];
                 repeat first [ apply all_returned_nil
                      | eapply (all_returned_snoc [] _); [|eassumption]
                      | eapply all_returned_snoc; [|eassumption] ] ] ]
    |].
  all: split; intros H; try done.
  all: repeat split; try done; try (by eexists); try (by left);
    try (right; by eexists).
Qed.

End RunImportRaise.

Lemma run_import_stops_at_first_raise_witness :
  let r := Importing.run_import Samples.refusing Importing.DEFAULT_LABEL
             [5; 6] [9]
             (Importing.update_results_with_checkboxes Samples.two_results)
             Samples.two_results in
  Importing.remove_ids_left r = [9] ∧
  Importing.calls r = [Importing.CallRemove [9]] ∧
  is_Some (Importing.raised r).
Proof.
  apply (proj1 (proj2 (run_import_stops_at_first_raise Samples.refusing
           Importing.DEFAULT_LABEL [5; 6] [9]
           (Importing.update_results_with_checkboxes Samples.two_results)
           Samples.two_results))).
  done.
Defined.

(** ** Entering and pasting ids *)

Section ManualIdMore.
Import ManualIds.

Lemma note_id_target x st :
  remove_mode (note_id x st).1 = remove_mode st ∧
  other_list (note_id x st).1 = other_list st ∧
  events (note_id x st).1 = events st ∧
  (if bool_decide (x ∈ target_list st)
   then target_list (note_id x st).1 = target_list st ∧
        (note_id x st).2 = false
   else target_list (note_id x st).1 = target_list st ++ [x] ∧
        (note_id x st).2 = true).
Proof.
  unfold note_id, target_list, other_list, append_if_absent.
  destruct (remove_mode st) eqn:E; case_bool_decide; simpl; by rewrite ?E.
Qed.

Lemma paste_loop_growth pieces : ∀ st n,
  ∃ new,
    target_list (paste_loop pieces st n).1 = target_list st ++ new ∧
    other_list (paste_loop pieces st n).1 = other_list st ∧
    remove_mode (paste_loop pieces st n).1 = remove_mode st ∧
    events (paste_loop pieces st n).1 = events st ∧
    (paste_loop pieces st n).2 = (n + length new)%nat ∧
    NoDup new ∧ ∀ x, x ∈ new → x ∉ target_list st.
Proof.
  induction pieces as [|p pieces IH]; intros st n; simpl.
  - exists []. rewrite app_nil_r. simpl. repeat split; try done; try lia.
    + constructor.
    + by intros x ?%elem_of_nil.
  - destruct (String.eqb (PyStr.strip p) ""); [apply IH|].
    destruct (PyStr.py_int (PyStr.strip p)) as [x|]; [|apply IH].
    destruct (note_id_target x st) as (Hm & Ho & He & Ht).
    destruct (note_id x st) as [st' b] eqn:En. simpl in Hm, Ho, He, Ht.
    case_bool_decide as Hin; destruct Ht as [Ht ->].
    + destruct (IH st' n) as (new & H1 & H2 & H3 & H4 & H5 & H6 & H7).
      exists new. rewrite H1, H2, H3, H4, H5, Ht, Ho, Hm, He.
      repeat split; try done. intros y Hy. rewrite <- Ht. by apply H7.
    + destruct (IH st' (S n)) as (new & H1 & H2 & H3 & H4 & H5 & H6 & H7).
      exists (x :: new). rewrite H1, H2, H3, H4, H5, Ht, Ho, Hm, He.
      rewrite <- app_assoc. simpl. repeat split; try done; try lia.
      * apply NoDup_cons. split; [|done]. intros Hx. apply (H7 x Hx).
        rewrite Ht. apply elem_of_app. right. apply list_elem_of_here.
      * intros y [->|Hy]%elem_of_cons; [done|].
        intros Hy'. apply (H7 y Hy). rewrite Ht. apply elem_of_app. by left.
Qed.


Lemma note_id_same x st1 st2 :
  same_lists st1 st2 →
  same_lists (note_id x st1).1 (note_id x st2).1.
Proof.
  destruct st1 as [a1 r1 m1 e1], st2 as [a2 r2 m2 e2].
  unfold same_lists, lists. simpl. intros [[= -> ->] ->].
  unfold note_id, append_if_absent. simpl.
  destruct m2; case_bool_decide; done.
Qed.

Lemma emit_same e st : same_lists (emit e st) st.
Proof. done. Qed.

Lemma same_lists_trans st1 st2 st3 :
  same_lists st1 st2 → same_lists st2 st3 → same_lists st1 st3.
Proof. intros [H1 H2] [H3 H4]. split; congruence. Qed.

Lemma same_lists_sym st1 st2 : same_lists st1 st2 → same_lists st2 st1.
Proof. intros [H1 H2]. by split. Qed.

(** One round of the loop of [paste_id_list] does to the lists what
    [add_manual_id] does with the piece in the entry. *)
Lemma paste_loop_as_entries pieces : ∀ st1 st2 n,
  same_lists st1 st2 →
  same_lists (foldl (λ s piece, add_manual_id piece s) st1 pieces)
             (paste_loop pieces st2 n).1.
Proof.
  induction pieces as [|p pieces IH]; intros st1 st2 n Hs; simpl; [done|].
  assert (Hstep : ∀ st2', same_lists
            (match PyStr.py_int (PyStr.strip p) with
             | Some x => if String.eqb (PyStr.strip p) "" then st1
                         else (note_id x st1).1
             | None => st1 end) st2' →
            same_lists (add_manual_id p st1) st2').
  { intros st2' H. unfold add_manual_id.
    destruct (String.eqb_spec (PyStr.strip p) "") as [He|He].
    - rewrite He in *. rewrite py_int_empty in H.
      rewrite andb_true_r. destruct (remove_mode st1); [|done].
      eapply same_lists_trans; [apply emit_same|done].
    - rewrite andb_false_r.
      destruct (PyStr.py_int (PyStr.strip p)) as [x|].
      + destruct (note_id x st1) as [st' b]. simpl in H.
        eapply same_lists_trans; [apply emit_same|done].
      + eapply same_lists_trans; [apply emit_same|done]. }
  destruct (String.eqb_spec (PyStr.strip p) "") as [He|He].
  - apply IH, Hstep. rewrite He, py_int_empty. done.
  - destruct (PyStr.py_int (PyStr.strip p)) as [x|] eqn:Ep.
    + pose proof (note_id_same x st1 st2 Hs) as Hn.
      destruct (note_id x st2) as [st2' b]. apply IH, Hstep. done.
    + apply IH, Hstep. done.
Qed.

(** X24. Pasting a text leaves the two lists as entering its pieces one
    after the other in the entry field does: the pieces are checked,
    converted and appended alike, in the same order. *)
Theorem paste_is_entering_piece_by_piece (input : option string)
  (st : state) :
  lists (paste_id_list input st)
  = lists (foldl (λ s piece, add_manual_id piece s) st (pieces_of input)) ∧
  remove_mode (paste_id_list input st) = remove_mode st.
Proof.
  destruct input as [text|]; [|done]. unfold paste_id_list, pieces_of.
  destruct (String.eqb_spec text "") as [->|Hne].
  - pose proof (paste_loop_as_entries (PyStr.re_split_ids (PyStr.strip ""))
                  st st 0%nat (conj eq_refl eq_refl)) as [Hl _].
    split; [|done]. by rewrite Hl.
  - pose proof (paste_loop_as_entries (PyStr.re_split_ids (PyStr.strip text))
                  st st 0%nat (conj eq_refl eq_refl)) as [Hl Hm].
    destruct (paste_loop_growth (PyStr.re_split_ids (PyStr.strip text)) st 0)
      as (_ & _ & _ & Hmode & _).
    destruct (paste_loop _ st 0%nat) as [st' n]. simpl in *.
    split; [by rewrite Hl|done].
Qed.

(** X25. An accepted entry puts its id into the list of the current
    mode, at the end when it is new and not at all when it is there, and
    leaves the other list alone without looking at it: an id entered in
    add mode and again in remove mode sits in both lists. *)
Theorem add_manual_id_ignores_other_list (entry : string) (id : Z)
  (st : state) :
  PyStr.py_int (PyStr.strip entry) = Some id →
  (target_list (add_manual_id entry st)
   = (if bool_decide (id ∈ target_list st) then target_list st
      else target_list st ++ [id]) ∧
   other_list (add_manual_id entry st) = other_list st ∧
   remove_mode (add_manual_id entry st) = remove_mode st) ∧
  let st' := add_manual_id entry (set_remove_mode true
               (add_manual_id entry (set_remove_mode false st))) in
  id ∈ manual_add_ids st' ∧ id ∈ manual_remove_ids st'.
Proof.
  intros Hid.
  assert (Hone : ∀ s,
    target_list (add_manual_id entry s)
    = (if bool_decide (id ∈ target_list s) then target_list s
       else target_list s ++ [id]) ∧
    other_list (add_manual_id entry s) = other_list s ∧
    remove_mode (add_manual_id entry s) = remove_mode s).
  { intros s. unfold add_manual_id.
    destruct (String.eqb_spec (PyStr.strip entry) "") as [He|He].
    { rewrite He, py_int_empty in Hid. done. }
    rewrite andb_false_r, Hid.
    destruct (note_id_target id s) as (Hm & Ho & _ & Ht).
    destruct (note_id id s) as [s' b]. simpl in *.
    unfold target_list, other_list in *. simpl.
    case_bool_decide; destruct Ht as [Ht _]; done. }
  split; [apply Hone|]. cbv zeta.
  set (s1 := add_manual_id entry (set_remove_mode false st)).
  destruct (Hone (set_remove_mode false st)) as (Ht1 & _ & Hm1).
  fold s1 in Ht1, Hm1.
  set (s2 := set_remove_mode true s1).
  destruct (Hone s2) as (Ht2 & Ho2 & Hm2).
  unfold target_list, other_list in *. simpl in *.
  rewrite Hm1 in Ht1. rewrite Hm2 in Ht2, Ho2.
  rewrite Ho2, Ht2, Ht1. clear.
  assert (Hin : ∀ l : list Z,
            id ∈ (if bool_decide (id ∈ l) then l else l ++ [id])).
  { intros l. case_bool_decide; [done|].
    apply elem_of_app. right. apply list_elem_of_here. }
  split; apply Hin.
Qed.

End ManualIdMore.


Lemma add_manual_id_ignores_other_list_witness :
  8 ∈ ManualIds.manual_add_ids
        (ManualIds.add_manual_id " 8 "
           (ManualIds.set_remove_mode true
              (ManualIds.add_manual_id " 8 "
                 (ManualIds.set_remove_mode false ManualIds.init)))) ∧
  8 ∈ ManualIds.manual_remove_ids
        (ManualIds.add_manual_id " 8 "
           (ManualIds.set_remove_mode true
              (ManualIds.add_manual_id " 8 "
                 (ManualIds.set_remove_mode false ManualIds.init)))).
Proof.
  apply (proj2 (add_manual_id_ignores_other_list " 8 " 8 ManualIds.init
                  eq_refl)).
Defined.

Lemma auto_select_picks_largest_or_shared_parent_witness :
  Importing.counted "Weapons`Axes" Samples.two_results ∧
  ∀ h, Importing.counted h Samples.two_results →
       (Importing.total_found h Samples.two_results
        ≤ Importing.total_found "Weapons`Axes" Samples.two_results)%nat.
Proof.
  pose proof (auto_select_picks_largest_or_shared_parent
                (∅ : gset string) (∅ : gset string) Samples.two_results) as H.
  assert (E : Importing.auto_select_scrape_group
                (∅ : gset string) (∅ : gset string) Samples.two_results
              = Some ("Weapons`Axes", false)) by reflexivity.
  rewrite E in H. destruct H as [_ [H|(_ & Hreg & _)]]; [exact H|].
  by apply not_elem_of_empty in Hreg.
Defined.
